(** * Autocomplete widget (assets/autocomplete.js): model and properties

    The widget is a single JavaScript class driving a DOM subtree.  The
    development below embeds it shallowly:

    - strings are [string]; [toLowerCase] is the ASCII case mapping and
      [indexOf] the substring search of JavaScript strings;
    - the elements the widget generates live in a store ([page]) indexed
      by locations, so that two references to one element alias, and a
      reference to a detached element stays usable, as in the DOM;
    - a class list is a finite set of class names;
    - methods are computations in a state monad over the widget and its
      host page, with one exceptional outcome, the [TypeError] that
      JavaScript raises when a property of [null] or [undefined] is read;
    - [deepMerge] is embedded over a store of JavaScript objects and
      arrays, so that sharing and mutation can be stated.

    Modelling conventions for the DOM: suggestion strings are plain text,
    so each yields one leaf element whose [innerText] is the string; the
    host input element does not itself match the items-wrapper selector;
    scrolling geometry ([scrollIntoViewIfNeeded]) and [preventDefault] are
    outside the state. *)

From Stdlib Require Import ZArith Ascii String.
From stdpp Require Import base option list gmap strings pretty.

Local Open Scope string_scope.
Local Open Scope list_scope.
Local Open Scope nat_scope.
#[local] Set Warnings "-clear-no-such-hyp".

(** ** JavaScript strings *)

Module JsString.

Definition lower_ascii (c : ascii) : ascii :=
  let n := nat_of_ascii c in
  if Nat.leb 65 n && Nat.leb n 90 then ascii_of_nat (n + 32) else c.

(** [String.prototype.toLowerCase] *)
Fixpoint toLowerCase (s : string) : string :=
  match s with
  | EmptyString => EmptyString
  | String c r => String (lower_ascii c) (toLowerCase r)
  end.

Fixpoint startsWith (p s : string) : bool :=
  match p, s with
  | EmptyString, _ => true
  | String a p', String b s' => bool_decide (a = b) && startsWith p' s'
  | String _ _, EmptyString => false
  end.

(** [String.prototype.indexOf]: position of the first occurrence of
    [needle] in [hay], or [-1]. *)
Fixpoint indexOf (hay needle : string) : Z :=
  if startsWith needle hay then 0%Z
  else match hay with
       | EmptyString => (-1)%Z
       | String _ r =>
           let i := indexOf r needle in
           if (i =? -1)%Z then (-1)%Z else (i + 1)%Z
       end.

(** [needle] occurs in [hay] as a contiguous substring. *)
Definition substring_of (needle hay : string) : Prop :=
  ∃ pre post, hay = pre +:+ needle +:+ post.

End JsString.
Import JsString.

(** ** The DOM fragment the widget touches *)

Definition loc := nat.

(** A node of the page: the host's input element, an element generated by
    the widget, or some other element of the host page. *)
Inductive Node :=
| InputNode
| Generated (l : loc)
| HostNode (n : nat).

Global Instance Node_eq_dec : EqDecision Node.
Proof. solve_decision. Defined.

(** A generated element: wrapper, items wrapper or item. *)
Record Element := mkElement {
  classList : gset string;
  innerText : string;
  parentNode : option Node;
  children : list Node;
  clickListener : bool;
}.

Definition with_classList (f : gset string → gset string) (e : Element) : Element :=
  mkElement (f (classList e)) (innerText e) (parentNode e) (children e) (clickListener e).
Definition with_parentNode (p : option Node) (e : Element) : Element :=
  mkElement (classList e) (innerText e) p (children e) (clickListener e).
Definition with_children (f : list Node → list Node) (e : Element) : Element :=
  mkElement (classList e) (innerText e) (parentNode e) (f (children e)) (clickListener e).
Definition with_clickListener (b : bool) (e : Element) : Element :=
  mkElement (classList e) (innerText e) (parentNode e) (children e) b.

(** The value of a nullable element reference such as [elements.activeItem]. *)
Inductive Ref :=
| Null
| Undefined
| Elem (l : loc).

Global Instance Ref_eq_dec : EqDecision Ref.
Proof. solve_decision. Defined.

Definition truthy (r : Ref) : bool :=
  match r with Elem _ => true | _ => false end.

(** The host's input element. *)
Record InputElement := mkInput {
  id : string;
  value : string;
  inputClassList : gset string;
  inputParent : Node;
}.

(** What the host environment observes besides the DOM. *)
Inductive Event :=
| ConsoleError (msg : string)
| Callback (f : nat).

(** A listener registered on [document] by [clickOutside]: its handle and
    the [elements] array its closure captured. *)
Record ClickListener := mkClickListener {
  handle : nat;
  captured : list Node;
}.

Record Listeners := mkListeners {
  onKeydown : bool;
  onInput : bool;
  onDocumentClick : list ClickListener;
}.

(** ** The instance *)

Record ClassNames := mkClassNames {
  cn_init : string;
  cn_input : string;
  cn_wrapper : string;
  cn_itemsWrapper : string;
  cn_itemsWrapperVisible : string;
  cn_item : string;
  cn_itemVisible : string;
  cn_itemActive : string;
}.

Definition DEFAULT_CLASS_NAMES : ClassNames := {|
  cn_init := "is-init-autocomplete";
  cn_input := "autocomplete-input";
  cn_wrapper := "autocomplete-wrapper";
  cn_itemsWrapper := "autocomplete-items-wrapper";
  cn_itemsWrapperVisible := "is-visible";
  cn_item := "autocomplete-item";
  cn_itemVisible := "is-visible";
  cn_itemActive := "is-active";
|}.

(** Callbacks are host functions; the model records their invocation. *)
Record Options := mkOptions {
  valueMatchItem : bool;
  items : list string;
  onInit : option nat;
  onDestroy : option nat;
}.

Definition DEFAULT_OPTIONS : Options := {|
  valueMatchItem := false;
  items := [];
  onInit := None;
  onDestroy := None;
|}.

(** [this.elements] without the input, which is [input] below. *)
Record Elements := mkElements {
  wrapper : option loc;
  itemsWrapper : option loc;
  itemElements : option (list loc);
  activeItem : Ref;
}.

(** The instance together with the part of the page it acts on. *)
Record Widget := mkWidget {
  page : gmap loc Element;
  fresh : loc;
  input : InputElement;
  listeners : Listeners;
  log : list Event;
  elements : Elements;
  options : Options;
  classNames : ClassNames;
  hasItemsVisible : bool;
  cleanupClickOutside : option nat;
}.

Definition set_page (f : gmap loc Element → gmap loc Element) (w : Widget) : Widget :=
  mkWidget (f (page w)) (fresh w) (input w) (listeners w) (log w) (elements w)
    (options w) (classNames w) (hasItemsVisible w) (cleanupClickOutside w).
Definition set_fresh (n : loc) (w : Widget) : Widget :=
  mkWidget (page w) n (input w) (listeners w) (log w) (elements w)
    (options w) (classNames w) (hasItemsVisible w) (cleanupClickOutside w).
Definition set_input (f : InputElement → InputElement) (w : Widget) : Widget :=
  mkWidget (page w) (fresh w) (f (input w)) (listeners w) (log w) (elements w)
    (options w) (classNames w) (hasItemsVisible w) (cleanupClickOutside w).
Definition set_listeners (f : Listeners → Listeners) (w : Widget) : Widget :=
  mkWidget (page w) (fresh w) (input w) (f (listeners w)) (log w) (elements w)
    (options w) (classNames w) (hasItemsVisible w) (cleanupClickOutside w).
Definition emit (e : Event) (w : Widget) : Widget :=
  mkWidget (page w) (fresh w) (input w) (listeners w) (log w ++ [e]) (elements w)
    (options w) (classNames w) (hasItemsVisible w) (cleanupClickOutside w).
Definition set_elements (f : Elements → Elements) (w : Widget) : Widget :=
  mkWidget (page w) (fresh w) (input w) (listeners w) (log w) (f (elements w))
    (options w) (classNames w) (hasItemsVisible w) (cleanupClickOutside w).
Definition set_options (o : Options) (w : Widget) : Widget :=
  mkWidget (page w) (fresh w) (input w) (listeners w) (log w) (elements w)
    o (classNames w) (hasItemsVisible w) (cleanupClickOutside w).
Definition set_hasItemsVisible (b : bool) (w : Widget) : Widget :=
  mkWidget (page w) (fresh w) (input w) (listeners w) (log w) (elements w)
    (options w) (classNames w) b (cleanupClickOutside w).
Definition set_cleanupClickOutside (c : option nat) (w : Widget) : Widget :=
  mkWidget (page w) (fresh w) (input w) (listeners w) (log w) (elements w)
    (options w) (classNames w) (hasItemsVisible w) c.

Definition with_value (v : string) (i : InputElement) : InputElement :=
  mkInput (id i) v (inputClassList i) (inputParent i).
Definition with_inputClassList (f : gset string → gset string) (i : InputElement) : InputElement :=
  mkInput (id i) (value i) (f (inputClassList i)) (inputParent i).
Definition with_inputParent (p : Node) (i : InputElement) : InputElement :=
  mkInput (id i) (value i) (inputClassList i) p.

Definition with_wrapper (r : option loc) (e : Elements) : Elements :=
  mkElements r (itemsWrapper e) (itemElements e) (activeItem e).
Definition with_itemsWrapper (r : option loc) (e : Elements) : Elements :=
  mkElements (wrapper e) r (itemElements e) (activeItem e).
Definition with_itemElements (r : option (list loc)) (e : Elements) : Elements :=
  mkElements (wrapper e) (itemsWrapper e) r (activeItem e).
Definition with_activeItem (r : Ref) (e : Elements) : Elements :=
  mkElements (wrapper e) (itemsWrapper e) (itemElements e) r.

(** ** Computations: state plus [TypeError] *)

(** A method either returns, or throws after having changed the state up
    to the point of the throw. *)
Inductive Outcome (A : Type) :=
| Ret (a : A) (w : Widget)
| TypeError (w : Widget).
Arguments Ret {A} a w.
Arguments TypeError {A} w.

Definition M (A : Type) : Type := Widget → Outcome A.

Global Instance M_ret : MRet M := λ A a w, Ret a w.
Global Instance M_bind : MBind M := λ A B f m w,
  match m w with
  | Ret a w' => f a w'
  | TypeError w' => TypeError w'
  end.

Definition throw {A} : M A := λ w, TypeError w.
Definition get {A} (f : Widget → A) : M A := λ w, Ret (f w) w.
Definition modify (f : Widget → Widget) : M unit := λ w, Ret tt (f w).

(** Dereference of a nullable reference: [null.x] throws. *)
Definition deref {A} (r : Widget → option A) : M A :=
  λ w, match r w with Some a => Ret a w | None => TypeError w end.

(** [for (const x of xs) body] *)
Fixpoint for_of {A} (xs : list A) (body : A → M unit) : M unit :=
  match xs with
  | [] => mret tt
  | x :: r => body x ;; for_of r body
  end.

(** The state an outcome leaves behind. *)
Definition final {A} (o : Outcome A) : Widget :=
  match o with Ret _ w => w | TypeError w => w end.

Definition returns {A} (o : Outcome A) : bool :=
  match o with Ret _ _ => true | TypeError _ => false end.

(** ** Element access *)

Definition has_class (w : Widget) (l : loc) (c : string) : bool :=
  match page w !! l with
  | Some e => bool_decide (c ∈ classList e)
  | None => false
  end.

Definition text_of (w : Widget) (l : loc) : string :=
  match page w !! l with
  | Some e => innerText e
  | None => ""
  end.

Definition children_of (w : Widget) (l : loc) : list Node :=
  match page w !! l with
  | Some e => children e
  | None => []
  end.

Definition parent_of (w : Widget) (l : loc) : option Node :=
  match page w !! l with
  | Some e => parentNode e
  | None => None
  end.

(** [el.classList.add(c)] and [el.classList.remove(c)] *)
Definition addClass (c : string) (l : loc) : Widget → Widget :=
  set_page (alter (with_classList (λ s, s ∪ {[c]})) l).
Definition removeClass (c : string) (l : loc) : Widget → Widget :=
  set_page (alter (with_classList (λ s, s ∖ {[c]})) l).

Definition classList_add (l : loc) (c : string) : M unit := modify (addClass c l).
Definition classList_remove (l : loc) (c : string) : M unit := modify (removeClass c l).

(** The generated elements among a list of nodes. *)
Definition generated (ns : list Node) : list loc :=
  omap (λ n, match n with Generated l => Some l | _ => None end) ns.

(** [root.querySelectorAll('.' + c)]: generated elements are leaves apart
    from the two wrappers, so the descendants of an items wrapper are its
    children, in document order. *)
Definition querySelectorAll (w : Widget) (root : loc) (c : string) : list loc :=
  List.filter (λ l, has_class w l c) (generated (children_of w root)).

(** [root.querySelector('.' + c)] *)
Definition querySelector (w : Widget) (root : loc) (c : string) : option loc :=
  head (querySelectorAll w root c).

(** Allocation of a new element ([insertAdjacentHTML] parses one). *)
Definition createElement (e : Element) : M loc :=
  λ w, Ret (fresh w) (set_fresh (S (fresh w)) (set_page (insert (fresh w) e) w)).

(** [parent.insertAdjacentHTML('beforeend', ...)] for one generated
    element, and [parent.appendChild]. *)
Definition appendChild (parent : loc) (child : loc) : M unit :=
  modify (set_page (λ pg,
    alter (with_parentNode (Some (Generated parent))) child
      (alter (with_children (λ cs, (cs ++ [Generated child])%list)) parent pg))).

(** [el.remove()] *)
Definition remove (l : loc) : M unit :=
  modify (set_page (λ pg,
    let pg' := match pg !! l with
               | Some e =>
                   match parentNode e with
                   | Some (Generated p) =>
                       alter (with_children (filter (λ n, n ≠ Generated l))) p pg
                   | _ => pg
                   end
               | None => pg
               end in
    alter (with_parentNode None) l pg')).

(** [items[i]] for a JavaScript number [i]: out of range is [undefined]. *)
Definition at_index (xs : list loc) (i : Z) : Ref :=
  if (i <? 0)%Z then Undefined
  else match xs !! Z.to_nat i with
       | Some l => Elem l
       | None => Undefined
       end.

(** [items.findIndex(item => item === r)] *)
Fixpoint findIndex (xs : list loc) (r : Ref) : Z :=
  match xs with
  | [] => (-1)%Z
  | x :: rest =>
      if bool_decide (Elem x = r) then 0%Z
      else let i := findIndex rest r in
           if (i =? -1)%Z then (-1)%Z else (i + 1)%Z
  end.

(** ** The methods of [Autocomplete], in the order of the source where
    dependencies allow *)

Definition the_itemsWrapper : M loc := deref (λ w, itemsWrapper (elements w)).
Definition the_items : M (list loc) := deref (λ w, itemElements (elements w)).
Definition the_wrapper : M loc := deref (λ w, wrapper (elements w)).

Definition isInit : M bool :=
  get (λ w, bool_decide (cn_init (classNames w) ∈ inputClassList (input w))).

Definition isShownWithItems : M bool :=
  iw ← the_itemsWrapper;
  get (λ w, has_class w iw (cn_itemsWrapperVisible (classNames w)) && hasItemsVisible w).

Definition showItems : M unit :=
  iw ← the_itemsWrapper;
  cn ← get classNames;
  classList_add iw (cn_itemsWrapperVisible cn).

Definition clearActiveItemStyles : M unit :=
  its ← the_items;
  cn ← get classNames;
  for_of its (λ item, classList_remove item (cn_itemActive cn)).

Definition hideItems : M unit :=
  iw ← the_itemsWrapper;
  cn ← get classNames;
  classList_remove iw (cn_itemsWrapperVisible cn);;
  clearActiveItemStyles;;
  modify (set_elements (with_activeItem Null));;
  vm ← get (λ w, valueMatchItem (options w));
  if vm : bool then
    inputValueLowerCase ← get (λ w, toLowerCase (value (input w)));
    its ← the_items;
    hasMatching ← get (λ w,
      existsb (λ item, bool_decide (toLowerCase (text_of w item) = inputValueLowerCase)) its);
    if negb hasMatching then modify (set_input (with_value "")) else mret tt
  else mret tt.

Definition handleInput : M unit :=
  inputValueLowerCase ← get (λ w, toLowerCase (value (input w)));
  (if bool_decide (inputValueLowerCase = "") then hideItems else showItems);;
  modify (set_hasItemsVisible false);;
  its ← the_items;
  cn ← get classNames;
  for_of its (λ item,
    text ← get (λ w, text_of w item);
    if (indexOf (toLowerCase text) inputValueLowerCase >? -1)%Z then
      classList_add item (cn_itemVisible cn);;
      modify (set_hasItemsVisible true)
    else
      classList_remove item (cn_itemVisible cn)).

Definition setInput (v : string) : M unit :=
  modify (set_input (with_value v));;
  handleInput;;
  hideItems.

(** [event.currentTarget] is the item the listener was registered on. *)
Definition handleItemClick (currentTarget : loc) : M unit :=
  text ← get (λ w, text_of w currentTarget);
  setInput text.

Definition handleArrowKey (direction : string) : M unit :=
  if bool_decide (direction = "") then mret tt else
  clearActiveItemStyles;;
  iw ← the_itemsWrapper;
  cn ← get classNames;
  its ← get (λ w, querySelectorAll w iw (cn_itemVisible cn));
  let firstItem := at_index its 0 in
  let lastItem := at_index its (Z.of_nat (length its) - 1) in
  active ← get (λ w, activeItem (elements w));
  (if bool_decide (direction = "ArrowUp") then
     if truthy active && negb (bool_decide (active = firstItem)) then
       let currentItemIndex := findIndex its active in
       modify (set_elements (with_activeItem (at_index its (currentItemIndex - 1))))
     else
       modify (set_elements (with_activeItem lastItem))
   else if bool_decide (direction = "ArrowDown") then
     if truthy active && negb (bool_decide (active = lastItem)) then
       let currentItemIndex := findIndex its active in
       modify (set_elements (with_activeItem (at_index its (currentItemIndex + 1))))
     else
       modify (set_elements (with_activeItem firstItem))
   else mret tt);;
  active' ← get (λ w, activeItem (elements w));
  match active' with
  | Elem l => classList_add l (cn_itemActive cn)
  | _ => throw
  end.

Definition handleKeydown (key : string) : M unit :=
  shown ← isShownWithItems;
  if negb shown then mret tt else
  if bool_decide (key = "ArrowUp") then handleArrowKey "ArrowUp"
  else if bool_decide (key = "ArrowDown") then handleArrowKey "ArrowDown"
  else if bool_decide (key = "Enter") then
    active ← get (λ w, activeItem (elements w));
    match active with
    | Elem l => text ← get (λ w, text_of w l); setInput text
    | _ => mret tt
    end
  else mret tt.

Definition generateItems (strings : list string) : M unit :=
  wr ← the_wrapper;
  cn ← get classNames;
  el ← createElement (mkElement {[cn_itemsWrapper cn]} "" None [] false);
  appendChild wr el;;
  found ← get (λ w, querySelector w wr (cn_itemsWrapper cn));
  modify (set_elements (with_itemsWrapper found));;
  for_of strings (λ item,
    iw ← the_itemsWrapper;
    el ← createElement (mkElement ({[cn_item cn]} ∪ {[cn_itemVisible cn]}) item None [] false);
    appendChild iw el);;
  iw ← the_itemsWrapper;
  its ← get (λ w, querySelectorAll w iw (cn_item cn));
  modify (set_elements (with_itemElements (Some its)));;
  for_of its (λ item, modify (set_page (alter (with_clickListener true) item))).

Definition generateHTML : M unit :=
  cn ← get classNames;
  wr ← createElement (mkElement {[cn_wrapper cn]} "" None [] false);
  host ← get (λ w, inputParent (input w));
  modify (set_page (alter (with_parentNode (Some host)) wr));;
  modify (set_elements (with_wrapper (Some wr)));;
  modify (set_page (alter (with_children (λ cs, (cs ++ [InputNode])%list)) wr));;
  modify (set_input (with_inputParent (Generated wr)));;
  modify (set_input (with_inputClassList (λ s, s ∪ {[cn_input cn]})));;
  strings ← get (λ w, items (options w));
  generateItems strings.

Definition destroyHTML : M unit :=
  wr ← the_wrapper;
  cn ← get classNames;
  host ← get (λ w, parent_of w wr);
  match host with
  | Some p =>
      modify (set_page (alter (with_children (filter (λ n, n ≠ InputNode))) wr));;
      modify (set_input (with_inputParent p));;
      modify (set_page (alter (with_parentNode None) wr))
  | None => mret tt
  end;;
  modify (set_input (with_inputClassList (λ s, s ∖ {[cn_input cn]}))).

Definition setItems (strings : list string) : M unit :=
  modify (λ w, set_options (mkOptions (valueMatchItem (options w)) strings
                              (onInit (options w)) (onDestroy (options w))) w);;
  iw ← get (λ w, itemsWrapper (elements w));
  match iw with
  | Some l => remove l;; modify (set_elements (with_itemsWrapper None))
  | None => mret tt
  end;;
  strings' ← get (λ w, items (options w));
  generateItems strings'.

(** *** Outside-click dismissal *)

(** A click: its target and the chain of [parentNode]s above it. *)
Record Click := mkClick {
  target : Node;
  ancestors : list Node;
}.

(** The [do ... while (target)] walk of [clickOutside]'s listener:
    [true] when the listener returns early, the click being inside. *)
Fixpoint inside (els : list Node) (t : Node) (up : list Node) : bool :=
  if existsb (λ element, bool_decide (t = element)) els then true
  else match up with
       | [] => false
       | p :: up' => inside els p up'
       end.

(** The listener [fn] that [clickOutside(elements, callback)] registers. *)
Definition clickOutside_fn (els : list Node) (callback : M unit) (event : Click) : M unit :=
  if inside els (target event) (ancestors event) then mret tt else callback.

(** [clickOutside(elements, callback)]: registers [fn] on [document] and
    returns the closure that unregisters it, represented by its handle. *)
Definition clickOutside (els : list Node) : M nat :=
  h ← get fresh;
  modify (set_fresh (S h));;
  modify (set_listeners (λ ls,
    mkListeners (onKeydown ls) (onInput ls)
      (onDocumentClick ls ++ [mkClickListener h els])%list));;
  mret h.

Definition run_cleanup (h : nat) : M unit :=
  modify (set_listeners (λ ls,
    mkListeners (onKeydown ls) (onInput ls)
      (filter (λ cl, handle cl ≠ h) (onDocumentClick ls)))).

Definition addEvents : M unit :=
  modify (set_listeners (λ ls, mkListeners true (onInput ls) (onDocumentClick ls)));;
  modify (set_listeners (λ ls, mkListeners (onKeydown ls) true (onDocumentClick ls)));;
  iw ← get (λ w, itemsWrapper (elements w));
  h ← clickOutside (InputNode :: match iw with Some l => [Generated l] | None => [] end);
  modify (set_cleanupClickOutside (Some h)).

Definition removeEvents : M unit :=
  modify (set_listeners (λ ls, mkListeners false (onInput ls) (onDocumentClick ls)));;
  modify (set_listeners (λ ls, mkListeners (onKeydown ls) false (onDocumentClick ls)));;
  h ← deref cleanupClickOutside;
  run_cleanup h.

(** *** Life cycle *)

Definition init : M unit :=
  initialised ← isInit;
  if initialised : bool then
    modify (λ w, emit (ConsoleError
      ("Autocomplete is already initialized (id): " +:+ id (input w))) w)
  else
    generateHTML;;
    addEvents;;
    v ← get (λ w, value (input w));
    (if bool_decide (v ≠ "") then handleInput else mret tt);;
    cn ← get classNames;
    modify (set_input (with_inputClassList (λ s, s ∪ {[cn_init cn]})));;
    f ← get (λ w, onInit (options w));
    match f with
    | Some g => modify (emit (Callback g))
    | None => mret tt
    end.

Definition destroy : M unit :=
  initialised ← isInit;
  if negb initialised then
    modify (λ w, emit (ConsoleError
      ("Autocomplete is not initialized (id): " +:+ id (input w))) w)
  else
    destroyHTML;;
    removeEvents;;
    cn ← get classNames;
    modify (set_input (with_inputClassList (λ s, s ∖ {[cn_init cn]})));;
    f ← get (λ w, onDestroy (options w));
    match f with
    | Some g => modify (emit (Callback g))
    | None => mret tt
    end.

(** [new Autocomplete(inputElement, options, classNames)] on a page where
    the widget has generated nothing yet.  [o] and [c] stand for the merged
    records [deepMerge(DEFAULT_OPTIONS, options)] and
    [deepMerge(DEFAULT_CLASS_NAMES, classNames)]. *)
Definition instance (i : InputElement) (o : Options) (c : ClassNames) : Widget :=
  mkWidget ∅ 0 i (mkListeners false false []) []
    (mkElements None None None Null) o c false None.

Definition constructor (i : InputElement) (o : Options) (c : ClassNames) : Outcome unit :=
  init (instance i o c).

(** *** What the host and the user can do to a constructed widget *)

Inductive Action :=
| Type_ (text : string)         (* the user edits the input: an [input] event *)
| Keydown (key : string)        (* a [keydown] event on the input *)
| ClickItem (item : loc)        (* a click on an item element *)
| ClickAt (event : Click)       (* a click that reaches [document] *)
| CallShowItems
| CallHideItems
| CallSetInput (text : string)
| CallSetItems (strings : list string)
| CallInit
| CallDestroy.

(** Listeners run only while registered; the document's click listeners
    run in registration order, each with [hideItems] as its callback. *)
Definition perform (a : Action) : M unit :=
  match a with
  | Type_ text =>
      modify (set_input (with_value text));;
      on ← get (λ w, onInput (listeners w));
      if on : bool then handleInput else mret tt
  | Keydown key =>
      on ← get (λ w, onKeydown (listeners w));
      if on : bool then handleKeydown key else mret tt
  | ClickItem item =>
      on ← get (λ w, match page w !! item with
                     | Some e => clickListener e
                     | None => false
                     end);
      if on : bool then handleItemClick item else mret tt
  | ClickAt event =>
      ls ← get (λ w, onDocumentClick (listeners w));
      for_of ls (λ cl, clickOutside_fn (captured cl) hideItems event)
  | CallShowItems => showItems
  | CallHideItems => hideItems
  | CallSetInput text => setInput text
  | CallSetItems strings => setItems strings
  | CallInit => init
  | CallDestroy => destroy
  end.

(** A run of actions; an uncaught [TypeError] ends the handler that raised
    it and the page lives on in the state reached. *)
Fixpoint run (acts : list Action) (w : Widget) : Widget :=
  match acts with
  | [] => w
  | a :: rest => run rest (final (perform a w))
  end.

Definition hostInput : InputElement := mkInput "search" "" ∅ (HostNode 0).

Definition fruit : Options := mkOptions false ["Apple"; "Banana"; "Cherry"] None None.

(** ** Well-formed instances *)

(** The shape every successfully constructed instance has and keeps: the
    three references are set, they denote distinct live elements, the item
    collection is the content of the items wrapper, which is the one
    generated child of the wrapper, and allocation is ahead of the store. *)
Definition scaffolded (w : Widget) : Prop :=
  match wrapper (elements w), itemsWrapper (elements w), itemElements (elements w) with
  | Some wr, Some iw, Some its =>
      NoDup (wr :: iw :: its)
      ∧ generated (children_of w iw) = its
      ∧ generated (children_of w wr) = [iw]
      ∧ parent_of w iw = Some (Generated wr)
      ∧ Forall (λ l, is_Some (page w !! l)) (wr :: iw :: its)
      ∧ map_Forall (λ l _, l < fresh w) (page w)
  | _, _, _ => False
  end.

Global Instance scaffolded_dec w : Decision (scaffolded w).
Proof.
  unfold scaffolded.
  destruct (wrapper (elements w)), (itemsWrapper (elements w)),
    (itemElements (elements w)); apply _.
Defined.

(** The item collection of an instance ([[]] before generation). *)
Definition itemsOf (w : Widget) : list loc :=
  default [] (itemElements (elements w)).

(** The panel is shown: the items wrapper carries the panel-visible class. *)
Definition panelShown (w : Widget) : bool :=
  match itemsWrapper (elements w) with
  | Some iw => has_class w iw (cn_itemsWrapperVisible (classNames w))
  | None => false
  end.

Definition isVisible (w : Widget) (l : loc) : bool :=
  has_class w l (cn_itemVisible (classNames w)).
Definition isActive (w : Widget) (l : loc) : bool :=
  has_class w l (cn_itemActive (classNames w)).

(** The role classes of an item are pairwise different names. *)
Definition distinctRoles (c : ClassNames) : Prop :=
  cn_itemActive c ≠ cn_item c ∧ cn_itemActive c ≠ cn_itemVisible c.

(** Case-insensitive containment and equality, as the widget tests them. *)
Definition matches (typed text : string) : bool :=
  (indexOf (toLowerCase text) (toLowerCase typed) >? -1)%Z.

Definition sameText (typed text : string) : bool :=
  bool_decide (toLowerCase text = toLowerCase typed).


(** ** The states the filtering and hiding methods reach

    Closed forms of the loops over the item collection, against which the
    monadic methods are proved. *)

Definition clearPage (c : string) (its : list loc) (pg : gmap loc Element) : gmap loc Element :=
  foldl (λ pg l, alter (with_classList (λ s, s ∖ {[c]})) l pg) pg its.

Definition markElement (typed c : string) (e : Element) : Element :=
  if matches typed (innerText e)
  then with_classList (λ s, s ∪ {[c]}) e
  else with_classList (λ s, s ∖ {[c]}) e.

Definition markPage (typed c : string) (its : list loc) (pg : gmap loc Element) : gmap loc Element :=
  foldl (λ pg l, alter (markElement typed c) l pg) pg its.

(** After [hideItems]. *)
Definition hidden (w : Widget) : Widget :=
  match itemsWrapper (elements w) with
  | Some iw =>
      let cn := classNames w in
      let w1 := set_elements (with_activeItem Null)
                  (set_page (clearPage (cn_itemActive cn) (itemsOf w))
                     (removeClass (cn_itemsWrapperVisible cn) iw w)) in
      if valueMatchItem (options w)
         && negb (existsb (λ item, sameText (value (input w)) (text_of w item)) (itemsOf w))
      then set_input (with_value "") w1
      else w1
  | None => w
  end.

(** After [showItems]. *)
Definition shown (w : Widget) : Widget :=
  match itemsWrapper (elements w) with
  | Some iw => addClass (cn_itemsWrapperVisible (classNames w)) iw w
  | None => w
  end.

(** After [handleInput]. *)
Definition filtered (w : Widget) : Widget :=
  let typed := value (input w) in
  let w1 := if bool_decide (toLowerCase typed = "") then hidden w else shown w in
  set_hasItemsVisible (existsb (λ item, matches typed (text_of w item)) (itemsOf w))
    (set_page (markPage typed (cn_itemVisible (classNames w)) (itemsOf w)) w1).

(** Two pages that differ at most in the class lists of their elements. *)
Definition skeleton (e : Element) : string * option Node * list Node * bool :=
  (innerText e, parentNode e, children e, clickListener e).

Definition sameSkeleton (pg pg' : gmap loc Element) : Prop :=
  ∀ l, skeleton <$> pg' !! l = skeleton <$> pg !! l.

(** ** Sample runs *)

(** A widget over the suggestions Apple, Banana, Cherry. *)
Definition fruitWidget : Widget :=
  final (constructor hostInput fruit DEFAULT_CLASS_NAMES).

(** The user typed "a", pressed ArrowDown (Apple becomes active) and went
    on typing to "an": Apple is filtered out and is still the active item. *)
Definition staleActive : Widget :=
  run [Type_ "a"; Keydown "ArrowDown"; Type_ "an"] fruitWidget.

(** As above, but typing on to "az", which no suggestion contains. *)
Definition noMatch : Widget :=
  run [Type_ "a"; Keydown "ArrowDown"; Type_ "az"] fruitWidget.

(** Apple active, then the suggestions are replaced. *)
Definition beforeSetItems : Widget :=
  run [Type_ "a"; Keydown "ArrowDown"] fruitWidget.

(** The state [setItems] leaves behind there. *)
Definition replaced : Widget :=
  final (setItems ["One"; "Two"] beforeSetItems).

(** The suggestions were replaced and the user typed "o". *)
Definition afterSetItems : Widget :=
  run [CallSetItems ["One"; "Two"]; Type_ "o"] fruitWidget.

(** [w'] is [w] with one more diagnostic on the console, and no other
    difference: same page, same input, same listeners, same instance
    fields, no callback invoked. *)
Definition diagnosed (msg : string) (w w' : Widget) : Prop :=
  page w' = page w
  ∧ fresh w' = fresh w
  ∧ input w' = input w
  ∧ listeners w' = listeners w
  ∧ elements w' = elements w
  ∧ options w' = options w
  ∧ classNames w' = classNames w
  ∧ hasItemsVisible w' = hasItemsVisible w
  ∧ cleanupClickOutside w' = cleanupClickOutside w
  ∧ log w' = (log w ++ [ConsoleError msg])%list.

Definition initialised (w : Widget) : Prop :=
  cn_init (classNames w) ∈ inputClassList (input w).

(** ** Invariants of a running widget *)

(** A computation leaves an observation of the state as it found it,
    whether it returns or throws. *)
Definition preserves {A B} (f : Widget → A) (m : M B) : Prop :=
  ∀ w, f (final (m w)) = f w.

(** The part of the state that class-list updates cannot change: the
    references to the generated containers and the page up to classes. *)
Definition shape (w : Widget)
  : option loc * option loc * option (list loc) * gmap loc (string * option Node * list Node * bool) * loc :=
  (wrapper (elements w), itemsWrapper (elements w), itemElements (elements w),
   skeleton <$> page w, fresh w).

Definition unbuilt (w : Widget) : Prop :=
  wrapper (elements w) = None
  ∧ itemsWrapper (elements w) = None
  ∧ itemElements (elements w) = None.

Definition allocated (w : Widget) : Prop :=
  map_Forall (λ l _, l < fresh w) (page w).

(** Whatever item of the collection is highlighted is the active item. *)
Definition highlightTracked (w : Widget) : Prop :=
  ∀ l, l ∈ itemsOf w → isActive w l = true → activeItem (elements w) = Elem l.

Definition consistent (w : Widget) : Prop :=
  distinctRoles (classNames w)
  ∧ allocated w
  ∧ (unbuilt w ∨ scaffolded w)
  ∧ highlightTracked w.

(** The number of items of the collection that carry the highlight class. *)
Definition activeCount (w : Widget) : nat :=
  length (List.filter (isActive w) (itemsOf w)).

(** The fields of the instance and of the host that generating elements
    does not touch. *)
Definition rest (w : Widget) :=
  (input w, listeners w, log w, options w, classNames w, hasItemsVisible w,
   cleanupClickOutside w, activeItem (elements w), wrapper (elements w)).

(** The element [generateItems] makes of a suggestion under the items
    wrapper [iw], before its click listener is attached. *)
Definition itemElement (cn : ClassNames) (iw : loc) (s : string) : Element :=
  mkElement ({[cn_item cn]} ∪ {[cn_itemVisible cn]}) s (Some (Generated iw)) [] false.

(** A computation maintains a property of the state, whether it returns
    or throws. *)
Definition keeps {A} (P : Widget → Prop) (m : M A) : Prop :=
  ∀ w, P w → P (final (m w)).

(** The reference an arrow key makes the active item, given the visible
    items and the current active item. *)
Definition nextActive (direction : string) (its : list loc) (active : Ref) : Ref :=
  let firstItem := at_index its 0 in
  let lastItem := at_index its (Z.of_nat (length its) - 1) in
  if bool_decide (direction = "ArrowUp") then
    if truthy active && negb (bool_decide (active = firstItem))
    then at_index its (findIndex its active - 1)
    else lastItem
  else if bool_decide (direction = "ArrowDown") then
    if truthy active && negb (bool_decide (active = lastItem))
    then at_index its (findIndex its active + 1)
    else firstItem
  else active.

(** The outcome of [handleArrowKey] for a non-empty direction. *)
Definition arrowed (direction : string) (w : Widget) : Outcome unit :=
  match itemElements (elements w) with
  | Some all =>
      let cn := classNames w in
      let w1 := set_page (clearPage (cn_itemActive cn) all) w in
      match itemsWrapper (elements w) with
      | Some iw =>
          let r := nextActive direction (querySelectorAll w1 iw (cn_itemVisible cn))
                     (activeItem (elements w)) in
          let w2 := set_elements (with_activeItem r) w1 in
          match r with
          | Elem l => Ret tt (addClass (cn_itemActive cn) l w2)
          | _ => TypeError w2
          end
      | None => TypeError w1
      end
  | None => TypeError w
  end.

(** The visible items, in document order: what [handleArrowKey] queries. *)
Definition visibleItems (w : Widget) : list loc :=
  match itemsWrapper (elements w) with
  | Some iw => querySelectorAll w iw (cn_itemVisible (classNames w))
  | None => []
  end.

(** ** [deepMerge] over a store of JavaScript objects

    Objects and arrays live in a store and are handled through
    references, so that what [deepMerge] allocates, shares and leaves
    untouched can be stated.  A plain object is its list of own enumerable
    properties, in insertion order; the recursion on nested objects is
    bounded by fuel. *)

Inductive JsValue :=
| JUndefined
| JNull
| JBool (b : bool)
| JNumber (z : Z)
| JString (s : string)
| JFunction (f : nat)
| JRef (a : nat).

Global Instance JsValue_eq_dec : EqDecision JsValue.
Proof. solve_decision. Defined.

Inductive JsObject :=
| Plain (props : list (string * JsValue))
| Array (elems : list JsValue).

Abbreviation Store := (gmap nat JsObject).

(** The own enumerable properties: those of an array are its indices. *)
Definition entries (o : JsObject) : list (string * JsValue) :=
  match o with
  | Plain props => props
  | Array elems => imap (λ i v, (pretty i, v)) elems
  end.

Fixpoint assoc {A} (key : string) (kvs : list (string * A)) : option A :=
  match kvs with
  | [] => None
  | (k, v) :: rest => if bool_decide (k = key) then Some v else assoc key rest
  end.

(** [o[key] = v] on a list of properties: in place, or appended. *)
Fixpoint assign {A} (key : string) (v : A) (kvs : list (string * A)) : list (string * A) :=
  match kvs with
  | [] => [(key, v)]
  | (k, x) :: rest =>
      if bool_decide (k = key) then (k, v) :: rest else (k, x) :: assign key v rest
  end.

(** [Object.keys(obj)] *)
Definition keys (h : Store) (a : nat) : list string :=
  match h !! a with
  | Some o => (entries o).*1
  | None => []
  end.

(** [obj[key]] *)
Definition getProp (h : Store) (a : nat) (key : string) : JsValue :=
  match h !! a with
  | Some o => default JUndefined (assoc key (entries o))
  | None => JUndefined
  end.

(** [prev[key] = v], [prev] being a plain object. *)
Definition setProp (a : nat) (key : string) (v : JsValue) (h : Store) : Store :=
  match h !! a with
  | Some (Plain props) => <[a := Plain (assign key v props)]> h
  | _ => h
  end.

(** [Array.isArray(v)] *)
Definition isArray (h : Store) (v : JsValue) : bool :=
  match v with
  | JRef a => match h !! a with Some (Array _) => true | _ => false end
  | _ => false
  end.

(** [isObject]: [obj && typeof obj === 'object']; arrays are objects,
    functions and [null] are not. *)
Definition isObject (v : JsValue) : bool :=
  match v with JRef _ => true | _ => false end.

Definition elemsOf (h : Store) (v : JsValue) : list JsValue :=
  match v with
  | JRef a => match h !! a with Some (Array elems) => elems | _ => [] end
  | _ => []
  end.

(** The elements [pVal.concat(...oVal)] appends: [concat] splices each
    argument that is an array. *)
Definition spread (h : Store) (args : list JsValue) : list JsValue :=
  flat_map (λ v, if isArray h v then elemsOf h v else [v]) args.

(** Allocation of a new object. *)
Definition alloc (o : JsObject) (h : Store) : nat * Store :=
  let a := base.fresh (dom h) in (a, <[a := o]> h).

Fixpoint foldM {A S} (f : S → A → option S) (s : S) (xs : list A) : option S :=
  match xs with
  | [] => Some s
  | x :: rest => match f s x with Some s' => foldM f s' rest | None => None end
  end.

(** The body of the [forEach] callback, for the accumulator [prev]; [rec]
    is the recursive call [deepMerge(pVal, oVal)]. *)
Definition mergeKey (rec : list nat → Store → option (nat * Store))
    (prev obj : nat) (h : Store) (key : string) : option Store :=
  let pVal := getProp h prev key in
  let oVal := getProp h obj key in
  if isArray h pVal && isArray h oVal then
    let (c, h1) := alloc (Array (elemsOf h pVal ++ spread h (elemsOf h oVal))) h in
    Some (setProp prev key (JRef c) h1)
  else if isObject pVal && isObject oVal then
    match pVal, oVal with
    | JRef p, JRef o =>
        match rec [p; o] h with
        | Some (c, h1) => Some (setProp prev key (JRef c) h1)
        | None => None
        end
    | _, _ => None
    end
  else Some (setProp prev key oVal h).

(** [deepMerge(...objects)]: [None] when the fuel does not cover the
    nesting of the arguments. *)
Fixpoint deepMerge (fuel : nat) (objects : list nat) (h : Store) : option (nat * Store) :=
  match fuel with
  | 0 => None
  | S fuel' =>
      let (prev, h0) := alloc (Plain []) h in
      match foldM (λ h obj, foldM (mergeKey (deepMerge fuel') prev obj) h (keys h obj))
              h0 objects with
      | Some h' => Some (prev, h')
      | None => None
      end
  end.

(** *** What a reference stands for *)

(** A nested structure as a value: scalars, sequences, mappings. *)
#[local] Set Warnings "-register-all".
Inductive Tree :=
| Leaf (v : JsValue)
| Arr (ts : list Tree)
| Obj (kvs : list (string * Tree)).

(** [denotes n h v t]: in the store [h] the value [v] is the root of the
    structure [t], nested at most [n] deep. *)
Fixpoint denotes (n : nat) (h : Store) (v : JsValue) (t : Tree) : Prop :=
  match v with
  | JRef a =>
      match n with
      | 0 => False
      | S n' =>
          match h !! a, t with
          | Some (Plain props), Obj kvs =>
              Forall2 (λ p kv, p.1 = kv.1 ∧ denotes n' h p.2 kv.2) props kvs
          | Some (Array elems), Arr ts => Forall2 (denotes n' h) elems ts
          | _, _ => False
          end
      end
  | _ => t = Leaf v
  end.

Definition isSequence (t : Tree) : bool :=
  match t with Arr _ => true | _ => false end.

Definition isStructured (t : Tree) : bool :=
  match t with Arr _ | Obj _ => true | Leaf _ => false end.

(** [flat n t]: down to depth [n], no sequence of [t] holds a sequence. *)
Fixpoint flat (n : nat) (t : Tree) : Prop :=
  match n with
  | 0 => True
  | S n' =>
      match t with
      | Leaf _ => True
      | Arr ts => Forall (λ u, isSequence u = false ∧ flat n' u) ts
      | Obj kvs => Forall (λ kv, flat n' kv.2) kvs
      end
  end.

(** Properties of the store against properties as values. *)
Definition related (n : nat) (h : Store)
    (props : list (string * JsValue)) (kvs : list (string * Tree)) : Prop :=
  Forall2 (λ p kv, p.1 = kv.1 ∧ denotes n h p.2 kv.2) props kvs.

(** *** The merge of structures, as values *)

Definition entriesT (t : Tree) : list (string * Tree) :=
  match t with
  | Obj kvs => kvs
  | Arr ts => imap (λ i t, (pretty i, t)) ts
  | Leaf _ => []
  end.

Definition propT (key : string) (kvs : list (string * Tree)) : Tree :=
  default (Leaf JUndefined) (assoc key kvs).

Definition elemsT (t : Tree) : list Tree :=
  match t with Arr ts => ts | _ => [] end.

(** The value a key gets when the accumulated value is [p] and the later
    input has [o]: two sequences are concatenated, two structured values
    (mappings, or sequences read as mappings of their indices) are merged
    recursively by [rec], and otherwise the later value wins. *)
Definition combine (rec : list Tree → list (string * Tree)) (p o : Tree) : Tree :=
  if isSequence p && isSequence o then Arr (elemsT p ++ elemsT o)
  else if isStructured p && isStructured o then Obj (rec [p; o])
  else o.

(** The merge of the structures [ts], in input order; the fuel bounds the
    nesting. *)
Fixpoint mergeTrees (fuel : nat) (ts : list Tree) : list (string * Tree) :=
  match fuel with
  | 0 => []
  | S fuel' =>
      foldl (λ acc t,
               foldl (λ acc key,
                        assign key
                          (combine (mergeTrees fuel') (propT key acc)
                             (propT key (entriesT t)))
                          acc)
                 acc (entriesT t).*1)
        [] ts
  end.

(** The claim read literally: only two mappings are merged recursively,
    a sequence against a mapping is replaced. *)
Definition combineClaimed (rec : list Tree → list (string * Tree)) (p o : Tree) : Tree :=
  match p, o with
  | Arr ps, Arr os => Arr (ps ++ os)
  | Obj _, Obj _ => Obj (rec [p; o])
  | _, _ => o
  end.

Fixpoint mergeClaimed (fuel : nat) (ts : list Tree) : list (string * Tree) :=
  match fuel with
  | 0 => []
  | S fuel' =>
      foldl (λ acc t,
               foldl (λ acc key,
                        assign key
                          (combineClaimed (mergeClaimed fuel') (propT key acc)
                             (propT key (entriesT t)))
                          acc)
                 acc (entriesT t).*1)
        [] ts
  end.

(** Executable reading of a value of the store as a structure. *)
Fixpoint reify (n : nat) (h : Store) (v : JsValue) : option Tree :=
  match v with
  | JRef a =>
      match n with
      | 0 => None
      | S n' =>
          match h !! a with
          | Some (Plain props) =>
              Obj <$> mapM (λ p, pair p.1 <$> reify n' h p.2) props
          | Some (Array elems) => Arr <$> mapM (reify n' h) elems
          | None => None
          end
      end
  | _ => Some (Leaf v)
  end.

(** Sample stores: [{a: [1]}] merged with [{a: {x: 2}}], and with
    [{a: [[2, 3]]}]. *)
Definition mixedStore : Store :=
  list_to_map
    [(0, Plain [("a", JRef 1)]); (1, Array [JNumber 1]);
     (2, Plain [("a", JRef 3)]); (3, Plain [("x", JNumber 2)])].

Definition nestedStore : Store :=
  list_to_map
    [(0, Plain [("a", JRef 1)]); (1, Array [JNumber 1]);
     (2, Plain [("a", JRef 3)]); (3, Array [JRef 4]);
     (4, Array [JNumber 2; JNumber 3])].

Definition mergedIn (h : Store) : option Tree :=
  match deepMerge 3 [0; 2] h with
  | Some (r, h') => reify 3 h' (JRef r)
  | None => None
  end.

Definition claimedIn (h : Store) : option Tree :=
  match reify 3 h (JRef 0), reify 3 h (JRef 2) with
  | Some a, Some b => Some (Obj (mergeClaimed 3 [a; b]))
  | _, _ => None
  end.

(** *** The specification [deepMerge] is proved against *)

(** [merges n objects ts h b]: called in the store [h] on [objects], which
    stand for the structures [ts] within the part [b] of [h], [deepMerge]
    returns a reference [r] that [h] did not hold and a store [h'] that
    extends [h]; [r] stands for the merge of [ts] within a part [b'] of
    [h'] that extends [b] by new objects only. *)
Definition merges (n : nat) (objects : list nat) (ts : list Tree) (h b : Store) : Prop :=
  ∃ r (h' b' : Store),
    deepMerge (S n) objects h = Some (r, h')
    ∧ h ⊆ h'
    ∧ h !! r = None
    ∧ b ⊆ b'
    ∧ b' ⊆ h'
    ∧ (∀ a, is_Some (h !! a) → b' !! a = b !! a)
    ∧ denotes (S n) b' (JRef r) (Obj (mergeTrees (S n) ts))
    ∧ flat (S n) (Obj (mergeTrees (S n) ts)).

(** The loop invariant of the reduction: the accumulator [prev] holds
    properties that stand for [acc] within a part [bc] of the current store
    [g] that does not contain [prev] itself. *)
Definition accumulating (n : nat) (h b : Store) (prev : nat) (g : Store)
    (acc : list (string * Tree)) : Prop :=
  ∃ ps (bc : Store),
    g !! prev = Some (Plain ps)
    ∧ h ⊆ g
    ∧ b ⊆ bc
    ∧ bc ⊆ g
    ∧ bc !! prev = None
    ∧ (∀ a, is_Some (h !! a) → bc !! a = b !! a)
    ∧ related n bc ps acc
    ∧ Forall (λ kv, flat n kv.2) acc.

(** ** The instance over its life cycle *)

(** What ties the instance to the event sources of the page: the
    registered listeners, the stored cleanup closure, the class list of the
    input, on which [isInit] reads the marker, and the class names. *)
Definition wiring (w : Widget) : Listeners * option nat * gset string * ClassNames :=
  (listeners w, cleanupClickOutside w, inputClassList (input w), classNames w).

(** The elements the listener registered by [addEvents] captures when the
    items wrapper is [iw]. *)
Definition capturedAt (iw : option loc) : list Node :=
  InputNode :: match iw with Some l => [Generated l] | None => [] end.

(** The state of an instance in use: its elements are in place, they show
    [options.items], and its listeners are registered exactly while the
    input is marked as initialised, the document having one click listener
    of the instance then.  With [strict] the listener captures the current
    items wrapper. *)
Definition live (strict : bool) (w : Widget) : Prop :=
  scaffolded w
  ∧ map (text_of w) (itemsOf w) = items (options w)
  ∧ if decide (initialised w)
    then ∃ h els,
           listeners w = mkListeners true true [mkClickListener h els]
           ∧ cleanupClickOutside w = Some h
           ∧ (strict = true → els = capturedAt (itemsWrapper (elements w)))
    else listeners w = mkListeners false false [].

(** The actions that leave the items wrapper in place. *)
Definition keepsItems (a : Action) : bool :=
  match a with CallSetItems _ => false | _ => true end.

(** The arrow keys. *)
Definition isArrow (a : Action) : bool :=
  match a with
  | Keydown key => bool_decide (key = "ArrowUp") || bool_decide (key = "ArrowDown")
  | _ => false
  end.

(** [DEFAULT_CLASS_NAMES] at address 0 and a partial override,
    [{itemActive: 'selected'}], at address 1, as the constructor merges
    them. *)
Definition classNamesStore : Store :=
  list_to_map
    [(0, Plain [("init", JString "is-init-autocomplete");
                ("input", JString "autocomplete-input");
                ("wrapper", JString "autocomplete-wrapper");
                ("itemsWrapper", JString "autocomplete-items-wrapper");
                ("itemsWrapperVisible", JString "is-visible");
                ("item", JString "autocomplete-item");
                ("itemVisible", JString "is-visible");
                ("itemActive", JString "is-active")]);
     (1, Plain [("itemActive", JString "selected")])].

(** ** Plain-text suggestions

    [generateItems] writes each suggestion into the markup of its item
    element and the widget reads the element's [innerText] back.  For the
    strings below the two agree and the markup is one element without
    children: printable ASCII without the markup characters [<] and [&],
    and with single inner spaces only, which rendering neither trims nor
    collapses (the host's style sheet is taken not to transform the text
    of the items). *)
Definition plainChar (a : ascii) : bool :=
  let n := nat_of_ascii a in
  (32 <=? n) && (n <=? 126) && negb (n =? 60) && negb (n =? 38).

(** No space at either end and no two spaces in a row; [after_space]
    tells whether the previous character was a space, or the start. *)
Fixpoint spaced (after_space : bool) (s : string) : bool :=
  match s with
  | EmptyString => negb after_space
  | String a r =>
      if (nat_of_ascii a =? 32) then negb after_space && spaced true r
      else spaced false r
  end.

Definition plainText (s : string) : bool :=
  match s with
  | EmptyString => true
  | _ => forallb plainChar (list_ascii_of_string s) && spaced true s
  end.

(** The actions whose suggestions, if they bring any, are plain text. *)
Definition plainAction (a : Action) : bool :=
  match a with
  | CallSetItems strings => forallb plainText strings
  | _ => true
  end.
(** ** Strings: [indexOf] decides substring containment *)

Lemma startsWith_spec p s : startsWith p s = true ↔ ∃ post, s = p +:+ post.
Proof.
  revert s. induction p as [|a p IH]; intros s; simpl.
  - split; [intros _; by exists s | done].
  - destruct s as [|b s].
    + split; [done | intros [post H]; discriminate].
    + rewrite andb_true_iff, bool_decide_eq_true, IH. split.
      * intros [-> [post ->]]. by exists post.
      * intros [post H]. injection H as -> ->. eauto.
Qed.

Lemma indexOf_lower_bound hay needle : (-1 ≤ indexOf hay needle)%Z.
Proof.
  induction hay as [|c r IH]; simpl.
  - destruct (startsWith needle ""); lia.
  - destruct (startsWith needle (String c r)); [lia|].
    destruct (Z.eqb_spec (indexOf r needle) (-1)); lia.
Qed.

Lemma indexOf_found hay needle :
  (indexOf hay needle >? -1)%Z = true ↔ substring_of needle hay.
Proof.
  rewrite Z.gtb_gt. induction hay as [|c r IH]; simpl.
  - destruct (startsWith needle "") eqn:E.
    + apply startsWith_spec in E as [post E]. split; [|lia].
      intros _. exists "", post. done.
    + split; [lia|]. intros [pre [post H]].
      destruct pre; [|discriminate]. simpl in H.
      assert (startsWith needle "" = true) by (apply startsWith_spec; eauto).
      congruence.
  - destruct (startsWith needle (String c r)) eqn:E.
    + apply startsWith_spec in E as [post E]. split; [|lia].
      intros _. exists "", post. done.
    + pose proof (indexOf_lower_bound r needle) as Hlb.
      destruct (Z.eqb_spec (indexOf r needle) (-1)) as [Hi|Hi].
      * split; [lia|]. intros [pre [post H]]. destruct pre as [|a pre].
        -- assert (startsWith needle (String c r) = true)
             by (apply startsWith_spec; eauto).
           congruence.
        -- injection H as -> ->.
           assert (indexOf (pre +:+ needle +:+ post) needle > -1)%Z; [|lia].
           apply IH. by exists pre, post.
      * split; [|lia]. intros _.
        destruct IH as [IH _]. destruct IH as [pre [post ->]]; [lia|].
        exists (String c pre), post. done.
Qed.

Lemma toLowerCase_empty s : toLowerCase s = "" ↔ s = "".
Proof. destruct s; simpl; split; congruence. Qed.

Lemma matches_spec typed text :
  matches typed text = true ↔ substring_of (toLowerCase typed) (toLowerCase text).
Proof. apply indexOf_found. Qed.

(** ** Running computations *)

Lemma bind_Ret {A B} (m : M A) (f : A → M B) w a w' :
  m w = Ret a w' → (m ≫= f) w = f a w'.
Proof. unfold mbind, M_bind. by intros ->. Qed.

Lemma bind_TypeError {A B} (m : M A) (f : A → M B) w w' :
  m w = TypeError w' → (m ≫= f) w = TypeError w'.
Proof. unfold mbind, M_bind. by intros ->. Qed.

Lemma for_of_foldl {A} (g : A → Widget → Widget) (body : A → M unit) xs w :
  (∀ x w, body x w = Ret tt (g x w)) →
  for_of xs body w = Ret tt (foldl (λ w x, g x w) w xs).
Proof.
  intros Hbody. revert w. induction xs as [|x xs IH]; intros w; simpl; [done|].
  erewrite bind_Ret by apply Hbody. apply IH.
Qed.

Lemma set_page_id w : set_page (λ pg, pg) w = w.
Proof. by destruct w. Qed.

Lemma foldl_set_page {A} (g : A → gmap loc Element → gmap loc Element) xs w :
  foldl (λ w x, set_page (g x) w) w xs = set_page (λ pg, foldl (λ pg x, g x pg) pg xs) w.
Proof.
  revert w. induction xs as [|x xs IH]; intros w; simpl.
  - by rewrite set_page_id.
  - by rewrite IH.
Qed.

(** ** Lookups in the pages the loops produce *)

Lemma lookup_clearPage c its pg l :
  clearPage c its pg !! l
  = if decide (l ∈ its) then with_classList (λ s, s ∖ {[c]}) <$> pg !! l else pg !! l.
Proof.
  unfold clearPage. revert pg. induction its as [|x its IH]; intros pg; cbn [foldl].
  - destruct (decide (l ∈ [])); [set_solver | done].
  - rewrite IH. destruct (decide (x = l)) as [->|Hne].
    + rewrite lookup_alter_eq.
      destruct (decide (l ∈ l :: its)) as [_|Hn]; [|set_solver].
      destruct (decide (l ∈ its)) as [_|_]; [|done].
      destruct (pg !! l) as [e|]; simpl; [|done].
      f_equal. destruct e. unfold with_classList; simpl. f_equal. set_solver.
    + rewrite lookup_alter_ne by done.
      destruct (decide (l ∈ its)), (decide (l ∈ x :: its)); set_solver.
Qed.

Lemma markElement_idemp typed c e :
  markElement typed c (markElement typed c e) = markElement typed c e.
Proof.
  destruct e as [cl tx pa ch li]. unfold markElement; simpl.
  destruct (matches typed tx) eqn:E; unfold with_classList; simpl; rewrite E; simpl;
    f_equal; set_solver.
Qed.

Lemma lookup_markPage typed c its pg l :
  markPage typed c its pg !! l
  = if decide (l ∈ its) then markElement typed c <$> pg !! l else pg !! l.
Proof.
  unfold markPage. revert pg. induction its as [|x its IH]; intros pg; cbn [foldl].
  - destruct (decide (l ∈ [])); [set_solver | done].
  - rewrite IH. destruct (decide (x = l)) as [->|Hne].
    + rewrite lookup_alter_eq.
      destruct (decide (l ∈ l :: its)) as [_|Hn]; [|set_solver].
      destruct (decide (l ∈ its)) as [_|_]; [|done].
      destruct (pg !! l) as [e|]; simpl; [|done].
      by rewrite markElement_idemp.
    + rewrite lookup_alter_ne by done.
      destruct (decide (l ∈ its)), (decide (l ∈ x :: its)); set_solver.
Qed.

(** ** Class-list updates leave the rest of the page alone *)

Lemma sameSkeleton_refl pg : sameSkeleton pg pg.
Proof. done. Qed.

Lemma sameSkeleton_trans pg1 pg2 pg3 :
  sameSkeleton pg1 pg2 → sameSkeleton pg2 pg3 → sameSkeleton pg1 pg3.
Proof. intros H1 H2 l. by rewrite H2, H1. Qed.

Lemma sameSkeleton_alter f l pg :
  (∀ e, skeleton (f e) = skeleton e) → sameSkeleton pg (alter f l pg).
Proof.
  intros Hf l'. destruct (decide (l = l')) as [->|Hne].
  - rewrite lookup_alter_eq. destruct (pg !! l'); simpl; [|done]. by rewrite Hf.
  - by rewrite lookup_alter_ne.
Qed.

Lemma skeleton_with_classList f e : skeleton (with_classList f e) = skeleton e.
Proof. done. Qed.

Lemma skeleton_markElement typed c e : skeleton (markElement typed c e) = skeleton e.
Proof. unfold markElement. by destruct (matches typed (innerText e)). Qed.

Lemma sameSkeleton_clearPage c its pg : sameSkeleton pg (clearPage c its pg).
Proof.
  unfold clearPage. revert pg. induction its as [|x its IH]; intros pg; cbn [foldl].
  - apply sameSkeleton_refl.
  - eapply sameSkeleton_trans; [|apply IH].
    apply sameSkeleton_alter, skeleton_with_classList.
Qed.

Lemma sameSkeleton_markPage typed c its pg : sameSkeleton pg (markPage typed c its pg).
Proof.
  unfold markPage. revert pg. induction its as [|x its IH]; intros pg; cbn [foldl].
  - apply sameSkeleton_refl.
  - eapply sameSkeleton_trans; [|apply IH].
    apply sameSkeleton_alter, skeleton_markElement.
Qed.

Lemma sameSkeleton_text w w' l :
  sameSkeleton (page w) (page w') → text_of w' l = text_of w l.
Proof.
  intros H. specialize (H l). unfold text_of.
  destruct (page w' !! l), (page w !! l); simpl in H; try done.
  unfold skeleton in H. congruence.
Qed.

Lemma sameSkeleton_children w w' l :
  sameSkeleton (page w) (page w') → children_of w' l = children_of w l.
Proof.
  intros H. specialize (H l). unfold children_of.
  destruct (page w' !! l), (page w !! l); simpl in H; try done.
  unfold skeleton in H. congruence.
Qed.

Lemma sameSkeleton_parent w w' l :
  sameSkeleton (page w) (page w') → parent_of w' l = parent_of w l.
Proof.
  intros H. specialize (H l). unfold parent_of.
  destruct (page w' !! l), (page w !! l); simpl in H; try done.
  unfold skeleton in H. congruence.
Qed.

Lemma sameSkeleton_is_Some pg pg' l :
  sameSkeleton pg pg' → is_Some (pg' !! l) ↔ is_Some (pg !! l).
Proof.
  intros H. specialize (H l).
  destruct (pg' !! l), (pg !! l); simpl in H; try done;
    split; intros [? ?]; done.
Qed.

Lemma existsb_pointwise {A} (f g : A → bool) xs :
  (∀ x, f x = g x) → existsb f xs = existsb g xs.
Proof. intros H. induction xs as [|x xs IH]; simpl; [done|]. by rewrite H, IH. Qed.

Lemma sameSkeleton_removeClass c l w : sameSkeleton (page w) (page (removeClass c l w)).
Proof. apply sameSkeleton_alter, skeleton_with_classList. Qed.

Lemma sameSkeleton_addClass c l w : sameSkeleton (page w) (page (addClass c l w)).
Proof. apply sameSkeleton_alter, skeleton_with_classList. Qed.

(** ** The methods against their closed forms *)

Lemma clearActiveItemStyles_eq w its :
  itemElements (elements w) = Some its →
  clearActiveItemStyles w
  = Ret tt (set_page (clearPage (cn_itemActive (classNames w)) its) w).
Proof.
  intros Hits. unfold clearActiveItemStyles, the_items, deref.
  unfold mbind, M_bind at 1. rewrite Hits.
  unfold get, mbind, M_bind.
  rewrite (for_of_foldl (λ l, removeClass (cn_itemActive (classNames w)) l)) by done.
  unfold removeClass. by rewrite foldl_set_page.
Qed.

Lemma showItems_eq w iw :
  itemsWrapper (elements w) = Some iw →
  showItems w = Ret tt (shown w).
Proof.
  intros Hiw. unfold showItems, shown, the_itemsWrapper, deref.
  unfold mbind, M_bind at 1. by rewrite Hiw.
Qed.

Lemma hideItems_eq w iw its :
  itemsWrapper (elements w) = Some iw →
  itemElements (elements w) = Some its →
  hideItems w = Ret tt (hidden w).
Proof.
  intros Hiw Hits. unfold hideItems, hidden, itemsOf, the_itemsWrapper, the_items, deref.
  rewrite Hiw, Hits.
  unfold mbind, M_bind at 1. rewrite Hiw.
  unfold get, mbind, M_bind at 1.
  unfold classList_remove, modify, mbind, M_bind at 1.
  unfold mbind, M_bind at 1.
  rewrite (clearActiveItemStyles_eq _ its) by done.
  cbn. destruct (valueMatchItem (options w)); [|done].
  unfold M_bind. cbn. rewrite Hits.
  rewrite (existsb_pointwise _
    (λ item, sameText (value (input w)) (text_of w item))).
  - by destruct (existsb _ its).
  - intros item. unfold sameText.
    rewrite (sameSkeleton_text w _ item); [done|]. simpl.
    eapply sameSkeleton_trans; [|apply sameSkeleton_clearPage].
    apply sameSkeleton_alter, skeleton_with_classList.
Qed.

(** What [hideItems] and [showItems] leave as they found it. *)
Lemma hidden_frame w :
  itemsWrapper (elements (hidden w)) = itemsWrapper (elements w)
  ∧ itemElements (elements (hidden w)) = itemElements (elements w)
  ∧ wrapper (elements (hidden w)) = wrapper (elements w)
  ∧ classNames (hidden w) = classNames w
  ∧ options (hidden w) = options w
  ∧ hasItemsVisible (hidden w) = hasItemsVisible w
  ∧ listeners (hidden w) = listeners w
  ∧ log (hidden w) = log w
  ∧ fresh (hidden w) = fresh w
  ∧ cleanupClickOutside (hidden w) = cleanupClickOutside w
  ∧ sameSkeleton (page w) (page (hidden w)).
Proof.
  unfold hidden. destruct (itemsWrapper (elements w)) as [iw|] eqn:Hiw.
  - destruct (_ && _); simpl; rewrite ?Hiw; repeat split; try done;
      (eapply sameSkeleton_trans; [|apply sameSkeleton_clearPage]);
      apply sameSkeleton_alter, skeleton_with_classList.
  - rewrite Hiw. repeat split; try done.
Qed.

Lemma shown_frame w :
  elements (shown w) = elements w
  ∧ input (shown w) = input w
  ∧ classNames (shown w) = classNames w
  ∧ options (shown w) = options w
  ∧ hasItemsVisible (shown w) = hasItemsVisible w
  ∧ listeners (shown w) = listeners w
  ∧ log (shown w) = log w
  ∧ fresh (shown w) = fresh w
  ∧ cleanupClickOutside (shown w) = cleanupClickOutside w
  ∧ sameSkeleton (page w) (page (shown w)).
Proof.
  unfold shown. destruct (itemsWrapper (elements w)) as [iw|]; simpl;
    repeat split; try done.
  apply sameSkeleton_alter, skeleton_with_classList.
Qed.

Lemma alter_markElement typed c l (pg : gmap loc Element) w :
  page w = pg →
  alter (markElement typed c) l pg
  = if matches typed (text_of w l)
    then alter (with_classList (λ s, s ∪ {[c]})) l pg
    else alter (with_classList (λ s, s ∖ {[c]})) l pg.
Proof.
  intros <-. unfold text_of.
  destruct (page w !! l) as [e|] eqn:E.
  - destruct (matches typed (innerText e)) eqn:Em;
      apply alter_ext; intros e' He'; rewrite E in He'; injection He' as <-;
      unfold markElement; by rewrite Em.
  - apply map_eq. intros l'. destruct (matches typed "");
      destruct (decide (l = l')) as [->|]; 
      rewrite ?lookup_alter_eq, ?lookup_alter_ne, ?E by done; done.
Qed.

Lemma mark_foldl typed c its w :
  foldl (λ w item,
           if matches typed (text_of w item)
           then set_hasItemsVisible true (addClass c item w)
           else removeClass c item w) w its
  = set_hasItemsVisible
      (hasItemsVisible w || existsb (λ item, matches typed (text_of w item)) its)
      (set_page (markPage typed c its) w).
Proof.
  revert w. induction its as [|x its IH]; intros w; cbn [foldl existsb].
  - destruct w; simpl. by rewrite orb_false_r.
  - rewrite IH. unfold markPage; cbn [foldl].
    unfold set_hasItemsVisible at 3. unfold set_page at 2. simpl.
    rewrite (alter_markElement typed c x (page w) w) by done.
    destruct (matches typed (text_of w x)) eqn:Em; simpl.
    + by rewrite orb_true_r.
    + unfold set_hasItemsVisible, set_page; simpl. f_equal. f_equal.
      apply existsb_pointwise. intros item.
      by rewrite (sameSkeleton_text w _ item) by apply sameSkeleton_removeClass.
Qed.

Lemma handleInput_eq w iw its :
  itemsWrapper (elements w) = Some iw →
  itemElements (elements w) = Some its →
  handleInput w = Ret tt (filtered w).
Proof.
  intros Hiw Hits. unfold handleInput, filtered.
  set (w1 := if bool_decide (toLowerCase (value (input w)) = "") then hidden w else shown w).
  assert ((if bool_decide (toLowerCase (value (input w)) = "") then hideItems else showItems) w
          = Ret tt w1) as Hstep.
  { subst w1. case_bool_decide; [by eapply hideItems_eq | by eapply showItems_eq]. }
  assert (itemElements (elements w1) = Some its ∧ classNames w1 = classNames w
          ∧ sameSkeleton (page w) (page w1)) as (Hits1 & Hcn1 & Hsk1).
  { subst w1. case_bool_decide.
    - destruct (hidden_frame w) as (_ & -> & _ & -> & _ & _ & _ & _ & _ & _ & ?). done.
    - destruct (shown_frame w) as (-> & _ & -> & _ & _ & _ & _ & _ & _ & ?). done. }
  rewrite (bind_Ret _ _ w (toLowerCase (value (input w))) w) by done.
  rewrite (bind_Ret _ _ w tt w1) by done.
  rewrite (bind_Ret _ _ w1 tt (set_hasItemsVisible false w1)) by done.
  rewrite (bind_Ret _ _ _ its (set_hasItemsVisible false w1))
    by (unfold the_items, deref; simpl; by rewrite Hits1).
  rewrite (bind_Ret _ _ _ (classNames w) (set_hasItemsVisible false w1))
    by (unfold get; simpl; by rewrite Hcn1).
  rewrite (for_of_foldl (λ item w',
             if matches (value (input w)) (text_of w' item)
             then set_hasItemsVisible true (addClass (cn_itemVisible (classNames w)) item w')
             else removeClass (cn_itemVisible (classNames w)) item w')).
  - rewrite mark_foldl. simpl. unfold itemsOf. rewrite Hits. f_equal.
    unfold set_hasItemsVisible, set_page; simpl. f_equal.
    apply existsb_pointwise. intros item. f_equal.
    by apply sameSkeleton_text.
  - intros item w'. unfold get, mbind, M_bind at 1. unfold matches.
    by destruct (_ >? _)%Z.
Qed.

(** ** What the reached states look like *)

Lemma scaffolded_inv w :
  scaffolded w →
  ∃ wr iw its,
    wrapper (elements w) = Some wr
    ∧ itemsWrapper (elements w) = Some iw
    ∧ itemElements (elements w) = Some its
    ∧ NoDup (wr :: iw :: its)
    ∧ generated (children_of w iw) = its
    ∧ generated (children_of w wr) = [iw]
    ∧ parent_of w iw = Some (Generated wr)
    ∧ Forall (λ l, is_Some (page w !! l)) (wr :: iw :: its)
    ∧ map_Forall (λ l _, l < fresh w) (page w).
Proof.
  unfold scaffolded. intros H.
  destruct (wrapper (elements w)) as [wr|]; [|done].
  destruct (itemsWrapper (elements w)) as [iw|]; [|done].
  destruct (itemElements (elements w)) as [its|]; [|done].
  exists wr, iw, its. naive_solver.
Qed.

Lemma has_class_filtered w l :
  l ∈ itemsOf w → is_Some (page w !! l) →
  has_class (filtered w) l (cn_itemVisible (classNames w))
  = matches (value (input w)) (text_of w l).
Proof.
  intros Hl [e He]. unfold filtered, has_class. simpl.
  rewrite lookup_markPage, decide_True by done.
  set (w1 := if bool_decide _ then hidden w else shown w).
  assert (sameSkeleton (page w) (page w1)) as Hsk.
  { subst w1. case_bool_decide; [apply hidden_frame | apply shown_frame]. }
  pose proof (Hsk l) as Hl1. unfold text_of. rewrite He in Hl1 |- *.
  destruct (page w1 !! l) as [e1|]; [|done]. simpl in *.
  injection Hl1 as Ht _ _ _. unfold markElement. rewrite Ht.
  destruct (matches _ _); simpl.
  - apply bool_decide_eq_true. set_solver.
  - apply bool_decide_eq_false. set_solver.
Qed.

Lemma has_class_filtered_other w l c :
  l ∉ itemsOf w →
  has_class (filtered w) l c
  = has_class (if bool_decide (toLowerCase (value (input w)) = "")
               then hidden w else shown w) l c.
Proof.
  intros Hl. unfold filtered, has_class. simpl.
  by rewrite lookup_markPage, decide_False by done.
Qed.

Lemma has_class_hidden_panel w iw :
  itemsWrapper (elements w) = Some iw → iw ∉ itemsOf w →
  has_class (hidden w) iw (cn_itemsWrapperVisible (classNames w)) = false.
Proof.
  intros Hiw Hni. unfold hidden. rewrite Hiw.
  assert (∀ w', page w' = clearPage (cn_itemActive (classNames w)) (itemsOf w)
             (page (removeClass (cn_itemsWrapperVisible (classNames w)) iw w)) →
          has_class w' iw (cn_itemsWrapperVisible (classNames w)) = false) as H.
  { intros w' Hw'. unfold has_class. rewrite Hw', lookup_clearPage, decide_False by done.
    simpl. rewrite lookup_alter_eq. destruct (page w !! iw); simpl; [|done].
    apply bool_decide_eq_false. set_solver. }
  destruct (_ && _); by apply H.
Qed.

Lemma has_class_shown_panel w iw :
  itemsWrapper (elements w) = Some iw → is_Some (page w !! iw) →
  has_class (shown w) iw (cn_itemsWrapperVisible (classNames w)) = true.
Proof.
  intros Hiw [e He]. unfold shown. rewrite Hiw. unfold has_class. simpl.
  rewrite lookup_alter_eq, He. simpl. apply bool_decide_eq_true. set_solver.
Qed.

Lemma has_class_hidden_active w iw l :
  itemsWrapper (elements w) = Some iw → l ∈ itemsOf w →
  has_class (hidden w) l (cn_itemActive (classNames w)) = false.
Proof.
  intros Hiw Hl. unfold hidden. rewrite Hiw.
  assert (∀ w', page w' = clearPage (cn_itemActive (classNames w)) (itemsOf w)
             (page (removeClass (cn_itemsWrapperVisible (classNames w)) iw w)) →
          has_class w' l (cn_itemActive (classNames w)) = false) as H.
  { intros w' Hw'. unfold has_class. rewrite Hw', lookup_clearPage, decide_True by done.
    destruct (_ !! l); simpl; [|done].
    apply bool_decide_eq_false. set_solver. }
  destruct (_ && _); by apply H.
Qed.

Lemma filtered_frame w :
  itemsWrapper (elements (filtered w)) = itemsWrapper (elements w)
  ∧ itemElements (elements (filtered w)) = itemElements (elements w)
  ∧ wrapper (elements (filtered w)) = wrapper (elements w)
  ∧ classNames (filtered w) = classNames w
  ∧ options (filtered w) = options w
  ∧ listeners (filtered w) = listeners w
  ∧ log (filtered w) = log w
  ∧ fresh (filtered w) = fresh w
  ∧ cleanupClickOutside (filtered w) = cleanupClickOutside w
  ∧ sameSkeleton (page w) (page (filtered w)).
Proof.
  unfold filtered. simpl. case_bool_decide.
  - destruct (hidden_frame w) as (-> & -> & -> & -> & -> & _ & -> & -> & -> & -> & Hsk).
    repeat split; try done.
    eapply sameSkeleton_trans; [apply Hsk | apply sameSkeleton_markPage].
  - destruct (shown_frame w) as (-> & _ & -> & -> & _ & -> & -> & -> & -> & Hsk).
    repeat split; try done.
    eapply sameSkeleton_trans; [apply Hsk | apply sameSkeleton_markPage].
Qed.

Lemma hidden_value w :
  value (input (hidden w))
  = if valueMatchItem (options w)
       && negb (existsb (λ item, sameText (value (input w)) (text_of w item)) (itemsOf w))
       && bool_decide (is_Some (itemsWrapper (elements w)))
    then "" else value (input w).
Proof.
  unfold hidden. destruct (itemsWrapper (elements w)) as [iw|].
  - rewrite bool_decide_eq_true_2 by eauto. rewrite andb_true_r.
    by destruct (_ && _).
  - rewrite bool_decide_eq_false_2 by (by intros [? ?]). by rewrite andb_false_r.
Qed.

Lemma filtered_value w : value (input (filtered w)) = value (input w).
Proof.
  unfold filtered. simpl. case_bool_decide as Hv.
  - rewrite hidden_value. apply (proj1 (toLowerCase_empty _)) in Hv. rewrite Hv. by destruct (_ && _).
  - by destruct (shown_frame w) as (_ & -> & _).
Qed.

Lemma existsb_sameText typed (f : loc → string) its :
  existsb (λ item, sameText typed (f item)) its = true
  ↔ ∃ item, item ∈ its ∧ toLowerCase (f item) = toLowerCase typed.
Proof.
  rewrite existsb_exists. unfold sameText. split.
  - intros (x & Hx & Hb). exists x. rewrite list_elem_of_In.
    by apply bool_decide_eq_true in Hb.
  - intros (x & Hx & Hb). exists x. rewrite <- list_elem_of_In.
    by rewrite bool_decide_eq_true.
Qed.

(** ** The claims about filtering and hiding *)

(** C1. [handleInput] returns in a state where an item of the collection
    carries the item-visible class exactly when its lower-cased text
    contains the lower-cased input text, and where the panel is shown
    exactly when the input text is not empty. *)
Theorem C1_handleInput_filters (w : Widget) :
  scaffolded w →
  ∃ w',
    handleInput w = Ret tt w'
    ∧ itemsOf w' = itemsOf w
    ∧ value (input w') = value (input w)
    ∧ (∀ item, text_of w' item = text_of w item)
    ∧ (∀ item, item ∈ itemsOf w →
         isVisible w' item = true
         ↔ substring_of (toLowerCase (value (input w))) (toLowerCase (text_of w item)))
    ∧ (value (input w) = "" → panelShown w' = false)
    ∧ (value (input w) ≠ "" → panelShown w' = true).
Proof.
  intros Hsc.
  destruct (scaffolded_inv w Hsc)
    as (wr & iw & its & Hwr & Hiw & Hits & Hnd & _ & _ & _ & Hlive & _).
  exists (filtered w).
  destruct (filtered_frame w) as (Fiw & Fits & _ & Fcn & _ & _ & _ & _ & _ & Fsk).
  assert (iw ∉ itemsOf w) as Hiw_its.
  { unfold itemsOf. rewrite Hits. simpl.
    apply NoDup_cons in Hnd as [_ Hnd]. by apply NoDup_cons in Hnd as [? _]. }
  split; [by eapply handleInput_eq|].
  split; [unfold itemsOf; by rewrite Fits|].
  split; [apply filtered_value|].
  split; [intros item; by apply sameSkeleton_text|].
  split; [|split].
  - intros item Hitem. unfold isVisible. rewrite Fcn.
    rewrite has_class_filtered, matches_spec; [done|done|].
    unfold itemsOf in Hitem. rewrite Hits in Hitem. simpl in Hitem.
    rewrite Forall_forall in Hlive. apply Hlive. set_solver.
  - intros Hv. unfold panelShown. rewrite Fiw, Hiw, Fcn.
    rewrite has_class_filtered_other by done.
    rewrite bool_decide_eq_true_2 by (by rewrite Hv).
    by apply has_class_hidden_panel.
  - intros Hv. unfold panelShown. rewrite Fiw, Hiw, Fcn.
    rewrite has_class_filtered_other by done.
    rewrite bool_decide_eq_false_2 by (by rewrite toLowerCase_empty).
    apply has_class_shown_panel; [done|].
    rewrite Forall_forall in Hlive. apply Hlive. set_solver.
Qed.

(** C4. With [valueMatchItem] enabled, [hideItems] returns in a state
    where the panel is hidden, no item of the collection is highlighted
    and there is no active item; the input text is emptied when no item of
    the whole collection has a text equal to it up to case, and is left as
    typed when one has. *)
Theorem C4_hideItems_valueMatchItem (w : Widget) :
  scaffolded w →
  valueMatchItem (options w) = true →
  ∃ w',
    hideItems w = Ret tt w'
    ∧ itemsOf w' = itemsOf w
    ∧ panelShown w' = false
    ∧ (∀ item, item ∈ itemsOf w → isActive w' item = false)
    ∧ activeItem (elements w') = Null
    ∧ ((∃ item, item ∈ itemsOf w
                ∧ toLowerCase (text_of w item) = toLowerCase (value (input w)))
       → value (input w') = value (input w))
    ∧ ((¬ ∃ item, item ∈ itemsOf w
                  ∧ toLowerCase (text_of w item) = toLowerCase (value (input w)))
       → value (input w') = "").
Proof.
  intros Hsc Hvm.
  destruct (scaffolded_inv w Hsc)
    as (wr & iw & its & Hwr & Hiw & Hits & Hnd & _ & _ & _ & Hlive & _).
  exists (hidden w).
  destruct (hidden_frame w) as (Fiw & Fits & _ & Fcn & _ & _ & _ & _ & _ & _ & Fsk).
  assert (iw ∉ itemsOf w) as Hiw_its.
  { unfold itemsOf. rewrite Hits. simpl.
    apply NoDup_cons in Hnd as [_ Hnd]. by apply NoDup_cons in Hnd as [? _]. }
  split; [by eapply hideItems_eq|].
  split; [unfold itemsOf; by rewrite Fits|].
  split; [unfold panelShown; rewrite Fiw, Hiw, Fcn; by apply has_class_hidden_panel|].
  split; [intros item Hitem; unfold isActive; rewrite Fcn;
          by eapply has_class_hidden_active|].
  split; [unfold hidden; rewrite Hiw; by destruct (_ && _)|].
  rewrite hidden_value, Hvm, Hiw. rewrite bool_decide_eq_true_2 by eauto.
  rewrite andb_true_r. simpl.
  split.
  - intros Hex. apply existsb_sameText in Hex. by rewrite Hex.
  - intros Hex. destruct (existsb _ _) eqn:E; [|done].
    apply existsb_sameText in E. done.
Qed.

Lemma C1_witness :
  scaffolded staleActive
  ∧ ∃ w', handleInput staleActive = Ret tt w' ∧ panelShown w' = true
          ∧ ∀ item, item ∈ itemsOf staleActive →
              isVisible w' item = true
              ↔ substring_of "an" (toLowerCase (text_of staleActive item)).
Proof.
  split; [apply (bool_decide_unpack _); vm_compute; exact I|].
  destruct (C1_handleInput_filters staleActive) as (w' & H1 & _ & _ & _ & H2 & _ & H3).
  - apply (bool_decide_unpack _); vm_compute; exact I.
  - exists w'. split; [exact H1|]. split; [apply H3; vm_compute; discriminate|].
    exact H2.
Defined.

Lemma C4_witness :
  scaffolded staleActive
  ∧ valueMatchItem (options (set_options (mkOptions true [] None None) staleActive)) = true
  ∧ ∃ w', hideItems (set_options (mkOptions true [] None None) staleActive) = Ret tt w'
          ∧ panelShown w' = false ∧ value (input w') = "".
Proof.
  split; [apply (bool_decide_unpack _); vm_compute; exact I|].
  split; [reflexivity|].
  destruct (C4_hideItems_valueMatchItem (set_options (mkOptions true [] None None) staleActive))
    as (w' & H1 & _ & H2 & _ & _ & _ & H3).
  - apply (bool_decide_unpack _); vm_compute; exact I.
  - reflexivity.
  - exists w'. split; [exact H1|]. split; [exact H2|]. apply H3.
    intros (item & Hitem & Heq). revert Heq.
    vm_compute in Hitem.
    apply list_elem_of_In in Hitem.
    destruct Hitem as [<-|[<-|[<-|[]]]]; vm_compute; discriminate.
Defined.

(** ** Selection commit *)

Lemma scaffolded_set_input f w : scaffolded (set_input f w) ↔ scaffolded w.
Proof. done. Qed.

Lemma setInput_eq w t iw its :
  itemsWrapper (elements w) = Some iw →
  itemElements (elements w) = Some its →
  setInput t w = Ret tt (hidden (filtered (set_input (with_value t) w))).
Proof.
  intros Hiw Hits. unfold setInput.
  rewrite (bind_Ret _ _ w tt (set_input (with_value t) w)) by done.
  rewrite (bind_Ret _ _ _ tt (filtered (set_input (with_value t) w)))
    by (by eapply handleInput_eq).
  destruct (filtered_frame (set_input (with_value t) w)) as (Fiw & Fits & _).
  eapply hideItems_eq; [by rewrite Fiw | by rewrite Fits].
Qed.


Lemma isShownWithItems_eq w iw :
  itemsWrapper (elements w) = Some iw →
  isShownWithItems w = Ret (panelShown w && hasItemsVisible w) w.
Proof.
  intros Hiw. unfold isShownWithItems, panelShown, the_itemsWrapper, deref.
  unfold mbind, M_bind. by rewrite Hiw.
Qed.


Lemma handleKeydown_inert w key :
  isShownWithItems w = Ret false w →
  handleKeydown key w = Ret tt w.
Proof.
  intros Hshown. unfold handleKeydown. by rewrite (bind_Ret _ _ w false w).
Qed.



(** Outside that condition Enter is inert: with Apple as the active item
    and no suggestion visible, it leaves the input text as typed. *)
Lemma enter_inert_when_not_shown :
  activeItem (elements noMatch) = Elem 2
  ∧ text_of noMatch 2 = "Apple"
  ∧ handleKeydown "Enter" noMatch = Ret tt noMatch
  ∧ value (input noMatch) = "az"
  ∧ handleKeydown "Enter" noMatch ≠ setInput (text_of noMatch 2) noMatch.
Proof.
  repeat split; try (vm_compute; reflexivity).
  intros H. apply (f_equal (λ o, value (input (final o)))) in H.
  vm_compute in H. discriminate.
Qed.

(** ** Keyboard navigation over a stale active item *)

(** C3, evaluated.  In [staleActive] the panel is shown with Banana as the
    only visible item while the active item is still Apple.  ArrowUp
    looks Apple up in the visible items, finds index [-1], reads
    [items[-2]], which is [undefined], and the access to its [classList]
    throws. *)
Theorem C3_arrowUp_reads_out_of_bounds :
  isShownWithItems staleActive = Ret true staleActive
  ∧ activeItem (elements staleActive) = Elem 2
  ∧ querySelectorAll staleActive 1 "is-visible" = [3]
  ∧ findIndex [3] (Elem 2) = (-1)%Z
  ∧ at_index [3] (-1 - 1) = Undefined
  ∧ returns (handleKeydown "ArrowUp" staleActive) = false
  ∧ activeItem (elements (final (handleKeydown "ArrowUp" staleActive))) = Undefined
  ∧ activeCount (final (handleKeydown "ArrowUp" staleActive)) = 0.
Proof. repeat split; vm_compute; reflexivity. Qed.

(** C2, evaluated.  In [staleActive] an active item exists (Apple) and it
    is not the first visible item (Banana, also the last): ArrowUp neither
    moves to a previous visible item nor wraps to the last one, it ends in
    a [TypeError] with no active item; ArrowDown lands on the first visible
    item. *)
Theorem C2_arrowUp_stale_active :
  isShownWithItems staleActive = Ret true staleActive
  ∧ activeItem (elements staleActive) = Elem 2
  ∧ List.filter (isVisible staleActive) (itemsOf staleActive) = [3]
  ∧ returns (handleKeydown "ArrowUp" staleActive) = false
  ∧ activeItem (elements (final (handleKeydown "ArrowUp" staleActive))) = Undefined
  ∧ returns (handleKeydown "ArrowDown" staleActive) = true
  ∧ activeItem (elements (final (handleKeydown "ArrowDown" staleActive))) = Elem 3.
Proof. repeat split; vm_compute; reflexivity. Qed.

(** ** Replacing the suggestions *)

(** C7, evaluated.  Apple is active when [setItems] replaces the
    suggestions: the new collection holds One and Two, but
    [elements.activeItem] still refers to the discarded Apple element and
    the visibility flag keeps its value; after typing "o" the panel shows
    One and Two, and Enter commits "Apple". *)
Theorem C7_setItems_keeps_active_item :
  returns (setItems ["One"; "Two"] beforeSetItems) = true
  ∧ map (text_of replaced) (itemsOf replaced) = ["One"; "Two"]
  ∧ activeItem (elements beforeSetItems) = Elem 2
  ∧ activeItem (elements replaced) = Elem 2
  ∧ bool_decide (2 ∈ itemsOf replaced) = false
  ∧ text_of replaced 2 = "Apple"
  ∧ hasItemsVisible replaced = true
  ∧ map (text_of replaced)
      (List.filter (isVisible (run [Type_ "o"] replaced)) (itemsOf replaced))
    = ["One"; "Two"]
  ∧ value (input (run [Type_ "o"; Keydown "Enter"] replaced)) = "Apple".
Proof. repeat split; vm_compute; reflexivity. Qed.

(** ** Outside-click dismissal *)

(** C9, evaluated.  After [setItems] the registered listener still holds
    the items wrapper of construction time (element 1), while the widget's
    items wrapper is element 6: a click whose target is the items wrapper
    itself hides the panel. *)
Theorem C9_click_inside_after_setItems :
  itemsWrapper (elements afterSetItems) = Some 6
  ∧ onDocumentClick (listeners afterSetItems)
    = [mkClickListener 5 [InputNode; Generated 1]]
  ∧ parent_of afterSetItems 6 = Some (Generated 0)
  ∧ parent_of afterSetItems 0 = Some (HostNode 0)
  ∧ panelShown afterSetItems = true
  ∧ inside [InputNode; Generated 1] (Generated 6) [Generated 0; HostNode 0] = false
  ∧ panelShown
      (final (perform (ClickAt (mkClick (Generated 6) [Generated 0; HostNode 0]))
                afterSetItems)) = false.
Proof. repeat split; vm_compute; reflexivity. Qed.

(** ** Life cycle guards *)

Lemma returns_bind {A B} (m : M A) (f : A → M B) w :
  returns ((m ≫= f) w) = true →
  ∃ a w1, m w = Ret a w1 ∧ returns (f a w1) = true ∧ (m ≫= f) w = f a w1.
Proof.
  unfold mbind, M_bind. destruct (m w) as [a w1|w1]; [|done].
  intros H. by exists a, w1.
Qed.

Lemma init_guard w :
  initialised w →
  init w = Ret tt (emit (ConsoleError
             ("Autocomplete is already initialized (id): " +:+ id (input w))) w).
Proof.
  intros H. unfold init.
  rewrite (bind_Ret _ _ w true w); [done|].
  unfold isInit, get. by rewrite bool_decide_eq_true_2.
Qed.

Lemma destroy_guard w :
  ¬ initialised w →
  destroy w = Ret tt (emit (ConsoleError
                ("Autocomplete is not initialized (id): " +:+ id (input w))) w).
Proof.
  intros H. unfold destroy.
  rewrite (bind_Ret _ _ w false w); [done|].
  unfold isInit, get. by rewrite bool_decide_eq_false_2.
Qed.

Lemma diagnosed_emit msg w : diagnosed msg w (emit (ConsoleError msg) w).
Proof. by repeat split. Qed.

Lemma init_initialises w : returns (init w) = true → initialised (final (init w)).
Proof.
  destruct (decide (initialised w)) as [Hi|Hi].
  - rewrite init_guard by done. intros _. exact Hi.
  - unfold init. rewrite (bind_Ret _ _ w false w)
      by (unfold isInit, get; by rewrite bool_decide_eq_false_2).
    intros H.
    apply returns_bind in H as (? & w1 & _ & H & ->).
    apply returns_bind in H as (? & w2 & _ & H & ->).
    apply returns_bind in H as (v & w2' & _ & H & ->).
    apply returns_bind in H as (? & w3 & _ & H & ->).
    unfold get at 1. unfold mbind at 1, M_bind at 1.
    unfold modify at 1. unfold mbind at 1, M_bind at 1.
    unfold get at 1. unfold mbind at 1, M_bind at 1. simpl.
    unfold initialised.
    destruct (onInit (options w3)); simpl; set_solver.
Qed.

Lemma destroy_uninitialises w :
  returns (destroy w) = true → ¬ initialised (final (destroy w)).
Proof.
  destruct (decide (initialised w)) as [Hi|Hi].
  - unfold destroy. rewrite (bind_Ret _ _ w true w)
      by (unfold isInit, get; by rewrite bool_decide_eq_true_2).
    simpl. intros H.
    apply returns_bind in H as (? & w1 & _ & H & ->).
    apply returns_bind in H as (? & w2 & _ & H & ->).
    unfold get at 1. unfold mbind at 1, M_bind at 1.
    unfold modify at 1. unfold mbind at 1, M_bind at 1.
    unfold get at 1. unfold mbind at 1, M_bind at 1. simpl.
    unfold initialised.
    destruct (onDestroy (options w2)); simpl; set_solver.
  - rewrite destroy_guard by done. intros _. exact Hi.
Qed.

(** C8. [init] on an instance whose input carries the initialisation
    marker, and [destroy] on one whose input does not, return having added
    one diagnostic to the console and changed nothing else; a second
    [init] after one that returned, and a second [destroy] after one that
    returned, are such calls. *)
Theorem C8_init_destroy_guards (w : Widget) :
  (initialised w →
     ∃ msg w', init w = Ret tt w' ∧ diagnosed msg w w')
  ∧ (¬ initialised w →
     ∃ msg w', destroy w = Ret tt w' ∧ diagnosed msg w w')
  ∧ (returns (init w) = true →
     ∃ msg w', init (final (init w)) = Ret tt w' ∧ diagnosed msg (final (init w)) w')
  ∧ (returns (destroy w) = true →
     ∃ msg w', destroy (final (destroy w)) = Ret tt w'
               ∧ diagnosed msg (final (destroy w)) w').
Proof.
  repeat split.
  - intros H. eexists _, _. split; [by apply init_guard | apply diagnosed_emit].
  - intros H. eexists _, _. split; [by apply destroy_guard | apply diagnosed_emit].
  - intros H. eexists _, _.
    split; [by apply init_guard, init_initialises | apply diagnosed_emit].
  - intros H. eexists _, _.
    split; [by apply destroy_guard, destroy_uninitialises | apply diagnosed_emit].
Qed.

Lemma C8_witness :
  initialised fruitWidget
  ∧ returns (init (instance hostInput fruit DEFAULT_CLASS_NAMES)) = true
  ∧ returns (destroy fruitWidget) = true
  ∧ (∃ msg w', init fruitWidget = Ret tt w' ∧ diagnosed msg fruitWidget w')
  ∧ (∃ msg w', destroy (final (destroy fruitWidget)) = Ret tt w'
               ∧ diagnosed msg (final (destroy fruitWidget)) w').
Proof.
  split; [apply (bool_decide_unpack _); vm_compute; exact I|].
  split; [vm_compute; reflexivity|].
  split; [vm_compute; reflexivity|].
  destruct (C8_init_destroy_guards fruitWidget) as (H1 & _ & _ & H4).
  split.
  - apply H1. apply (bool_decide_unpack _); vm_compute; exact I.
  - apply H4. vm_compute; reflexivity.
Defined.

(** ** Frame reasoning *)

Lemma preserves_ret {A B} (f : Widget → A) (b : B) : preserves f (mret b).
Proof. done. Qed.

Lemma preserves_get {A B} (f : Widget → A) (g : Widget → B) : preserves f (get g).
Proof. done. Qed.

Lemma preserves_throw {A B} (f : Widget → A) : preserves f (@throw B).
Proof. done. Qed.

Lemma preserves_deref {A B} (f : Widget → A) (r : Widget → option B) :
  preserves f (deref r).
Proof. intros w. unfold deref. by destruct (r w). Qed.

Lemma preserves_modify {A} (f : Widget → A) (g : Widget → Widget) :
  (∀ w, f (g w) = f w) → preserves f (modify g).
Proof. intros H w. apply H. Qed.

Lemma preserves_bind {A B C} (f : Widget → A) (m : M B) (k : B → M C) :
  preserves f m → (∀ b, preserves f (k b)) → preserves f (m ≫= k).
Proof.
  intros Hm Hk w. unfold mbind, M_bind. specialize (Hm w).
  destruct (m w) as [b w1|w1]; simpl in *; [|done].
  by rewrite Hk.
Qed.

Lemma preserves_for_of {A B} (f : Widget → A) (xs : list B) (body : B → M unit) :
  (∀ x, preserves f (body x)) → preserves f (for_of xs body).
Proof.
  intros H. induction xs as [|x xs IH]; simpl; [done|].
  apply preserves_bind; [apply H | intros _; apply IH].
Qed.

Lemma skeleton_alter_classes g l (pg : gmap loc Element) :
  skeleton <$> alter (with_classList g) l pg = skeleton <$> pg.
Proof.
  apply map_eq. intros l'. rewrite !lookup_fmap.
  destruct (decide (l = l')) as [->|Hne].
  - rewrite lookup_alter_eq. by destruct (pg !! l').
  - by rewrite lookup_alter_ne.
Qed.

Lemma shape_addClass c l w : shape (addClass c l w) = shape w.
Proof. unfold shape; simpl. by rewrite skeleton_alter_classes. Qed.

Lemma shape_removeClass c l w : shape (removeClass c l w) = shape w.
Proof. unfold shape; simpl. by rewrite skeleton_alter_classes. Qed.

Create HintDb frames.

Ltac frame_step :=
  lazymatch goal with
  | |- preserves _ (mret _) => apply preserves_ret
  | |- preserves _ (get _) => apply preserves_get
  | |- preserves _ throw => apply preserves_throw
  | |- preserves _ (deref _) => apply preserves_deref
  | |- preserves _ (_ ≫= _) => apply preserves_bind; [|intros ?]
  | |- preserves _ (for_of _ _) => apply preserves_for_of; intros ?
  | |- preserves _ (modify (addClass _ _)) =>
      apply preserves_modify; intros ?; first [apply shape_addClass | reflexivity]
  | |- preserves _ (modify (removeClass _ _)) =>
      apply preserves_modify; intros ?; first [apply shape_removeClass | reflexivity]
  | |- preserves _ (modify _) => apply preserves_modify; intros ?; reflexivity
  | |- preserves _ (if ?b then _ else _) => destruct b
  | |- preserves _ (match ?x with _ => _ end) => destruct x
  | |- preserves _ _ => solve [auto with frames]
  end.

Ltac frame := repeat frame_step.

Lemma preserves_shape_showItems : preserves shape showItems.
Proof. unfold showItems, the_itemsWrapper, classList_add. frame. Qed.
#[export] Hint Resolve preserves_shape_showItems : frames.

Lemma preserves_shape_clearActiveItemStyles : preserves shape clearActiveItemStyles.
Proof. unfold clearActiveItemStyles, the_items, classList_remove. frame. Qed.
#[export] Hint Resolve preserves_shape_clearActiveItemStyles : frames.

Lemma preserves_shape_hideItems : preserves shape hideItems.
Proof. unfold hideItems, the_itemsWrapper, the_items, classList_remove. frame. Qed.
#[export] Hint Resolve preserves_shape_hideItems : frames.

Lemma preserves_shape_handleInput : preserves shape handleInput.
Proof. unfold handleInput, the_items, classList_add, classList_remove. frame. Qed.
#[export] Hint Resolve preserves_shape_handleInput : frames.

Lemma preserves_shape_setInput t : preserves shape (setInput t).
Proof. unfold setInput. frame. Qed.
#[export] Hint Resolve preserves_shape_setInput : frames.

Lemma preserves_shape_handleArrowKey d : preserves shape (handleArrowKey d).
Proof. unfold handleArrowKey, the_itemsWrapper, classList_add. frame. Qed.
#[export] Hint Resolve preserves_shape_handleArrowKey : frames.

Lemma preserves_shape_handleKeydown k : preserves shape (handleKeydown k).
Proof. unfold handleKeydown, isShownWithItems, the_itemsWrapper. frame. Qed.
#[export] Hint Resolve preserves_shape_handleKeydown : frames.

(** ** Generating the items *)

Lemma for_of_inv {A} (I : list A → Widget → Prop) (body : A → M unit) xs w :
  I [] w →
  (∀ pre x w, I pre w → ∃ w', body x w = Ret tt w' ∧ I (pre ++ [x]) w') →
  ∃ w', for_of xs body w = Ret tt w' ∧ I xs w'.
Proof.
  intros H0 Hstep.
  assert (∀ pre w, I pre w → ∃ w', for_of xs body w = Ret tt w' ∧ I (pre ++ xs) w') as H.
  { induction xs as [|x xs IH]; intros pre w1 HI; simpl.
    - exists w1. by rewrite app_nil_r.
    - destruct (Hstep pre x w1 HI) as (w2 & Hb & HI2).
      destruct (IH (pre ++ [x]) w2 HI2) as (w3 & Hf & HI3).
      exists w3. rewrite (bind_Ret _ _ w1 tt w2) by done.
      split; [done|]. by rewrite <- app_assoc in HI3. }
  apply (H [] w H0).
Qed.

Lemma generated_app ns ms : generated (ns ++ ms) = generated ns ++ generated ms.
Proof. unfold generated. apply omap_app. Qed.

Lemma generated_map xs : generated (map Generated xs) = xs.
Proof. induction xs as [|x xs IH]; simpl; [done|]. unfold generated in *. simpl. by rewrite IH. Qed.

(** The loop of [generateItems] that parses one element per suggestion. *)
Lemma generateItems_loop cn iw strings w :
  itemsWrapper (elements w) = Some iw →
  iw < fresh w →
  ∃ w',
    for_of strings (λ item,
      iw ← the_itemsWrapper;
      el ← createElement (mkElement ({[cn_item cn]} ∪ {[cn_itemVisible cn]}) item None [] false);
      appendChild iw el) w = Ret tt w'
    ∧ rest w' = rest w
    ∧ itemsWrapper (elements w') = Some iw
    ∧ itemElements (elements w') = itemElements (elements w)
    ∧ fresh w' = fresh w + length strings
    ∧ ∀ l, page w' !! l
           = if decide (l = iw)
             then with_children
                    (λ cs, cs ++ map Generated (seq (fresh w) (length strings)))%list
                    <$> page w !! iw
             else if decide (fresh w ≤ l < fresh w + length strings)
                  then itemElement cn iw <$> strings !! (l - fresh w)
                  else page w !! l.
Proof.
  intros Hiw Hlt.
  set (I := (λ pre w',
    rest w' = rest w
    ∧ itemsWrapper (elements w') = Some iw
    ∧ itemElements (elements w') = itemElements (elements w)
    ∧ fresh w' = fresh w + length pre
    ∧ ∀ l, page w' !! l
           = if decide (l = iw)
             then with_children
                    (λ cs, cs ++ map Generated (seq (fresh w) (length pre)))%list
                    <$> page w !! iw
             else if decide (fresh w ≤ l < fresh w + length pre)
                  then itemElement cn iw <$> pre !! (l - fresh w)
                  else page w !! l) : list string → Widget → Prop).
  destruct (for_of_inv I
    (λ item,
      iw ← the_itemsWrapper;
      el ← createElement (mkElement ({[cn_item cn]} ∪ {[cn_itemVisible cn]}) item None [] false);
      appendChild iw el) strings w) as (w' & Hf & HI); subst I; simpl;
    [| |exists w'; split; [exact Hf | exact HI]].
  - split; [done|]. split; [done|]. split; [done|]. split; [lia|].
    intros l. destruct (decide (l = iw)) as [->|].
    + destruct (page w !! iw) as [[]|]; simpl; [|done].
      unfold with_children; simpl. by rewrite app_nil_r.
    + destruct (decide _); [lia|done].
  - intros pre x w1 (Hrest & Hiw1 & Hits1 & Hfresh & Hpage).
    eexists. split.
    { rewrite (bind_Ret _ _ w1 iw w1) by (unfold the_itemsWrapper, deref; by rewrite Hiw1).
      unfold createElement at 1.
      erewrite bind_Ret by reflexivity. reflexivity. }
    simpl. split; [exact Hrest|]. split; [exact Hiw1|]. split; [exact Hits1|].
    split; [rewrite Hfresh, length_app; simpl; lia|].
    intros l. rewrite length_app. simpl.
    destruct (decide (l = iw)) as [->|Hne].
    + rewrite lookup_alter_ne by lia. rewrite lookup_alter_eq.
      rewrite lookup_insert_ne by lia. rewrite Hpage, decide_True by done.
      destruct (page w !! iw) as [[]|]; simpl; [|done].
      unfold with_children; simpl. f_equal. f_equal.
      rewrite <- app_assoc. f_equal. rewrite seq_app, map_app. simpl.
      by rewrite Hfresh.
    + destruct (decide (l = fresh w1)) as [->|Hne2].
      * rewrite lookup_alter_eq, lookup_alter_ne, lookup_insert_eq by done. simpl.
        rewrite decide_True by lia.
        rewrite Hfresh. replace (fresh w + length pre - fresh w) with (length pre) by lia.
        by rewrite list_lookup_middle.
      * rewrite !lookup_alter_ne, lookup_insert_ne by done.
        rewrite Hpage, decide_False by done.
        destruct (decide (fresh w ≤ l < fresh w + length pre)).
        -- rewrite decide_True by lia. rewrite lookup_app_l by lia. done.
        -- rewrite decide_False by lia. done.
Qed.

Lemma lookup_foldl_alter (f : Element → Element) its (pg : gmap loc Element) l :
  (∀ e, f (f e) = f e) →
  foldl (λ pg l, alter f l pg) pg its !! l
  = if decide (l ∈ its) then f <$> pg !! l else pg !! l.
Proof.
  intros Hf. revert pg. induction its as [|x its IH]; intros pg; cbn [foldl].
  - destruct (decide (l ∈ [])); [set_solver | done].
  - rewrite IH. destruct (decide (x = l)) as [->|Hne].
    + rewrite lookup_alter_eq.
      destruct (decide (l ∈ l :: its)) as [_|Hn]; [|set_solver].
      destruct (decide (l ∈ its)) as [_|_]; [|done].
      destruct (pg !! l) as [e|]; simpl; [|done].
      by rewrite Hf.
    + rewrite lookup_alter_ne by done.
      destruct (decide (l ∈ its)), (decide (l ∈ x :: its)); set_solver.
Qed.

Lemma filter_all {A} (f : A → bool) xs :
  (∀ x, x ∈ xs → f x = true) → List.filter f xs = xs.
Proof.
  induction xs as [|x xs IH]; intros H; simpl; [done|].
  rewrite H by set_solver. f_equal. apply IH. intros y Hy. apply H. set_solver.
Qed.

Lemma allocated_lt w l : allocated w → is_Some (page w !! l) → l < fresh w.
Proof. intros Ha [e He]. by apply (Ha l e). Qed.

Lemma allocated_fresh w (l : loc) : allocated w → (fresh w ≤ l)%nat → page w !! l = None.
Proof.
  intros Ha Hl. destruct (page w !! l) as [e|] eqn:E; [|done].
  apply Ha in E. lia.
Qed.

Lemma generateItems_spec strings w wr :
  wrapper (elements w) = Some wr →
  is_Some (page w !! wr) →
  generated (children_of w wr) = [] →
  allocated w →
  ∃ w',
    generateItems strings w = Ret tt w'
    ∧ rest w' = rest w
    ∧ itemsWrapper (elements w') = Some (fresh w)
    ∧ itemElements (elements w') = Some (seq (S (fresh w)) (length strings))
    ∧ fresh w' = S (fresh w) + length strings
    ∧ ∀ l, page w' !! l
           = if decide (l = wr)
             then with_children (λ cs, cs ++ [Generated (fresh w)]) <$> page w !! wr
             else if decide (l = fresh w)
             then Some (mkElement {[cn_itemsWrapper (classNames w)]} ""
                          (Some (Generated wr))
                          (map Generated (seq (S (fresh w)) (length strings))) false)
             else if decide (S (fresh w) ≤ l < S (fresh w) + length strings)
             then (λ s, with_clickListener true (itemElement (classNames w) (fresh w) s))
                    <$> strings !! (l - S (fresh w))
             else page w !! l.
Proof.
  intros Hwr Hlive Hkids Halloc.
  pose proof (allocated_lt w wr Halloc Hlive) as Hlt.
  pose proof (allocated_fresh w (fresh w) Halloc (le_n _)) as Hnew.
  set (iw := fresh w) in *. set (cn := classNames w).
  unfold generateItems.
  rewrite (bind_Ret _ _ w wr w) by (unfold the_wrapper, deref; by rewrite Hwr).
  rewrite (bind_Ret _ _ w cn w) by done.
  unfold createElement at 1. erewrite bind_Ret by reflexivity.
  unfold appendChild at 1. erewrite bind_Ret by reflexivity.
  fold iw.
  set (wB := set_page _ _).
  assert (page wB !! wr = with_children (λ cs, cs ++ [Generated iw]) <$> page w !! wr) as HBwr.
  { subst wB. simpl. rewrite lookup_alter_ne, lookup_alter_eq, lookup_insert_ne by lia. done. }
  assert (page wB !! iw
          = Some (mkElement {[cn_itemsWrapper cn]} "" (Some (Generated wr)) [] false)) as HBiw.
  { subst wB. simpl. rewrite lookup_alter_eq, lookup_alter_ne, lookup_insert_eq by lia. done. }
  assert (∀ l, l ≠ wr → l ≠ iw → page wB !! l = page w !! l) as HBother.
  { intros l ? ?. subst wB. simpl. by rewrite !lookup_alter_ne, lookup_insert_ne. }
  assert (querySelector wB wr (cn_itemsWrapper cn) = Some iw) as Hq.
  { unfold querySelector, querySelectorAll, children_of. rewrite HBwr.
    destruct Hlive as [e He]. rewrite He. simpl.
    unfold children_of in Hkids. rewrite He in Hkids.
    rewrite generated_app, Hkids. simpl.
    unfold has_class. rewrite HBiw. simpl.
    rewrite bool_decide_eq_true_2 by set_solver. done. }
  erewrite (bind_Ret _ _ wB) by (unfold get; by rewrite Hq).
  erewrite bind_Ret by reflexivity.
  set (wC := set_elements _ wB).
  destruct (generateItems_loop cn iw strings wC) as (wD & Hloop & HDrest & HDiw & HDits & HDfresh & HDpage);
    [done | simpl; lia |].
  erewrite bind_Ret by exact Hloop.
  rewrite (bind_Ret _ _ wD iw wD) by (unfold the_itemsWrapper, deref; by rewrite HDiw).
  assert (fresh wC = S iw) as HCfresh by done.
  rewrite HCfresh in HDfresh, HDpage.
  change (page wC) with (page wB) in HDpage.
  assert (page wD !! iw
          = Some (mkElement {[cn_itemsWrapper cn]} "" (Some (Generated wr))
                    (map Generated (seq (S iw) (length strings))) false)) as HDiwp.
  { rewrite HDpage, decide_True by done. by rewrite HBiw. }
  assert (querySelectorAll wD iw (cn_item cn) = seq (S iw) (length strings)) as Hall.
  { unfold querySelectorAll, children_of. rewrite HDiwp. simpl.
    rewrite generated_map. apply filter_all. intros l Hl.
    apply elem_of_seq in Hl. unfold has_class.
    rewrite HDpage, decide_False, decide_True by lia.
    destruct (lookup_lt_is_Some_2 strings (l - S iw)) as [s Hs]; [lia|].
    rewrite Hs. simpl. apply bool_decide_eq_true. set_solver. }
  erewrite (bind_Ret _ _ wD) by (unfold get; by rewrite Hall).
  erewrite bind_Ret by reflexivity.
  rewrite (for_of_foldl (λ item, set_page (alter (with_clickListener true) item))) by done.
  rewrite foldl_set_page.
  eexists. split; [reflexivity|].
  simpl. split; [exact HDrest|]. split; [exact HDiw|]. split; [done|].
  split; [exact HDfresh|].
  intros l. rewrite lookup_foldl_alter by done. rewrite HDpage.
  repeat case_decide;
    repeat match goal with H : context [_ ∈ seq _ _] |- _ => rewrite elem_of_seq in H end;
    try lia.
  all: try (by destruct (strings !! (l - S iw))).
  all: try (by rewrite HBiw).
  all: try (by apply HBother).
  match goal with H : l = wr |- _ => rewrite H end. by rewrite HBwr.
Qed.


Lemma rest_inv w w' :
  rest w' = rest w →
  input w' = input w ∧ listeners w' = listeners w ∧ log w' = log w
  ∧ options w' = options w ∧ classNames w' = classNames w
  ∧ hasItemsVisible w' = hasItemsVisible w
  ∧ cleanupClickOutside w' = cleanupClickOutside w
  ∧ activeItem (elements w') = activeItem (elements w)
  ∧ wrapper (elements w') = wrapper (elements w).
Proof. unfold rest. intros H. injection H as -> -> -> -> -> -> -> -> ->. done. Qed.

(** After [generateItems] the instance is scaffolded around new elements:
    one item per suggestion, in order, each visible and none highlighted. *)
Lemma generateItems_scaffolded strings w wr :
  wrapper (elements w) = Some wr →
  is_Some (page w !! wr) →
  generated (children_of w wr) = [] →
  allocated w →
  ∃ w',
    generateItems strings w = Ret tt w'
    ∧ rest w' = rest w
    ∧ scaffolded w'
    ∧ itemsWrapper (elements w') = Some (fresh w)
    ∧ itemsOf w' = seq (S (fresh w)) (length strings)
    ∧ map (text_of w') (itemsOf w') = strings
    ∧ (∀ l, l ∈ itemsOf w' →
         classList <$> page w' !! l
         = Some ({[cn_item (classNames w)]} ∪ {[cn_itemVisible (classNames w)]}))
    ∧ (∀ l, l < fresh w → l ≠ wr → page w' !! l = page w !! l).
Proof.
  intros Hwr Hlive Hkids Halloc.
  destruct (generateItems_spec strings w wr Hwr Hlive Hkids Halloc)
    as (w' & Hrun & Hrest & Hiw & Hits & Hfresh & Hpage).
  pose proof (allocated_lt w wr Halloc Hlive) as Hlt.
  destruct (rest_inv _ _ Hrest) as (_ & _ & _ & _ & Hcn & _ & _ & _ & Hwr').
  set (iw := fresh w) in *. set (n := length strings) in *.
  assert (∀ l, S iw ≤ l < S iw + n →
            page w' !! l = (λ s, with_clickListener true (itemElement (classNames w) iw s))
                             <$> strings !! (l - S iw)) as Hitem.
  { intros l Hl. rewrite Hpage. repeat case_decide; try lia. done. }
  assert (page w' !! iw
          = Some (mkElement {[cn_itemsWrapper (classNames w)]} "" (Some (Generated wr))
                    (map Generated (seq (S iw) n)) false)) as Hiwp.
  { rewrite Hpage. repeat case_decide; try lia. done. }
  assert (page w' !! wr
          = with_children (λ cs, cs ++ [Generated iw]) <$> page w !! wr) as Hwrp.
  { rewrite Hpage. repeat case_decide; try lia. done. }
  exists w'. split; [exact Hrun|]. split; [exact Hrest|].
  split; [|split; [exact Hiw|split; [unfold itemsOf; by rewrite Hits|split; [|split]]]].
  - unfold scaffolded. rewrite Hwr', Hwr, Hiw, Hits.
    split; [|split; [|split; [|split; [|split]]]].
    + apply NoDup_cons. split.
      { rewrite elem_of_cons, elem_of_seq. lia. }
      apply NoDup_cons. split; [rewrite elem_of_seq; lia | apply NoDup_seq].
    + unfold children_of. rewrite Hiwp. simpl. apply generated_map.
    + unfold children_of. rewrite Hwrp. destruct Hlive as [e He].
      unfold children_of in Hkids. rewrite He in Hkids |- *. simpl.
      by rewrite generated_app, Hkids.
    + unfold parent_of. by rewrite Hiwp.
    + apply Forall_cons. split; [rewrite Hwrp; by apply fmap_is_Some|].
      apply Forall_cons. split; [by rewrite Hiwp|].
      apply Forall_forall. intros l Hl. apply elem_of_seq in Hl.
      rewrite Hitem by done. apply fmap_is_Some, lookup_lt_is_Some_2. lia.
    + intros l e He. rewrite Hfresh. rewrite Hpage in He.
      repeat case_decide; try lia.
      assert (l < iw); [|lia]. apply (allocated_lt w l Halloc). eauto.
  - unfold itemsOf. rewrite Hits. simpl. apply list_eq. intros i.
    rewrite list_lookup_fmap. destruct (decide (i < n)) as [Hi|Hi].
    + rewrite lookup_seq_lt by done. simpl. unfold text_of.
      rewrite Hitem by lia. replace (S (iw + i) - S iw) with i by lia.
      destruct (lookup_lt_is_Some_2 strings i) as [s Hs]; [done|].
      by rewrite Hs.
    + rewrite lookup_seq_ge by lia. simpl. symmetry. apply lookup_ge_None. lia.
  - intros l Hl. unfold itemsOf in Hl. rewrite Hits in Hl. simpl in Hl.
    apply elem_of_seq in Hl. rewrite Hitem by done.
    destruct (lookup_lt_is_Some_2 strings (l - S iw)) as [s Hs]; [lia|].
    by rewrite Hs.
  - intros l Hl Hne. rewrite Hpage. repeat case_decide; try lia. done.
Qed.

(** ** Keeping the invariant *)

Lemma keeps_ret {A} P (a : A) : keeps P (mret a).
Proof. by intros w. Qed.

Lemma keeps_get {A} P (g : Widget → A) : keeps P (get g).
Proof. by intros w. Qed.

Lemma keeps_deref {A} P (r : Widget → option A) : keeps P (deref r).
Proof. intros w H. unfold deref. by destruct (r w). Qed.

Lemma keeps_modify P (g : Widget → Widget) : (∀ w, P w → P (g w)) → keeps P (modify g).
Proof. intros H w. apply H. Qed.

Lemma keeps_bind {A B} P (m : M A) (k : A → M B) :
  keeps P m → (∀ a, keeps P (k a)) → keeps P (m ≫= k).
Proof.
  intros Hm Hk w HP. unfold mbind, M_bind. specialize (Hm w HP).
  destruct (m w) as [a w1|w1]; simpl in *; [|done].
  by apply Hk.
Qed.

Lemma keeps_for_of {A} P (xs : list A) (body : A → M unit) :
  (∀ x, keeps P (body x)) → keeps P (for_of xs body).
Proof.
  intros H. induction xs as [|x xs IH]; simpl; [by intros w|].
  apply keeps_bind; [apply H | intros _; apply IH].
Qed.

Lemma shape_inv w w' :
  shape w' = shape w →
  wrapper (elements w') = wrapper (elements w)
  ∧ itemsWrapper (elements w') = itemsWrapper (elements w)
  ∧ itemElements (elements w') = itemElements (elements w)
  ∧ sameSkeleton (page w) (page w')
  ∧ fresh w' = fresh w.
Proof.
  unfold shape. intros H. injection H as -> -> -> Hsk ->.
  repeat split; try done. intros l.
  by rewrite <- !lookup_fmap, Hsk.
Qed.

Lemma shape_allocated w w' : shape w' = shape w → allocated w → allocated w'.
Proof.
  intros H Ha. destruct (shape_inv _ _ H) as (_ & _ & _ & Hsk & Hf).
  intros l e He. rewrite Hf. apply (allocated_lt w l Ha).
  apply (sameSkeleton_is_Some _ _ l Hsk). eauto.
Qed.

Lemma shape_unbuilt w w' : shape w' = shape w → unbuilt w → unbuilt w'.
Proof.
  intros H (H1 & H2 & H3). destruct (shape_inv _ _ H) as (Hwr & Hiw & Hits & _).
  unfold unbuilt. by rewrite Hwr, Hiw, Hits.
Qed.

Lemma shape_scaffolded w w' : shape w' = shape w → scaffolded w → scaffolded w'.
Proof.
  intros H Hsc. destruct (shape_inv _ _ H) as (Hwr & Hiw & Hits & Hsk & Hf).
  unfold scaffolded in *. rewrite Hwr, Hiw, Hits.
  destruct (wrapper (elements w)) as [wr|]; [|done].
  destruct (itemsWrapper (elements w)) as [iw|]; [|done].
  destruct (itemElements (elements w)) as [its|]; [|done].
  destruct Hsc as (Hnd & Hc1 & Hc2 & Hp & Hlive & Ha).
  rewrite !(sameSkeleton_children w w'), (sameSkeleton_parent w w') by done.
  repeat split; try done.
  - eapply Forall_impl; [exact Hlive|]. intros l Hl.
    by apply (sameSkeleton_is_Some _ _ l Hsk).
  - by apply (shape_allocated w w').
Qed.

Lemma unbuilt_itemsOf w : unbuilt w → itemsOf w = [].
Proof. intros (_ & _ & H). unfold itemsOf. by rewrite H. Qed.

Lemma highlightTracked_unbuilt w : unbuilt w → highlightTracked w.
Proof. intros H l Hl. rewrite unbuilt_itemsOf in Hl by done. set_solver. Qed.

(** A method that only edits class lists keeps the invariant as soon as
    it keeps the highlight tracked on scaffolded instances. *)
Lemma keeps_consistent_classes {A} (m : M A) :
  preserves shape m →
  preserves classNames m →
  (∀ w, scaffolded w → distinctRoles (classNames w) → highlightTracked w →
        highlightTracked (final (m w))) →
  keeps consistent m.
Proof.
  intros Hshape Hcn Hht w (Hroles & Halloc & Hbuilt & Htr).
  split; [by rewrite Hcn|].
  split; [by apply (shape_allocated w)|].
  destruct Hbuilt as [Hu|Hs].
  - assert (unbuilt (final (m w))) by (by apply (shape_unbuilt w)).
    split; [by left | by apply highlightTracked_unbuilt].
  - split; [right; by apply (shape_scaffolded w) | by apply Hht].
Qed.

Create HintDb keeping.

Ltac keep_step :=
  lazymatch goal with
  | |- keeps _ (mret _) => apply keeps_ret
  | |- keeps _ (get _) => apply keeps_get
  | |- keeps _ (deref _) => apply keeps_deref
  | |- keeps _ (_ ≫= _) => apply keeps_bind; [|intros ?]
  | |- keeps _ (for_of _ _) => apply keeps_for_of; intros ?
  | |- keeps _ (if ?b then _ else _) => destruct b
  | |- keeps _ (match ?x with _ => _ end) => destruct x
  | |- keeps _ _ => solve [auto with keeping]
  end.

Ltac keep := repeat keep_step.

Lemma scaffolded_items w :
  scaffolded w →
  ∃ iw its, itemsWrapper (elements w) = Some iw
            ∧ itemElements (elements w) = Some its
            ∧ (iw ∉ its) ∧ NoDup its
            ∧ is_Some (page w !! iw)
            ∧ ∀ l, l ∈ its → is_Some (page w !! l).
Proof.
  intros Hsc.
  destruct (scaffolded_inv w Hsc)
    as (wr & iw & its & Hwr & Hiw & Hits & Hnd & _ & _ & _ & Hlive & _).
  exists iw, its.
  apply NoDup_cons in Hnd as [_ Hnd]. apply NoDup_cons in Hnd as [Hni Hnd].
  apply Forall_cons in Hlive as [_ Hlive]. apply Forall_cons in Hlive as [Hliw Hlive].
  rewrite Forall_forall in Hlive. done.
Qed.

Lemma highlightTracked_shown w :
  scaffolded w → highlightTracked w → highlightTracked (shown w).
Proof.
  intros Hsc Hht l Hl Hact.
  destruct (scaffolded_items w Hsc) as (iw & its & Hiw & Hits & Hni & _).
  unfold shown in *. rewrite Hiw in *. simpl in *.
  apply Hht; [done|]. revert Hact. unfold isActive, has_class. simpl.
  unfold itemsOf in Hl. simpl in Hl. rewrite Hits in Hl. simpl in Hl.
  rewrite lookup_alter_ne; [done|]. intros ->. done.
Qed.

Lemma highlightTracked_hidden w :
  scaffolded w → highlightTracked (hidden w).
Proof.
  intros Hsc l Hl Hact.
  destruct (scaffolded_items w Hsc) as (iw & its & Hiw & Hits & Hni & _).
  destruct (hidden_frame w) as (_ & Fits & _ & Fcn & _).
  unfold isActive in Hact. rewrite Fcn in Hact.
  rewrite (has_class_hidden_active w iw) in Hact; [done|done|].
  unfold itemsOf in *. by rewrite Fits in Hl.
Qed.

Lemma highlightTracked_filtered w :
  scaffolded w → distinctRoles (classNames w) → highlightTracked w →
  highlightTracked (filtered w).
Proof.
  intros Hsc [_ Hroles] Hht.
  set (w1 := if bool_decide (toLowerCase (value (input w)) = "") then hidden w else shown w).
  assert (highlightTracked w1 ∧ itemsOf w1 = itemsOf w ∧ classNames w1 = classNames w)
    as (Hht1 & Hits1 & Hcn1).
  { subst w1. case_bool_decide.
    - split; [by apply highlightTracked_hidden|].
      destruct (hidden_frame w) as (_ & Fits & _ & Fcn & _).
      unfold itemsOf. by rewrite Fits, Fcn.
    - split; [by apply highlightTracked_shown|].
      destruct (shown_frame w) as (Fel & _ & Fcn & _).
      unfold itemsOf. by rewrite Fel, Fcn. }
  intros l Hl Hact.
  assert (itemsOf (filtered w) = itemsOf w1) as Hits by done.
  assert (activeItem (elements (filtered w)) = activeItem (elements w1)) as -> by done.
  rewrite Hits in Hl. apply Hht1; [done|].
  revert Hact. unfold isActive, has_class, filtered. simpl. fold w1.
  rewrite Hcn1, lookup_markPage.
  rewrite Hits1 in Hl. rewrite decide_True by done.
  destruct (page w1 !! l) as [e|]; simpl; [|done].
  unfold markElement. destruct (matches _ _); simpl;
    rewrite !bool_decide_eq_true; set_solver.
Qed.

Lemma keeps_consistent_showItems : keeps consistent showItems.
Proof.
  apply keeps_consistent_classes; [auto with frames | |].
  - unfold showItems, the_itemsWrapper, classList_add. frame.
  - intros w Hsc _ Hht.
    destruct (scaffolded_items w Hsc) as (iw & its & Hiw & _).
    rewrite (showItems_eq w iw) by done. by apply highlightTracked_shown.
Qed.
#[export] Hint Resolve keeps_consistent_showItems : keeping.

Lemma keeps_consistent_hideItems : keeps consistent hideItems.
Proof.
  apply keeps_consistent_classes; [auto with frames | |].
  - unfold hideItems, the_itemsWrapper, the_items, classList_remove,
      clearActiveItemStyles, the_items, classList_remove. frame.
  - intros w Hsc _ Hht.
    destruct (scaffolded_items w Hsc) as (iw & its & Hiw & Hits & _).
    rewrite (hideItems_eq w iw its) by done. by apply highlightTracked_hidden.
Qed.
#[export] Hint Resolve keeps_consistent_hideItems : keeping.

Lemma preserves_classNames_hideItems : preserves classNames hideItems.
Proof.
  unfold hideItems, the_itemsWrapper, the_items, classList_remove,
    clearActiveItemStyles, the_items, classList_remove. frame.
Qed.
#[export] Hint Resolve preserves_classNames_hideItems : frames.

Lemma preserves_classNames_showItems : preserves classNames showItems.
Proof. unfold showItems, the_itemsWrapper, classList_add. frame. Qed.
#[export] Hint Resolve preserves_classNames_showItems : frames.

Lemma keeps_consistent_handleInput : keeps consistent handleInput.
Proof.
  apply keeps_consistent_classes; [auto with frames | |].
  - unfold handleInput, the_items, classList_add, classList_remove. frame.
  - intros w Hsc Hroles Hht.
    destruct (scaffolded_items w Hsc) as (iw & its & Hiw & Hits & _).
    rewrite (handleInput_eq w iw its) by done. by apply highlightTracked_filtered.
Qed.
#[export] Hint Resolve keeps_consistent_handleInput : keeping.

Lemma consistent_set_input f w : consistent w → consistent (set_input f w).
Proof. done. Qed.

Lemma keeps_consistent_setInput t : keeps consistent (setInput t).
Proof.
  unfold setInput. keep. apply keeps_modify. intros w. apply consistent_set_input.
Qed.
#[export] Hint Resolve keeps_consistent_setInput : keeping.

Lemma handleArrowKey_eq direction w :
  direction = "ArrowUp" ∨ direction = "ArrowDown" →
  handleArrowKey direction w = arrowed direction w.
Proof.
  intros Hd. unfold handleArrowKey, arrowed.
  rewrite bool_decide_eq_false_2 by (by destruct Hd as [->| ->]).
  destruct (itemElements (elements w)) as [all|] eqn:Hall.
  - rewrite (bind_Ret _ _ w tt (set_page (clearPage (cn_itemActive (classNames w)) all) w))
      by (by apply clearActiveItemStyles_eq).
    destruct (itemsWrapper (elements w)) as [iw|] eqn:Hiw.
    + erewrite bind_Ret
        by (unfold the_itemsWrapper, deref; simpl; rewrite Hiw; reflexivity).
      erewrite bind_Ret by reflexivity.
      erewrite bind_Ret by reflexivity.
      erewrite bind_Ret by reflexivity.
      unfold nextActive. simpl.
      set (vis := querySelectorAll _ iw _).
      destruct (bool_decide (direction = "ArrowUp")) eqn:Eup.
      { destruct (truthy _ && _);
          (erewrite bind_Ret by reflexivity); (erewrite bind_Ret by reflexivity);
          simpl; by destruct (at_index _ _). }
      destruct (bool_decide (direction = "ArrowDown")) eqn:Edown.
      { destruct (truthy _ && _);
          (erewrite bind_Ret by reflexivity); (erewrite bind_Ret by reflexivity);
          simpl; by destruct (at_index _ _). }
      destruct Hd as [->| ->]; done.
    + erewrite bind_TypeError; [done|].
      unfold the_itemsWrapper, deref; simpl. by rewrite Hiw.
  - erewrite bind_TypeError; [done|].
    unfold clearActiveItemStyles, the_items, deref.
    erewrite bind_TypeError; [done|]. by rewrite Hall.
Qed.

Lemma has_class_cleared w all l c :
  l ∈ all → has_class (set_page (clearPage c all) w) l c = false.
Proof.
  intros Hl. unfold has_class. simpl. rewrite lookup_clearPage, decide_True by done.
  destruct (page w !! l); simpl; [|done].
  apply bool_decide_eq_false. set_solver.
Qed.

Lemma has_class_addClass_other c l w l' c' :
  l ≠ l' → has_class (addClass c l w) l' c' = has_class w l' c'.
Proof. intros Hne. unfold has_class. simpl. by rewrite lookup_alter_ne. Qed.

Lemma highlightTracked_arrowed direction w :
  highlightTracked (final (arrowed direction w)).
Proof.
  unfold arrowed.
  destruct (itemElements (elements w)) as [all|] eqn:Hall.
  - assert (∀ r, highlightTracked
               (set_elements (with_activeItem r)
                  (set_page (clearPage (cn_itemActive (classNames w)) all) w))) as Hclear.
    { intros r l Hl Hact. unfold itemsOf in Hl. simpl in Hl. rewrite Hall in Hl.
      unfold isActive in Hact. simpl in Hact.
      pose proof (has_class_cleared w all l (cn_itemActive (classNames w)) Hl) as Hc.
      unfold has_class in Hact, Hc. simpl in Hact, Hc. congruence. }
    destruct (itemsWrapper (elements w)) as [iw|].
    + set (r := nextActive _ _ _). specialize (Hclear r).
      destruct r as [| |l']; simpl; try done.
      intros l Hl Hact. simpl.
      destruct (decide (l' = l)) as [->|Hne]; [done|].
      unfold isActive in Hact. simpl in Hact.
      rewrite has_class_addClass_other in Hact by done.
      by apply Hclear in Hact.
    + simpl. intros l Hl Hact. unfold itemsOf in Hl. simpl in Hl. rewrite Hall in Hl.
      unfold isActive in Hact. simpl in Hact.
      by rewrite has_class_cleared in Hact.
  - simpl. intros l Hl. unfold itemsOf in Hl. rewrite Hall in Hl. set_solver.
Qed.

Lemma keeps_consistent_handleArrowKey direction :
  direction = "ArrowUp" ∨ direction = "ArrowDown" →
  keeps consistent (handleArrowKey direction).
Proof.
  intros Hd. apply keeps_consistent_classes; [auto with frames | |].
  - unfold handleArrowKey, the_itemsWrapper, classList_add,
      clearActiveItemStyles, the_items, classList_remove. frame.
  - intros w _ _ _. rewrite handleArrowKey_eq by done.
    apply highlightTracked_arrowed.
Qed.

Lemma keeps_consistent_handleKeydown key : keeps consistent (handleKeydown key).
Proof.
  unfold handleKeydown, isShownWithItems, the_itemsWrapper. keep.
  - apply keeps_consistent_handleArrowKey. by left.
  - apply keeps_consistent_handleArrowKey. by right.
Qed.
#[export] Hint Resolve keeps_consistent_handleKeydown : keeping.

Lemma keeps_consistent_handleItemClick item : keeps consistent (handleItemClick item).
Proof. unfold handleItemClick. keep. Qed.
#[export] Hint Resolve keeps_consistent_handleItemClick : keeping.

Lemma keeps_consistent_clickOutside_fn els event :
  keeps consistent (clickOutside_fn els hideItems event).
Proof. unfold clickOutside_fn. keep. Qed.
#[export] Hint Resolve keeps_consistent_clickOutside_fn : keeping.

(** ** Replacing the items *)

Lemma generated_cons_Generated l ns :
  generated (Generated l :: ns) = l :: generated ns.
Proof. done. Qed.

Lemma generated_cons_other n ns :
  (∀ l, n ≠ Generated l) → generated (n :: ns) = generated ns.
Proof. intros H. destruct n; try done. by destruct (H l). Qed.

Lemma generated_filter l ns :
  generated (filter (λ n, n ≠ Generated l) ns) = filter (λ x, x ≠ l) (generated ns).
Proof.
  induction ns as [|n ns IH]; [done|].
  rewrite filter_cons. destruct (decide (n ≠ Generated l)) as [Hn|Hn].
  - destruct n as [|l'|h].
    + by rewrite !generated_cons_other.
    + rewrite !generated_cons_Generated, filter_cons, decide_True by congruence.
      by rewrite IH.
    + by rewrite !generated_cons_other.
  - destruct n as [|l'|h]; try (exfalso; apply Hn; discriminate).
    rewrite generated_cons_Generated, filter_cons.
    destruct (decide (l' ≠ l)) as [Hl|Hl]; [|exact IH].
    exfalso. apply Hn. congruence.
Qed.

Lemma setItems_scaffolded strings w :
  scaffolded w →
  ∃ w',
    setItems strings w = Ret tt w'
    ∧ scaffolded w'
    ∧ classNames w' = classNames w
    ∧ activeItem (elements w') = activeItem (elements w)
    ∧ hasItemsVisible w' = hasItemsVisible w
    ∧ input w' = input w
    ∧ itemsOf w' = seq (S (fresh w)) (length strings)
    ∧ map (text_of w') (itemsOf w') = strings
    ∧ (∀ l, l ∈ itemsOf w' →
         classList <$> page w' !! l
         = Some ({[cn_item (classNames w)]} ∪ {[cn_itemVisible (classNames w)]})).
Proof.
  intros Hsc.
  destruct (scaffolded_inv w Hsc)
    as (wr & iw & its & Hwr & Hiw & Hits & Hnd & Hc1 & Hc2 & Hp & Hlive & Halloc).
  apply NoDup_cons in Hnd as [Hwr_ni _].
  apply Forall_cons in Hlive as [Hlwr Hlive]. apply Forall_cons in Hlive as [Hliw _].
  assert (wr ≠ iw) as Hne by set_solver.
  unfold setItems.
  erewrite bind_Ret by reflexivity.
  erewrite bind_Ret by (unfold get; simpl; rewrite Hiw; reflexivity).
  simpl.
  unfold remove at 1.
  erewrite (bind_Ret (modify _ ≫= _)) by reflexivity.
  erewrite bind_Ret by reflexivity.
  simpl.
  set (w2 := set_elements _ _).
  assert (page w2 !! wr
          = with_children (filter (λ n, n ≠ Generated iw)) <$> page w !! wr) as H2wr.
  { subst w2. simpl. unfold parent_of in Hp. destruct Hliw as [e He].
    rewrite He in Hp |- *. rewrite Hp.
    by rewrite lookup_alter_ne, lookup_alter_eq. }
  destruct (generateItems_scaffolded strings w2 wr)
    as (w' & Hrun & Hrest & Hsc' & Hiw' & Hits' & Htext & Hcls & _).
  - done.
  - rewrite H2wr. by apply fmap_is_Some.
  - unfold children_of. rewrite H2wr. destruct Hlwr as [e He].
    unfold children_of in Hc2. rewrite He in Hc2 |- *. simpl.
    rewrite generated_filter, Hc2, filter_cons, decide_False by (intros H; by apply H).
    done.
  - intros l e He. apply (allocated_lt w l Halloc).
    subst w2. simpl in He. unfold parent_of in Hp. destruct Hliw as [e' He'].
    rewrite He' in Hp, He. rewrite Hp in He.
    destruct (decide (l = iw)) as [->|]; [eauto|].
    rewrite lookup_alter_ne in He by done.
    destruct (decide (l = wr)) as [->|]; [eauto|].
    rewrite lookup_alter_ne in He by done. eauto.
  - destruct (rest_inv _ _ Hrest) as (Hin & _ & _ & _ & Hcn & Hhv & _ & Hact & _).
    exists w'. split; [exact Hrun|]. repeat split; try done.
Qed.

Lemma fresh_items_inactive w :
  distinctRoles (classNames w) →
  (∀ l, l ∈ itemsOf w →
     classList <$> page w !! l
     = Some ({[cn_item (classNames w)]} ∪ {[cn_itemVisible (classNames w)]})) →
  highlightTracked w.
Proof.
  intros [Hr1 Hr2] Hcls l Hl Hact. specialize (Hcls l Hl).
  unfold isActive, has_class in Hact.
  destruct (page w !! l) as [e|]; simpl in *; [|done].
  injection Hcls as Hcls. rewrite Hcls in Hact.
  apply bool_decide_eq_true in Hact. set_solver.
Qed.

Lemma setItems_unbuilt strings w :
  unbuilt w →
  setItems strings w
  = TypeError (set_options (mkOptions (valueMatchItem (options w)) strings
                              (onInit (options w)) (onDestroy (options w))) w).
Proof.
  intros (Hwr & Hiw & _). unfold setItems.
  erewrite bind_Ret by reflexivity.
  erewrite bind_Ret by (unfold get; simpl; rewrite Hiw; reflexivity).
  erewrite bind_Ret by reflexivity.
  erewrite bind_Ret by reflexivity.
  unfold generateItems. erewrite bind_TypeError; [done|].
  unfold the_wrapper, deref. simpl. by rewrite Hwr.
Qed.

Lemma keeps_consistent_setItems strings : keeps consistent (setItems strings).
Proof.
  intros w (Hroles & Halloc & [Hu|Hsc] & Hht).
  - rewrite setItems_unbuilt by done. simpl.
    split; [done|]. split; [done|]. split; [by left|].
    by apply highlightTracked_unbuilt.
  - destruct (setItems_scaffolded strings w Hsc)
      as (w' & -> & Hsc' & Hcn & _ & _ & _ & _ & _ & Hcls).
    simpl. rewrite <- Hcn in Hcls.
    split; [by rewrite Hcn|].
    split; [by destruct (scaffolded_inv w' Hsc') as (? & ? & ? & ? & ? & ? & ? & ? & ? & ? & ? & ?)|].
    split; [by right|].
    apply fresh_items_inactive; [by rewrite Hcn | done].
Qed.
#[export] Hint Resolve keeps_consistent_setItems : keeping.

(** ** Initialisation and destruction *)

Lemma generateHTML_scaffolded w :
  allocated w →
  ∃ w',
    generateHTML w = Ret tt w'
    ∧ scaffolded w'
    ∧ classNames w' = classNames w
    ∧ (∀ l, l ∈ itemsOf w' →
         classList <$> page w' !! l
         = Some ({[cn_item (classNames w)]} ∪ {[cn_itemVisible (classNames w)]})).
Proof.
  intros Halloc.
  pose proof (allocated_fresh w (fresh w) Halloc (le_n _)) as Hnew.
  unfold generateHTML.
  erewrite bind_Ret by reflexivity.
  unfold createElement at 1. erewrite bind_Ret by reflexivity.
  do 7 (erewrite bind_Ret by reflexivity).
  simpl.
  set (wG := set_input _ _).
  assert (page wG !! fresh w
          = Some (mkElement {[cn_wrapper (classNames w)]} ""
                    (Some (inputParent (input w))) [InputNode] false)) as HG.
  { subst wG. simpl. by rewrite lookup_alter_eq, lookup_alter_eq, lookup_insert_eq. }
  destruct (generateItems_scaffolded (items (options w)) wG (fresh w))
    as (w' & Hrun & Hrest & Hsc' & _ & _ & _ & Hcls & _).
  - done.
  - by rewrite HG.
  - unfold children_of. by rewrite HG.
  - intros l e He. subst wG. simpl in *.
    destruct (decide (l = fresh w)) as [->|Hne]; [lia|].
    rewrite !lookup_alter_ne, lookup_insert_ne in He by done.
    apply Halloc in He. lia.
  - destruct (rest_inv _ _ Hrest) as (_ & _ & _ & _ & Hcn & _).
    exists w'. done.
Qed.

Lemma allocated_mono w w' :
  page w' = page w → (fresh w ≤ fresh w')%nat → allocated w → allocated w'.
Proof.
  intros Hp Hf Ha l e He. rewrite Hp in He. apply Ha in He. lia.
Qed.

Lemma scaffolded_mono w w' :
  page w' = page w → (fresh w ≤ fresh w')%nat →
  wrapper (elements w') = wrapper (elements w) →
  itemsWrapper (elements w') = itemsWrapper (elements w) →
  itemElements (elements w') = itemElements (elements w) →
  scaffolded w → scaffolded w'.
Proof.
  intros Hp Hf Hwr Hiw Hits. unfold scaffolded, children_of, parent_of.
  rewrite Hwr, Hiw, Hits, Hp.
  destruct (wrapper (elements w)); [|done].
  destruct (itemsWrapper (elements w)); [|done].
  destruct (itemElements (elements w)); [|done].
  intros (? & ? & ? & ? & ? & Ha). repeat split; try done.
  intros k e He. apply Ha in He. lia.
Qed.

Lemma highlightTracked_same w w' :
  page w' = page w → elements w' = elements w → classNames w' = classNames w →
  highlightTracked w → highlightTracked w'.
Proof.
  intros Hp He Hc Hht l. unfold itemsOf, isActive, has_class.
  rewrite Hp, He, Hc. apply Hht.
Qed.

(** Steps that touch neither the page, nor the references, nor the class
    names, and never lower the allocation counter. *)
Lemma consistent_same w w' :
  page w' = page w → elements w' = elements w → classNames w' = classNames w →
  (fresh w ≤ fresh w')%nat →
  consistent w → consistent w'.
Proof.
  intros Hp He Hc Hf (Hroles & Halloc & Hbuilt & Hht).
  split; [by rewrite Hc|].
  split; [by apply (allocated_mono w)|].
  split; [|by apply (highlightTracked_same w)].
  destruct Hbuilt as [Hu|Hs].
  - left. unfold unbuilt. by rewrite He.
  - right. apply (scaffolded_mono w); by rewrite ?He.
Qed.

Lemma keeps_consistent_generateHTML : keeps consistent generateHTML.
Proof.
  intros w (Hroles & Halloc & _ & _).
  destruct (generateHTML_scaffolded w Halloc) as (w' & -> & Hsc' & Hcn & Hcls).
  simpl. rewrite <- Hcn in Hcls.
  split; [by rewrite Hcn|].
  split; [by destruct (scaffolded_inv w' Hsc') as (? & ? & ? & ? & ? & ? & ? & ? & ? & ? & ? & ?)|].
  split; [by right|].
  apply fresh_items_inactive; [by rewrite Hcn | done].
Qed.
#[export] Hint Resolve keeps_consistent_generateHTML : keeping.

Ltac keep_same :=
  apply keeps_modify; intros ? ?;
  eapply consistent_same; [..|eassumption]; simpl; try done; try lia.

Lemma keeps_consistent_clickOutside els : keeps consistent (clickOutside els).
Proof.
  intros w H. unfold clickOutside.
  do 3 (erewrite bind_Ret by reflexivity). simpl.
  eapply consistent_same; [..|exact H]; simpl; try done; lia.
Qed.
#[export] Hint Resolve keeps_consistent_clickOutside : keeping.

Lemma keeps_consistent_addEvents : keeps consistent addEvents.
Proof. unfold addEvents. keep; keep_same. Qed.
#[export] Hint Resolve keeps_consistent_addEvents : keeping.

Lemma keeps_consistent_removeEvents : keeps consistent removeEvents.
Proof. unfold removeEvents, run_cleanup. keep; keep_same. Qed.
#[export] Hint Resolve keeps_consistent_removeEvents : keeping.

Lemma keeps_consistent_init : keeps consistent init.
Proof. unfold init, isInit. keep; keep_same. Qed.
#[export] Hint Resolve keeps_consistent_init : keeping.

Lemma consistent_alter_wrapper f w wr :
  wrapper (elements w) = Some wr →
  (∀ e, classList (f e) = classList e
        ∧ generated (children (f e)) = generated (children e)) →
  consistent w → consistent (set_page (alter f wr) w).
Proof.
  intros Hwr Hf (Hroles & Halloc & Hbuilt & Hht).
  assert (∀ l, is_Some (alter f wr (page w) !! l) ↔ is_Some (page w !! l)) as Hlive.
  { intros l. destruct (decide (wr = l)) as [->|].
    - rewrite lookup_alter_eq. apply fmap_is_Some.
    - by rewrite lookup_alter_ne. }
  split; [done|]. split; [|split].
  - intros l e He. apply (allocated_lt w l Halloc). apply Hlive. eauto.
  - right. destruct Hbuilt as [(Hu & _)|Hsc]; [congruence|].
    destruct (scaffolded_inv w Hsc)
      as (wr' & iw & its & Hwr' & Hiw & Hits & Hnd & Hc1 & Hc2 & Hp & Hl & _).
    assert (wr' = wr) as -> by congruence.
    assert (wr ≠ iw) as Hne.
    { apply NoDup_cons in Hnd as [Hni _]. set_solver. }
    unfold scaffolded. simpl. rewrite Hwr, Hiw, Hits.
    unfold children_of, parent_of in *. simpl.
    rewrite lookup_alter_ne by done. rewrite lookup_alter_eq.
    repeat split; try done.
    + destruct (page w !! wr) as [e|]; simpl in *; [|done].
      by rewrite (proj2 (Hf e)).
    + eapply Forall_impl; [exact Hl|]. intros l. apply Hlive.
    + intros l e He. apply (allocated_lt w l Halloc). apply Hlive. eauto.
  - intros l Hl Hact. apply Hht; [done|]. revert Hact.
    unfold isActive, has_class. simpl.
    destruct (decide (wr = l)) as [->|].
    + rewrite lookup_alter_eq. destruct (page w !! l) as [e|]; simpl; [|done].
      by rewrite (proj1 (Hf e)).
    + by rewrite lookup_alter_ne.
Qed.

Lemma generated_filter_input ns :
  generated (filter (λ n, n ≠ InputNode) ns) = generated ns.
Proof.
  induction ns as [|n ns IH]; [done|].
  rewrite filter_cons. destruct (decide (n ≠ InputNode)) as [Hn|Hn].
  - destruct n as [|l|h]; [done| |].
    + by rewrite !generated_cons_Generated, IH.
    + by rewrite !generated_cons_other.
  - destruct n as [|l|h]; try (exfalso; apply Hn; discriminate).
    by rewrite generated_cons_other.
Qed.

Lemma keeps_consistent_destroyHTML : keeps consistent destroyHTML.
Proof.
  intros w H. unfold destroyHTML.
  destruct (wrapper (elements w)) as [wr|] eqn:Hwr.
  - erewrite bind_Ret by (unfold the_wrapper, deref; rewrite Hwr; reflexivity).
    do 2 (erewrite bind_Ret by reflexivity).
    destruct (parent_of w wr) as [p|].
    + repeat (erewrite bind_Ret by reflexivity). simpl.
      eapply consistent_same; [reflexivity..|simpl; lia|].
      apply consistent_alter_wrapper; [done|done|].
      eapply (consistent_same (set_page _ w)); [reflexivity..|simpl; lia|].
      apply consistent_alter_wrapper; [done| |done].
      intros e. split; [done|]. simpl. apply generated_filter_input.
    + erewrite bind_Ret by reflexivity. simpl.
      eapply consistent_same; [..|exact H]; simpl; try done.
  - erewrite bind_TypeError; [done|].
    unfold the_wrapper, deref. by rewrite Hwr.
Qed.
#[export] Hint Resolve keeps_consistent_destroyHTML : keeping.

Lemma keeps_consistent_destroy : keeps consistent destroy.
Proof. unfold destroy, isInit. keep; keep_same. Qed.
#[export] Hint Resolve keeps_consistent_destroy : keeping.

Lemma keeps_consistent_perform a : keeps consistent (perform a).
Proof.
  destruct a; unfold perform; keep; try keep_same.
Qed.

Lemma consistent_run acts w : consistent w → consistent (run acts w).
Proof.
  revert w. induction acts as [|a acts IH]; intros w H; simpl; [done|].
  apply IH. by apply keeps_consistent_perform.
Qed.

Lemma consistent_instance i o c : distinctRoles c → consistent (instance i o c).
Proof.
  intros Hr. split; [done|]. split; [|split].
  - intros l e He. simpl in He. by rewrite lookup_empty in He.
  - left. done.
  - apply highlightTracked_unbuilt. done.
Qed.

Lemma filter_at_most_one {A} (f : A → bool) (xs : list A) (a : A) :
  NoDup xs → (∀ x, x ∈ xs → f x = true → x = a) →
  length (List.filter f xs) ≤ 1.
Proof.
  intros Hnd H.
  assert (∀ ys, NoDup ys → (∀ x, x ∈ ys → f x = true → x = a) → a ∉ ys →
                List.filter f ys = []) as Hnone.
  { induction ys as [|y ys IH]; intros Hn Hy Ha; simpl; [done|].
    apply NoDup_cons in Hn as [_ Hn].
    destruct (f y) eqn:E.
    - exfalso. apply Ha. rewrite (Hy y) by (set_solver || done). set_solver.
    - apply IH; [done| |set_solver]. intros x Hx. apply Hy. set_solver. }
  induction xs as [|x xs IH]; simpl; [lia|].
  apply NoDup_cons in Hnd as [Hx Hnd].
  destruct (f x) eqn:E.
  - assert (x = a) as -> by (apply H; [set_solver|done]).
    rewrite Hnone; [simpl; lia|done| |done].
    intros y Hy. apply H. set_solver.
  - apply IH; [done|]. intros y Hy. apply H. set_solver.
Qed.

Lemma consistent_activeCount w : consistent w → activeCount w ≤ 1.
Proof.
  intros (_ & _ & [Hu|Hsc] & Hht); unfold activeCount.
  - rewrite unbuilt_itemsOf by done. simpl. lia.
  - destruct (scaffolded_items w Hsc) as (iw & its & _ & Hits & _ & Hnd & _).
    destruct (activeItem (elements w)) as [| |a] eqn:Ha.
    + rewrite (filter_at_most_one _ _ 0); [done|unfold itemsOf; by rewrite Hits|].
      intros l Hl Hact. specialize (Hht l Hl Hact). congruence.
    + rewrite (filter_at_most_one _ _ 0); [done|unfold itemsOf; by rewrite Hits|].
      intros l Hl Hact. specialize (Hht l Hl Hact). congruence.
    + rewrite (filter_at_most_one _ _ a); [done|unfold itemsOf; by rewrite Hits|].
      intros l Hl Hact. specialize (Hht l Hl Hact). congruence.
Qed.

(** C10. Whatever the host and the user do to a widget constructed with
    distinct class names for the item roles, at most one item of the
    collection carries the highlight class. *)
Theorem C10_at_most_one_highlight
    (i : InputElement) (o : Options) (c : ClassNames) (acts : list Action) :
  distinctRoles c →
  activeCount (run acts (final (constructor i o c))) ≤ 1.
Proof.
  intros Hr. apply consistent_activeCount, consistent_run.
  unfold constructor. apply keeps_consistent_init. by apply consistent_instance.
Qed.

Lemma C10_witness :
  distinctRoles DEFAULT_CLASS_NAMES
  ∧ activeCount
      (run [Type_ "a"; Keydown "ArrowDown"; Type_ "an"; Keydown "ArrowDown";
            CallSetItems ["One"; "Two"]; Type_ "o"; Keydown "ArrowUp"]
         (final (constructor hostInput fruit DEFAULT_CLASS_NAMES))) ≤ 1.
Proof.
  split; [split; discriminate|].
  apply C10_at_most_one_highlight. split; discriminate.
Defined.

(** ** Keyboard navigation *)

Lemma at_index_nat its (i : nat) :
  at_index its (Z.of_nat i) = match its !! i with Some l => Elem l | None => Undefined end.
Proof.
  unfold at_index. destruct (Z.ltb_spec (Z.of_nat i) 0); [lia|].
  by rewrite Nat2Z.id.
Qed.

Lemma at_index_negative its (z : Z) : (z < 0)%Z → at_index its z = Undefined.
Proof. intros H. unfold at_index. by destruct (Z.ltb_spec z 0); [|lia]. Qed.

Lemma findIndex_lower its r : (-1 ≤ findIndex its r)%Z.
Proof.
  induction its as [|x its IH]; simpl; [lia|].
  case_bool_decide; [lia|]. destruct (Z.eqb_spec (findIndex its r) (-1)); lia.
Qed.

Lemma findIndex_absent its x : x ∉ its → findIndex its (Elem x) = (-1)%Z.
Proof.
  induction its as [|y its IH]; intros Hx; simpl; [done|].
  rewrite bool_decide_eq_false_2 by (intros [= ->]; set_solver).
  rewrite IH by set_solver. done.
Qed.

Lemma findIndex_falsy its r : truthy r = false → findIndex its r = (-1)%Z.
Proof.
  intros Hr. induction its as [|y its IH]; simpl; [done|].
  rewrite bool_decide_eq_false_2 by (intros <-; done).
  by rewrite IH.
Qed.

Lemma findIndex_lookup its (i : nat) x :
  NoDup its → its !! i = Some x → findIndex its (Elem x) = Z.of_nat i.
Proof.
  revert i. induction its as [|y its IH]; intros i Hnd Hi; [done|].
  apply NoDup_cons in Hnd as [Hy Hnd]. simpl. destruct i as [|i]; simpl in Hi.
  - injection Hi as ->. by rewrite bool_decide_eq_true_2.
  - assert (x ∈ its) by (by eapply list_elem_of_lookup_2).
    rewrite bool_decide_eq_false_2 by (intros [= ->]; done).
    rewrite (IH i) by done.
    destruct (Z.eqb_spec (Z.of_nat i) (-1)); lia.
Qed.

(** ArrowDown from a visible active item: the next visible item, or the
    first one after the last. *)
Lemma nextActive_down its (i : nat) x :
  NoDup its → its !! i = Some x →
  nextActive "ArrowDown" its (Elem x)
  = match its !! S i with
    | Some y => Elem y
    | None => match its !! 0 with Some y => Elem y | None => Undefined end
    end.
Proof.
  intros Hnd Hi. unfold nextActive. simpl.
  pose proof (lookup_lt_Some _ _ _ Hi) as Hlen.
  rewrite (findIndex_lookup its i x) by done.
  replace (Z.of_nat (length its) - 1)%Z with (Z.of_nat (length its - 1)) by lia.
  replace (Z.of_nat i + 1)%Z with (Z.of_nat (S i)) by lia.
  rewrite !at_index_nat. change 0%Z with (Z.of_nat 0). rewrite at_index_nat.
  destruct (decide (S i = length its)) as [Hlast|Hlast].
  - replace (length its - 1) with i by lia. rewrite Hi.
    rewrite bool_decide_eq_true_2 by done. simpl.
    by rewrite (lookup_ge_None_2 its (S i)) by lia.
  - destruct (lookup_lt_is_Some_2 its (length its - 1)) as [z Hz]; [lia|].
    rewrite Hz. rewrite bool_decide_eq_false_2; simpl.
    + destruct (lookup_lt_is_Some_2 its (S i)) as [y Hy]; [lia|]. by rewrite Hy.
    + intros [= ->]. pose proof (NoDup_lookup _ _ _ _ Hnd Hi Hz). lia.
Qed.

(** ArrowUp from a visible active item: the previous visible item, or the
    last one before the first. *)
Lemma nextActive_up its (i : nat) x :
  NoDup its → its !! i = Some x →
  nextActive "ArrowUp" its (Elem x)
  = match i with
    | 0 => match its !! (length its - 1) with Some y => Elem y | None => Undefined end
    | S j => match its !! j with Some y => Elem y | None => Undefined end
    end.
Proof.
  intros Hnd Hi. unfold nextActive. simpl.
  pose proof (lookup_lt_Some _ _ _ Hi) as Hlen.
  rewrite (findIndex_lookup its i x) by done.
  replace (Z.of_nat (length its) - 1)%Z with (Z.of_nat (length its - 1)) by lia.
  change 0%Z with (Z.of_nat 0). rewrite !at_index_nat.
  destruct i as [|j].
  - rewrite Hi. by rewrite bool_decide_eq_true_2.
  - destruct (lookup_lt_is_Some_2 its 0) as [z Hz]; [lia|].
    rewrite Hz. rewrite bool_decide_eq_false_2; simpl.
    + replace (Z.of_nat (S j) - 1)%Z with (Z.of_nat j) by lia. by rewrite at_index_nat.
    + intros [= ->]. pose proof (NoDup_lookup _ _ _ _ Hnd Hi Hz). lia.
Qed.

(** Without an active item ArrowDown takes the first visible item and
    ArrowUp the last. *)
Lemma nextActive_none its r :
  truthy r = false →
  nextActive "ArrowDown" its r = at_index its 0
  ∧ nextActive "ArrowUp" its r = at_index its (Z.of_nat (length its) - 1).
Proof. intros Hr. unfold nextActive. simpl. by rewrite Hr. Qed.

(** An active item that is no longer visible: ArrowDown takes the first
    visible item, ArrowUp reads index [-2]. *)
Lemma nextActive_stale its x :
  x ∉ its →
  nextActive "ArrowDown" its (Elem x) = at_index its 0
  ∧ nextActive "ArrowUp" its (Elem x)
    = if bool_decide (its = []) then at_index its (-1) else at_index its (-2).
Proof.
  intros Hx. unfold nextActive. simpl. rewrite (findIndex_absent its x Hx).
  split.
  - destruct (bool_decide (Elem x = at_index its (Z.of_nat (length its) - 1))); done.
  - destruct its as [|y its]; [done|].
    rewrite bool_decide_eq_false_2; [done|].
    change 0%Z with (Z.of_nat 0). rewrite at_index_nat. simpl.
    intros [= ->]. set_solver.
Qed.

Lemma visibleItems_cleared w iw all :
  itemsWrapper (elements w) = Some iw →
  cn_itemActive (classNames w) ≠ cn_itemVisible (classNames w) →
  querySelectorAll (set_page (clearPage (cn_itemActive (classNames w)) all) w) iw
    (cn_itemVisible (classNames w))
  = visibleItems w.
Proof.
  intros Hiw Hne. unfold visibleItems, querySelectorAll. rewrite Hiw.
  rewrite (sameSkeleton_children w _ iw) by apply sameSkeleton_clearPage.
  apply filter_ext. intros l. unfold has_class. simpl.
  rewrite lookup_clearPage. destruct (decide (l ∈ all)) as [_|_]; [|done].
  destruct (page w !! l) as [el|]; simpl; [|done].
  apply bool_decide_ext. set_solver.
Qed.

(** An arrow key on a shown panel: the highlight is cleared, the active
    item becomes [nextActive] of the visible items, and it is highlighted;
    when [nextActive] is not an element the handler throws. *)
Lemma handleKeydown_arrow w key :
  key = "ArrowUp" ∨ key = "ArrowDown" →
  scaffolded w →
  cn_itemActive (classNames w) ≠ cn_itemVisible (classNames w) →
  isShownWithItems w = Ret true w →
  let r := nextActive key (visibleItems w) (activeItem (elements w)) in
  let w1 := set_elements (with_activeItem r)
              (set_page (clearPage (cn_itemActive (classNames w)) (itemsOf w)) w) in
  handleKeydown key w
  = match r with
    | Elem l => Ret tt (addClass (cn_itemActive (classNames w)) l w1)
    | _ => TypeError w1
    end.
Proof.
  intros Hkey Hsc Hne Hshown r w1.
  destruct (scaffolded_items w Hsc) as (iw & its & Hiw & Hits & _).
  unfold handleKeydown. rewrite (bind_Ret _ _ w true w) by done. simpl.
  assert (handleArrowKey key w
          = match r with
            | Elem l => Ret tt (addClass (cn_itemActive (classNames w)) l w1)
            | _ => TypeError w1
            end) as Harrow.
  { rewrite handleArrowKey_eq by done. unfold arrowed. rewrite Hits, Hiw.
    rewrite (visibleItems_cleared w iw its) by done.
    subst r w1. unfold itemsOf. rewrite Hits. done. }
  destruct Hkey as [-> | ->]; exact Harrow.
Qed.

(** Whenever the active item has left the visible items of a shown panel,
    ArrowUp ends in a [TypeError] with [undefined] as the active item. *)
Lemma arrowUp_stale_throws w x :
  scaffolded w →
  cn_itemActive (classNames w) ≠ cn_itemVisible (classNames w) →
  isShownWithItems w = Ret true w →
  activeItem (elements w) = Elem x →
  x ∉ visibleItems w →
  ∃ w', handleKeydown "ArrowUp" w = TypeError w'
        ∧ activeItem (elements w') = Undefined.
Proof.
  intros Hsc Hne Hshown Hact Hx.
  rewrite (handleKeydown_arrow w "ArrowUp") by (done || by left).
  rewrite Hact. destruct (nextActive_stale (visibleItems w) x Hx) as [_ ->].
  case_bool_decide; rewrite at_index_negative by lia; eauto.
Qed.

(** In the same states ArrowDown makes the first visible item active. *)
Lemma arrowDown_stale_first w x y rest :
  scaffolded w →
  cn_itemActive (classNames w) ≠ cn_itemVisible (classNames w) →
  isShownWithItems w = Ret true w →
  activeItem (elements w) = Elem x →
  x ∉ visibleItems w →
  visibleItems w = y :: rest →
  ∃ w', handleKeydown "ArrowDown" w = Ret tt w'
        ∧ activeItem (elements w') = Elem y.
Proof.
  intros Hsc Hne Hshown Hact Hx Hvis.
  rewrite (handleKeydown_arrow w "ArrowDown") by (done || by right).
  rewrite Hact. destruct (nextActive_stale (visibleItems w) x Hx) as [-> _].
  rewrite Hvis. change 0%Z with (Z.of_nat 0). rewrite at_index_nat. simpl. eauto.
Qed.

(** ** Every operation keeps a constructed instance scaffolded *)

Lemma keeps_scaffolded_classes {A} (m : M A) : preserves shape m → keeps scaffolded m.
Proof. intros H w Hsc. by apply (shape_scaffolded w). Qed.

Lemma scaffolded_allocated w : scaffolded w → allocated w.
Proof.
  intros Hsc.
  by destruct (scaffolded_inv w Hsc) as (? & ? & ? & ? & ? & ? & ? & ? & ? & ? & ? & ?).
Qed.

Lemma scaffolded_same w w' :
  page w' = page w → elements w' = elements w → (fresh w ≤ fresh w')%nat →
  scaffolded w → scaffolded w'.
Proof. intros Hp He Hf. apply scaffolded_mono; by rewrite ?He. Qed.

Ltac keep_scaffolded :=
  apply keeps_modify; intros ? ?;
  eapply scaffolded_same; [..|eassumption]; simpl; try done; try lia.

Lemma keeps_scaffolded_showItems : keeps scaffolded showItems.
Proof. apply keeps_scaffolded_classes. auto with frames. Qed.
#[export] Hint Resolve keeps_scaffolded_showItems : keeping.

Lemma keeps_scaffolded_hideItems : keeps scaffolded hideItems.
Proof. apply keeps_scaffolded_classes. auto with frames. Qed.
#[export] Hint Resolve keeps_scaffolded_hideItems : keeping.

Lemma keeps_scaffolded_handleInput : keeps scaffolded handleInput.
Proof. apply keeps_scaffolded_classes. auto with frames. Qed.
#[export] Hint Resolve keeps_scaffolded_handleInput : keeping.

Lemma keeps_scaffolded_setInput t : keeps scaffolded (setInput t).
Proof. apply keeps_scaffolded_classes. auto with frames. Qed.
#[export] Hint Resolve keeps_scaffolded_setInput : keeping.

Lemma keeps_scaffolded_handleKeydown key : keeps scaffolded (handleKeydown key).
Proof. apply keeps_scaffolded_classes. auto with frames. Qed.
#[export] Hint Resolve keeps_scaffolded_handleKeydown : keeping.

Lemma keeps_scaffolded_handleItemClick item : keeps scaffolded (handleItemClick item).
Proof. unfold handleItemClick. keep. Qed.
#[export] Hint Resolve keeps_scaffolded_handleItemClick : keeping.

Lemma keeps_scaffolded_clickOutside_fn els event :
  keeps scaffolded (clickOutside_fn els hideItems event).
Proof. unfold clickOutside_fn. keep. Qed.
#[export] Hint Resolve keeps_scaffolded_clickOutside_fn : keeping.

Lemma keeps_scaffolded_setItems strings : keeps scaffolded (setItems strings).
Proof.
  intros w Hsc. by destruct (setItems_scaffolded strings w Hsc) as (w' & -> & ? & _).
Qed.
#[export] Hint Resolve keeps_scaffolded_setItems : keeping.

Lemma keeps_scaffolded_generateHTML : keeps scaffolded generateHTML.
Proof.
  intros w Hsc.
  by destruct (generateHTML_scaffolded w (scaffolded_allocated w Hsc)) as (w' & -> & ? & _).
Qed.
#[export] Hint Resolve keeps_scaffolded_generateHTML : keeping.

Lemma keeps_scaffolded_clickOutside els : keeps scaffolded (clickOutside els).
Proof.
  intros w H. unfold clickOutside.
  do 3 (erewrite bind_Ret by reflexivity). simpl.
  eapply scaffolded_same; [..|exact H]; simpl; try done; lia.
Qed.
#[export] Hint Resolve keeps_scaffolded_clickOutside : keeping.

Lemma keeps_scaffolded_addEvents : keeps scaffolded addEvents.
Proof. unfold addEvents. keep; keep_scaffolded. Qed.
#[export] Hint Resolve keeps_scaffolded_addEvents : keeping.

Lemma keeps_scaffolded_removeEvents : keeps scaffolded removeEvents.
Proof. unfold removeEvents, run_cleanup. keep; keep_scaffolded. Qed.
#[export] Hint Resolve keeps_scaffolded_removeEvents : keeping.

Lemma keeps_scaffolded_init : keeps scaffolded init.
Proof. unfold init, isInit. keep; keep_scaffolded. Qed.
#[export] Hint Resolve keeps_scaffolded_init : keeping.

Lemma scaffolded_alter_wrapper f w wr :
  wrapper (elements w) = Some wr →
  (∀ e, generated (children (f e)) = generated (children e)) →
  scaffolded w → scaffolded (set_page (alter f wr) w).
Proof.
  intros Hwr Hf Hsc.
  assert (∀ l, is_Some (alter f wr (page w) !! l) ↔ is_Some (page w !! l)) as Hlive.
  { intros l. destruct (decide (wr = l)) as [->|].
    - rewrite lookup_alter_eq. apply fmap_is_Some.
    - by rewrite lookup_alter_ne. }
  destruct (scaffolded_inv w Hsc)
    as (wr' & iw & its & Hwr' & Hiw & Hits & Hnd & Hc1 & Hc2 & Hp & Hl & Halloc).
  assert (wr' = wr) as -> by congruence.
  assert (wr ≠ iw) as Hne.
  { apply NoDup_cons in Hnd as [Hni _]. set_solver. }
  unfold scaffolded. simpl. rewrite Hwr, Hiw, Hits.
  unfold children_of, parent_of in *. simpl.
  rewrite lookup_alter_ne by done. rewrite lookup_alter_eq.
  repeat split; try done.
  - destruct (page w !! wr) as [e|]; simpl in *; [|done]. by rewrite Hf.
  - eapply Forall_impl; [exact Hl|]. intros l. apply Hlive.
  - intros l e He. apply (allocated_lt w l Halloc). apply Hlive. eauto.
Qed.

Lemma keeps_scaffolded_destroyHTML : keeps scaffolded destroyHTML.
Proof.
  intros w H. unfold destroyHTML.
  destruct (wrapper (elements w)) as [wr|] eqn:Hwr.
  - erewrite bind_Ret by (unfold the_wrapper, deref; rewrite Hwr; reflexivity).
    do 2 (erewrite bind_Ret by reflexivity).
    destruct (parent_of w wr) as [p|].
    + repeat (erewrite bind_Ret by reflexivity). simpl.
      eapply scaffolded_same; [reflexivity..|simpl; lia|].
      apply scaffolded_alter_wrapper; [done|done|].
      eapply (scaffolded_same (set_page _ w)); [reflexivity..|simpl; lia|].
      apply scaffolded_alter_wrapper; [done| |done].
      intros e. simpl. apply generated_filter_input.
    + erewrite bind_Ret by reflexivity. simpl.
      eapply scaffolded_same; [..|exact H]; simpl; try done.
  - erewrite bind_TypeError; [done|].
    unfold the_wrapper, deref. by rewrite Hwr.
Qed.
#[export] Hint Resolve keeps_scaffolded_destroyHTML : keeping.

Lemma keeps_scaffolded_destroy : keeps scaffolded destroy.
Proof. unfold destroy, isInit. keep; keep_scaffolded. Qed.
#[export] Hint Resolve keeps_scaffolded_destroy : keeping.

Lemma keeps_scaffolded_perform a : keeps scaffolded (perform a).
Proof. destruct a; unfold perform; keep; try keep_scaffolded. Qed.

Lemma scaffolded_run acts w : scaffolded w → scaffolded (run acts w).
Proof.
  revert w. induction acts as [|a acts IH]; intros w H; simpl; [done|].
  apply IH. by apply keeps_scaffolded_perform.
Qed.

(** Construction on an input that does not carry the marker returns, with
    the marker set and the instance scaffolded. *)
Lemma constructor_scaffolds i o c :
  cn_init c ∉ inputClassList i →
  returns (constructor i o c) = true
  ∧ scaffolded (final (constructor i o c))
  ∧ initialised (final (constructor i o c)).
Proof.
  intros Hi. unfold constructor.
  assert (allocated (instance i o c)) as Halloc.
  { intros l e He. simpl in He. by rewrite lookup_empty in He. }
  destruct (generateHTML_scaffolded _ Halloc) as (w1 & Hgen & Hsc1 & Hcn1 & _).
  assert (∃ w2, (addEvents w1 = Ret tt w2) ∧ scaffolded w2) as (w2 & Hadd & Hsc2).
  { pose proof (keeps_scaffolded_addEvents w1 Hsc1) as H.
    unfold addEvents, clickOutside in *.
    repeat (erewrite bind_Ret in * by reflexivity). eauto. }
  assert (∃ w3, (if bool_decide (value (input w2) ≠ "") then handleInput else mret tt) w2
                = Ret tt w3 ∧ scaffolded w3) as (w3 & Hin & Hsc3).
  { case_bool_decide.
    - destruct (scaffolded_items w2 Hsc2) as (iw & its & Hiw & Hits & _).
      exists (filtered w2). split; [by eapply handleInput_eq|].
      pose proof (keeps_scaffolded_handleInput w2 Hsc2) as H'.
      by rewrite (handleInput_eq w2 iw its) in H'.
    - by exists w2. }
  assert (init (instance i o c)
          = (f ← get (λ w, onInit (options w));
             match f with
             | Some g => modify (emit (Callback g))
             | None => mret tt
             end)
              (set_input (with_inputClassList (λ s, s ∪ {[cn_init (classNames w3)]})) w3))
    as ->.
  { unfold init.
    rewrite (bind_Ret _ _ _ false (instance i o c))
      by (unfold isInit, get; simpl; by rewrite bool_decide_eq_false_2).
    rewrite (bind_Ret _ _ _ tt w1) by done.
    rewrite (bind_Ret _ _ _ tt w2) by done.
    rewrite (bind_Ret _ _ _ (value (input w2)) w2) by done.
    rewrite (bind_Ret _ _ _ tt w3) by done.
    rewrite (bind_Ret _ _ _ (classNames w3) w3) by done.
    by erewrite bind_Ret by reflexivity. }
  unfold get, mbind, M_bind. simpl.
  destruct (onInit (options w3)); simpl;
    (split; [done|]); (split; [by eapply scaffolded_same; [..|exact Hsc3]|]);
    unfold initialised; simpl; set_solver.
Qed.

(** The hypothesis of the claims on filtering, hiding and committing holds
    in every state a constructed widget can reach. *)
Lemma reachable_scaffolded i o c acts :
  cn_init c ∉ inputClassList i →
  scaffolded (run acts (final (constructor i o c))).
Proof. intros Hi. by apply scaffolded_run, constructor_scaffolds. Qed.

(** ** The outside-click listener *)

Lemma inside_spec els t up :
  inside els t up = true ↔ ∃ n, n ∈ t :: up ∧ n ∈ els.
Proof.
  revert t. induction up as [|p up IH]; intros t; simpl.
  - destruct (existsb _ els) eqn:E.
    + apply existsb_exists in E as (x & Hx & Hb). apply bool_decide_eq_true in Hb as <-.
      split; [|done]. intros _. exists t. split; [apply list_elem_of_here|].
      by apply list_elem_of_In.
    + split; [done|]. intros (n & Hn & Hels). apply list_elem_of_singleton in Hn as ->.
      assert (existsb (λ element, bool_decide (t = element)) els = true); [|congruence].
      apply existsb_exists. exists t. split; [by apply list_elem_of_In|].
      by apply bool_decide_eq_true.
  - destruct (existsb _ els) eqn:E.
    + apply existsb_exists in E as (x & Hx & Hb). apply bool_decide_eq_true in Hb as <-.
      split; [|done]. intros _. exists t. split; [apply list_elem_of_here|].
      by apply list_elem_of_In.
    + rewrite IH. split.
      * intros (n & Hn & Hels). exists n. split; [by apply list_elem_of_further|done].
      * intros (n & Hn & Hels). exists n. split; [|done].
        apply elem_of_cons in Hn as [->|Hn]; [|done].
        assert (existsb (λ element, bool_decide (t = element)) els = true); [|congruence].
        apply existsb_exists. exists t. split; [by apply list_elem_of_In|].
        by apply bool_decide_eq_true.
Qed.

(** The listener ignores a click whose target or one of its ancestors is
    among the elements it captured, and runs its callback otherwise. *)
Lemma clickOutside_fn_spec els callback event w :
  ((∃ n, n ∈ target event :: ancestors event ∧ n ∈ els) →
     clickOutside_fn els callback event w = Ret tt w)
  ∧ ((¬ ∃ n, n ∈ target event :: ancestors event ∧ n ∈ els) →
     clickOutside_fn els callback event w = callback w).
Proof.
  unfold clickOutside_fn. split; intros H.
  - apply inside_spec in H. by rewrite H.
  - destruct (inside els (target event) (ancestors event)) eqn:E; [|done].
    apply inside_spec in E. done.
Qed.

(** [clickOutside] registers one listener and [run_cleanup] on its handle
    removes it. *)
Lemma clickOutside_cleanup els w :
  match clickOutside els w with
  | Ret h w' =>
      onDocumentClick (listeners w')
      = onDocumentClick (listeners w) ++ [mkClickListener h els]
      ∧ (Forall (λ cl, handle cl ≠ h) (onDocumentClick (listeners w)) →
         onDocumentClick (listeners (final (run_cleanup h w')))
         = onDocumentClick (listeners w))
  | TypeError _ => False
  end.
Proof.
  unfold clickOutside. repeat (erewrite bind_Ret by reflexivity). simpl.
  split; [done|]. intros Hold.
  rewrite filter_app, filter_cons, decide_False by (intros H; by apply H).
  simpl. rewrite app_nil_r.
  induction Hold as [|cl cls Hcl _ IH]; [done|].
  by rewrite filter_cons, decide_True, IH.
Qed.

(** ** Construction in detail *)

Lemma elements_eta e wr iw its a :
  wrapper e = wr → itemsWrapper e = iw → itemElements e = its → activeItem e = a →
  e = mkElements wr iw its a.
Proof. destruct e. simpl. by intros -> -> -> ->. Qed.

(** What [generateHTML] builds: a wrapper that takes the place of the
    input and holds it, and under it the items wrapper with one element per
    suggestion. *)
Lemma generateHTML_spec w :
  allocated w →
  let cn := classNames w in
  let wr := fresh w in
  let iw := S (fresh w) in
  let strings := items (options w) in
  ∃ w',
    generateHTML w = Ret tt w'
    ∧ scaffolded w'
    ∧ elements w'
      = mkElements (Some wr) (Some iw) (Some (seq (S iw) (length strings)))
          (activeItem (elements w))
    ∧ input w'
      = with_inputClassList (λ s, s ∪ {[cn_input cn]})
          (with_inputParent (Generated wr) (input w))
    ∧ listeners w' = listeners w
    ∧ log w' = log w
    ∧ options w' = options w
    ∧ classNames w' = classNames w
    ∧ hasItemsVisible w' = hasItemsVisible w
    ∧ cleanupClickOutside w' = cleanupClickOutside w
    ∧ fresh w' = S iw + length strings
    ∧ map (text_of w') (seq (S iw) (length strings)) = strings
    ∧ ∀ l, page w' !! l
           = if decide (l = wr)
             then Some (mkElement {[cn_wrapper cn]} "" (Some (inputParent (input w)))
                          [InputNode; Generated iw] false)
             else if decide (l = iw)
             then Some (mkElement {[cn_itemsWrapper cn]} "" (Some (Generated wr))
                          (map Generated (seq (S iw) (length strings))) false)
             else if decide (S iw ≤ l < S iw + length strings)
             then (λ s, with_clickListener true (itemElement cn iw s))
                    <$> strings !! (l - S iw)
             else page w !! l.
Proof.
  intros Halloc cn wr iw strings.
  pose proof (allocated_fresh w (fresh w) Halloc (le_n _)) as Hnew.
  destruct (generateHTML_scaffolded w Halloc) as (w' & Hrun & Hsc & _).
  exists w'. split; [exact Hrun|]. split; [exact Hsc|].
  revert Hrun. unfold generateHTML.
  erewrite bind_Ret by reflexivity.
  unfold createElement at 1. erewrite bind_Ret by reflexivity.
  do 7 (erewrite bind_Ret by reflexivity).
  simpl.
  set (wG := set_input _ _).
  assert (page wG !! fresh w
          = Some (mkElement {[cn_wrapper (classNames w)]} ""
                    (Some (inputParent (input w))) [InputNode] false)) as HG.
  { subst wG. simpl. by rewrite lookup_alter_eq, lookup_alter_eq, lookup_insert_eq. }
  destruct (generateItems_spec (items (options w)) wG (fresh w))
    as (w'' & Hrun' & Hrest & Hiw & Hits & Hfresh & Hpage).
  - done.
  - by rewrite HG.
  - unfold children_of. by rewrite HG.
  - intros l e He. subst wG. simpl in *.
    destruct (decide (l = fresh w)) as [->|Hne]; [lia|].
    rewrite !lookup_alter_ne, lookup_insert_ne in He by done.
    apply Halloc in He. lia.
  - rewrite Hrun'. intros [= <-].
    destruct (rest_inv _ _ Hrest) as (Hin & Hls & Hlog & Hop & Hcn & Hhv & Hcl & Hact & Hwr).
    split; [by apply elements_eta|].
    do 7 (split; [done|]).
    split; [exact Hfresh|].
    split.
    { destruct (generateItems_scaffolded (items (options w)) wG (fresh w))
        as (w3 & Hrun3 & _ & _ & _ & Hits3 & Htxt3 & _).
      - done.
      - by rewrite HG.
      - unfold children_of. by rewrite HG.
      - intros l e He. subst wG. simpl in *.
        destruct (decide (l = fresh w)) as [->|Hne]; [lia|].
        rewrite !lookup_alter_ne, lookup_insert_ne in He by done.
        apply Halloc in He. lia.
      - rewrite Hrun' in Hrun3. injection Hrun3 as <-.
        by rewrite Hits3 in Htxt3. }
    intros l. rewrite Hpage. fold wr iw strings.
    change (fresh wG) with (S (fresh w)). fold iw. change (classNames wG) with cn.
    unfold wr, iw in *.
    repeat case_decide; try lia; try done.
    + subst l. by rewrite HG.
    + subst wG. simpl. by rewrite !lookup_alter_ne, lookup_insert_ne.
Qed.

Lemma addEvents_spec w iw :
  itemsWrapper (elements w) = Some iw →
  ∃ w',
    addEvents w = Ret tt w'
    ∧ page w' = page w
    ∧ elements w' = elements w
    ∧ input w' = input w
    ∧ log w' = log w
    ∧ options w' = options w
    ∧ classNames w' = classNames w
    ∧ hasItemsVisible w' = hasItemsVisible w
    ∧ fresh w' = S (fresh w)
    ∧ listeners w'
      = mkListeners true true
          (onDocumentClick (listeners w)
             ++ [mkClickListener (fresh w) [InputNode; Generated iw]])
    ∧ cleanupClickOutside w' = Some (fresh w).
Proof.
  intros Hiw. unfold addEvents, clickOutside.
  do 2 (erewrite bind_Ret by reflexivity).
  rewrite (bind_Ret _ _ _ (Some iw) _) by (unfold get; simpl; by rewrite Hiw).
  repeat (erewrite bind_Ret by reflexivity).
  eexists. split; [reflexivity|]. by repeat split.
Qed.

Lemma filtered_nonempty w :
  value (input w) ≠ "" →
  elements (filtered w) = elements w ∧ input (filtered w) = input w.
Proof.
  intros Hv. unfold filtered. simpl.
  rewrite bool_decide_eq_false_2 by (by rewrite toLowerCase_empty).
  by destruct (shown_frame w) as (-> & -> & _).
Qed.

Lemma matches_empty text : matches "" text = true.
Proof. unfold matches. simpl. by destruct (toLowerCase text). Qed.

(** [init] on an instance whose input is not marked: the states it goes
    through. *)
Lemma init_eq w :
  allocated w → ¬ initialised w →
  ∃ w1 w2,
    generateHTML w = Ret tt w1
    ∧ addEvents w1 = Ret tt w2
    ∧ let w3 := if bool_decide (value (input w2) ≠ "") then filtered w2 else w2 in
      let w4 := set_input (with_inputClassList (λ s, s ∪ {[cn_init (classNames w3)]})) w3 in
      init w = Ret tt (match onInit (options w4) with
                       | Some g => emit (Callback g) w4
                       | None => w4
                       end).
Proof.
  intros Halloc Hni.
  destruct (generateHTML_spec w Halloc) as (w1 & Hgen & Hsc1 & Hel1 & _).
  destruct (addEvents_spec w1 (S (fresh w))) as (w2 & Hadd & Hp2 & Hel2 & _).
  { by rewrite Hel1. }
  exists w1, w2. split; [done|]. split; [done|]. simpl.
  set (w3 := if bool_decide _ then _ else _).
  assert ((if bool_decide (value (input w2) ≠ "") then handleInput else mret tt) w2
          = Ret tt w3) as Hin.
  { subst w3. case_bool_decide; [|done].
    eapply handleInput_eq; rewrite Hel2, Hel1; done. }
  unfold init.
  rewrite (bind_Ret _ _ _ false w)
    by (unfold isInit, get; by rewrite bool_decide_eq_false_2).
  rewrite (bind_Ret _ _ _ tt w1) by done.
  rewrite (bind_Ret _ _ _ tt w2) by done.
  rewrite (bind_Ret _ _ _ (value (input w2)) w2) by done.
  rewrite (bind_Ret _ _ _ tt w3) by done.
  rewrite (bind_Ret _ _ _ (classNames w3) w3) by done.
  erewrite bind_Ret by reflexivity.
  unfold get, mbind, M_bind. simpl.
  by destruct (onInit (options w3)).
Qed.

(** ** Destruction in detail *)

Lemma destroy_spec w wr h :
  initialised w →
  wrapper (elements w) = Some wr →
  cleanupClickOutside w = Some h →
  ∃ w',
    destroy w = Ret tt w'
    ∧ elements w' = elements w
    ∧ input w'
      = mkInput (id (input w)) (value (input w))
          (inputClassList (input w) ∖ {[cn_input (classNames w)]}
             ∖ {[cn_init (classNames w)]})
          (default (inputParent (input w)) (parent_of w wr))
    ∧ listeners w'
      = mkListeners false false
          (filter (λ cl, handle cl ≠ h) (onDocumentClick (listeners w)))
    ∧ log w'
      = log w ++ match onDestroy (options w) with Some g => [Callback g] | None => [] end
    ∧ options w' = options w
    ∧ classNames w' = classNames w
    ∧ hasItemsVisible w' = hasItemsVisible w
    ∧ cleanupClickOutside w' = cleanupClickOutside w
    ∧ fresh w' = fresh w
    ∧ page w'
      = match parent_of w wr with
        | Some _ =>
            alter (with_parentNode None) wr
              (alter (with_children (filter (λ n, n ≠ InputNode))) wr (page w))
        | None => page w
        end.
Proof.
  intros Hi Hwr Hcl.
  assert (∃ wD, destroyHTML w = Ret tt wD
                ∧ elements wD = elements w
                ∧ input wD
                  = mkInput (id (input w)) (value (input w))
                      (inputClassList (input w) ∖ {[cn_input (classNames w)]})
                      (default (inputParent (input w)) (parent_of w wr))
                ∧ listeners wD = listeners w ∧ log wD = log w
                ∧ options wD = options w ∧ classNames wD = classNames w
                ∧ hasItemsVisible wD = hasItemsVisible w
                ∧ cleanupClickOutside wD = cleanupClickOutside w
                ∧ fresh wD = fresh w
                ∧ page wD
                  = match parent_of w wr with
                    | Some _ =>
                        alter (with_parentNode None) wr
                          (alter (with_children (filter (λ n, n ≠ InputNode))) wr (page w))
                    | None => page w
                    end)
    as (wD & HD & HDel & HDin & HDls & HDlog & HDop & HDcn & HDhv & HDcl & HDfr & HDpg).
  { unfold destroyHTML.
    rewrite (bind_Ret _ _ _ wr w) by (unfold the_wrapper, deref; by rewrite Hwr).
    do 2 (erewrite bind_Ret by reflexivity).
    destruct (parent_of w wr) as [p|] eqn:Hp.
    - repeat (erewrite bind_Ret by reflexivity).
      eexists. split; [reflexivity|]. by repeat split.
    - repeat (erewrite bind_Ret by reflexivity).
      eexists. split; [reflexivity|]. repeat split; by destruct (input w). }
  assert (∃ wR, removeEvents wD = Ret tt wR
                ∧ page wR = page wD ∧ elements wR = elements wD ∧ input wR = input wD
                ∧ listeners wR
                  = mkListeners false false
                      (filter (λ cl, handle cl ≠ h) (onDocumentClick (listeners w)))
                ∧ log wR = log wD ∧ options wR = options wD
                ∧ classNames wR = classNames wD
                ∧ hasItemsVisible wR = hasItemsVisible wD
                ∧ cleanupClickOutside wR = cleanupClickOutside wD
                ∧ fresh wR = fresh wD)
    as (wR & HR & HRpg & HRel & HRin & HRls & HRlog & HRop & HRcn & HRhv & HRcl & HRfr).
  { unfold removeEvents, run_cleanup.
    do 2 (erewrite bind_Ret by reflexivity).
    erewrite bind_Ret by (unfold deref; simpl; rewrite HDcl, Hcl; reflexivity).
    eexists. split; [reflexivity|]. simpl. rewrite HDls. by repeat split. }
  unfold destroy.
  rewrite (bind_Ret _ _ _ true w)
    by (unfold isInit, get; by rewrite bool_decide_eq_true_2).
  cbn [negb].
  rewrite (bind_Ret _ _ _ tt wD) by done.
  rewrite (bind_Ret _ _ _ tt wR) by done.
  do 2 (erewrite bind_Ret by reflexivity).
  unfold get, mbind, M_bind. simpl.
  rewrite HRop, HDop.
  destruct (onDestroy (options w)); simpl; eexists; (split; [reflexivity|]);
    simpl; rewrite ?app_nil_r, ?HRel, ?HRin, ?HRls, ?HRlog, ?HRop, ?HRcn, ?HRhv,
      ?HRcl, ?HRfr, ?HRpg, ?HDin, ?HDlog, ?HDcn; by repeat split.
Qed.

(** ** The instance in use *)

Lemma preserves_createElement {A} (f : Widget → A) e :
  (∀ w g n, f (set_fresh n (set_page g w)) = f w) → preserves f (createElement e).
Proof. intros H w. unfold createElement. simpl. apply H. Qed.

Ltac unfold_methods :=
  unfold clickOutside_fn, handleKeydown, handleItemClick, handleArrowKey, setInput,
    handleInput, hideItems, showItems, clearActiveItemStyles, isShownWithItems,
    the_itemsWrapper, the_items, the_wrapper, classList_add, classList_remove.

Ltac frame_methods :=
  unfold_methods;
  repeat first [frame_step | apply preserves_createElement; intros; reflexivity].

Lemma preserves_options_perform a :
  keepsItems a = true → a ≠ CallInit → a ≠ CallDestroy →
  preserves options (perform a).
Proof. destruct a; intros; try done; unfold perform; frame_methods. Qed.

Lemma preserves_wiring_perform a :
  a ≠ CallInit → a ≠ CallDestroy → preserves wiring (perform a).
Proof.
  destruct a; intros; try done; unfold perform, setItems, generateItems, appendChild, remove;
    frame_methods.
Qed.

Lemma preserves_shape_perform a :
  keepsItems a = true → a ≠ CallInit → a ≠ CallDestroy →
  preserves shape (perform a).
Proof. destruct a; intros; try done; unfold perform; frame_methods. Qed.

Lemma wiring_inv w w' :
  wiring w' = wiring w →
  listeners w' = listeners w
  ∧ cleanupClickOutside w' = cleanupClickOutside w
  ∧ classNames w' = classNames w
  ∧ (initialised w' ↔ initialised w).
Proof.
  unfold wiring, initialised. intros [= -> -> Hc ->]. by rewrite Hc.
Qed.

Lemma live_weaken s w : live s w → live false w.
Proof.
  intros (Hsc & Htx & Hl). split; [done|]. split; [done|].
  destruct (decide (initialised w)); [|done].
  destruct Hl as (h & els & ? & ? & _). by exists h, els.
Qed.

Lemma live_same s w w' :
  shape w' = shape w → options w' = options w → wiring w' = wiring w →
  live s w → live s w'.
Proof.
  intros Hs Ho Hw (Hsc & Htx & Hl).
  destruct (shape_inv _ _ Hs) as (Hwr & Hiw & Hits & Hsk & Hfr).
  destruct (wiring_inv _ _ Hw) as (Hls & Hcl & Hcn & Hin).
  split; [exact (shape_scaffolded _ _ Hs Hsc)|]. split.
  - unfold itemsOf. rewrite Hits, Ho, <- Htx. apply map_ext.
    intros l. by apply sameSkeleton_text.
  - rewrite Hls, Hcl, Hiw.
    destruct (decide (initialised w')), (decide (initialised w)); tauto.
Qed.

Lemma keeps_live_classes {A} s (m : M A) :
  preserves shape m → preserves options m → preserves wiring m → keeps (live s) m.
Proof. intros Hs Ho Hw w H. exact (live_same s w _ (Hs w) (Ho w) (Hw w) H). Qed.

(** [init] on an instance whose input is not marked, in full. *)
Lemma init_spec w :
  allocated w → ¬ initialised w →
  let c := classNames w in
  let v := value (input w) in
  ∃ w' wr iw h,
    init w = Ret tt w'
    ∧ scaffolded w'
    ∧ wrapper (elements w') = Some wr
    ∧ itemsWrapper (elements w') = Some iw
    ∧ activeItem (elements w') = activeItem (elements w)
    ∧ map (text_of w') (itemsOf w') = items (options w)
    ∧ children_of w' wr = [InputNode; Generated iw]
    ∧ parent_of w' wr = Some (inputParent (input w))
    ∧ parent_of w' iw = Some (Generated wr)
    ∧ has_class w' wr (cn_wrapper c) = true
    ∧ has_class w' iw (cn_itemsWrapper c) = true
    ∧ input w'
      = mkInput (id (input w)) v
          (inputClassList (input w) ∪ {[cn_input c]} ∪ {[cn_init c]}) (Generated wr)
    ∧ (∀ l, l ∈ itemsOf w' → isVisible w' l = matches v (text_of w' l))
    ∧ (v ≠ "" → panelShown w' = true)
    ∧ (v = "" → cn_itemsWrapperVisible c ≠ cn_itemsWrapper c → panelShown w' = false)
    ∧ hasItemsVisible w'
      = (if bool_decide (v = "") then hasItemsVisible w
         else existsb (matches v) (items (options w)))
    ∧ listeners w'
      = mkListeners true true
          (onDocumentClick (listeners w) ++ [mkClickListener h [InputNode; Generated iw]])
    ∧ cleanupClickOutside w' = Some h
    ∧ log w'
      = log w ++ match onInit (options w) with Some g => [Callback g] | None => [] end
    ∧ options w' = options w
    ∧ classNames w' = c
    ∧ (∀ l, l < fresh w → page w' !! l = page w !! l).
Proof.
  intros Halloc Hi c v.
  destruct (init_eq w Halloc Hi) as (w1 & w2 & Hgen & Hadd & Hinit).
  destruct (generateHTML_spec _ Halloc)
    as (w1' & Hgen' & Hsc1 & Hel1 & Hin1 & Hls1 & Hlog1 & Hop1 & Hcn1 & Hhv1 & Hcl1
        & Hfr1 & Htxt1 & Hpg1).
  rewrite Hgen in Hgen'. injection Hgen' as <-.
  simpl in Hel1, Hin1, Hls1, Hlog1, Hop1, Hcn1, Hhv1, Hfr1, Htxt1, Hpg1.
  fold c in Hin1, Hpg1, Hcn1.
  set (o := options w) in *.
  remember (fresh w) as wr eqn:Ewr. remember (S wr) as iw eqn:Eiw.
  remember (seq (S iw) (length (items o))) as its eqn:Eits.
  destruct (addEvents_spec w1 iw) as (w2' & Hadd' & Hpg2 & Hel2 & Hin2 & Hlog2 & Hop2
                                      & Hcn2 & Hhv2 & Hfr2 & Hls2 & Hcl2).
  { by rewrite Hel1. }
  rewrite Hadd in Hadd'. injection Hadd' as <-.
  simpl in Hinit.
  set (w3 := if bool_decide (value (input w2) ≠ "") then filtered w2 else w2) in *.
  assert (scaffolded w2) as Hsc2.
  { eapply scaffolded_same; [exact Hpg2|exact Hel2|lia|exact Hsc1]. }
  assert (value (input w2) = v) as Hval2 by (by rewrite Hin2, Hin1).
  assert (itemsOf w2 = its) as Hits2.
  { unfold itemsOf. by rewrite Hel2, Hel1. }
  assert (∀ l, text_of w2 l = text_of w1 l) as Htx2.
  { intros l. unfold text_of. by rewrite Hpg2. }
  assert (scaffolded w3
          ∧ elements w3 = elements w2
          ∧ input w3 = input w2
          ∧ classNames w3 = c
          ∧ options w3 = o
          ∧ listeners w3 = listeners w2
          ∧ log w3 = log w
          ∧ cleanupClickOutside w3 = Some (fresh w1)
          ∧ sameSkeleton (page w2) (page w3)) as (Hsc3 & Hel3 & Hin3 & Hcn3 & Hop3 & Hls3
                                                   & Hlog3 & Hcl3 & Hsk3).
  { subst w3. case_bool_decide as Hv.
    - destruct (filtered_frame w2) as (_ & _ & _ & -> & -> & -> & -> & _ & -> & Hsk).
      destruct (filtered_nonempty w2 Hv) as [-> ->].
      split.
      { pose proof (keeps_scaffolded_handleInput w2 Hsc2) as H.
        erewrite handleInput_eq in H; [exact H|rewrite Hel2, Hel1; done..]. }
      rewrite Hcn2, Hcn1, Hop2, Hop1, Hlog2, Hlog1. done.
    - rewrite Hcn2, Hcn1, Hop2, Hop1, Hlog2, Hlog1.
      repeat split; try done. }
  set (w4 := set_input (with_inputClassList (λ s, s ∪ {[cn_init (classNames w3)]})) w3) in *.
  assert (∃ w', init w = Ret tt w'
               ∧ page w' = page w3 ∧ elements w' = elements w3 ∧ input w' = input w4
               ∧ listeners w' = listeners w3
               ∧ cleanupClickOutside w' = cleanupClickOutside w3
               ∧ options w' = o ∧ classNames w' = c
               ∧ hasItemsVisible w' = hasItemsVisible w3
               ∧ fresh w' = fresh w3
               ∧ log w' = log w ++ match onInit o with Some g => [Callback g] | None => [] end)
    as (w' & Hw & Hpg & Hel & Hin & Hls & Hcl & Hop & Hcn & Hhv & Hfr & Hlog).
  { rewrite Hinit. change (options w4) with (options w3). rewrite Hop3.
    destruct (onInit o); eexists; (split; [reflexivity|]); simpl;
      rewrite ?Hlog3, ?app_nil_r; by repeat split. }
  assert (sameSkeleton (page w1) (page w')) as Hsk.
  { rewrite Hpg, <- Hpg2. exact Hsk3. }
  assert (itemsOf w' = its) as Hits.
  { unfold itemsOf. by rewrite Hel, Hel3, Hel2, Hel1. }
  assert (wr ≠ iw ∧ (wr ∉ its) ∧ (iw ∉ its)
          ∧ ∀ l, l ∈ its ↔ S iw ≤ l < S iw + length (items o)) as (Hne1 & Hne2 & Hne3 & Hin').
  { subst its iw. rewrite !elem_of_seq. split; [lia|]. split; [lia|]. split; [lia|].
    intros l. by rewrite elem_of_seq. }
  assert (page w1 !! wr
          = Some (mkElement {[cn_wrapper c]} "" (Some (inputParent (input w)))
                    [InputNode; Generated iw] false)) as Hwr1.
  { rewrite Hpg1. by rewrite decide_True. }
  assert (page w1 !! (iw : loc)
          = Some (mkElement {[cn_itemsWrapper c]} "" (Some (Generated wr))
                    (map Generated its) false)) as Hiw1.
  { rewrite Hpg1. rewrite decide_False by done. by rewrite decide_True. }
  exists w', wr, iw, (fresh w1).
  split; [exact Hw|].
  split.
  { eapply scaffolded_same; [exact Hpg|exact Hel|lia|exact Hsc3]. }
  split; [by rewrite Hel, Hel3, Hel2, Hel1|].
  split; [by rewrite Hel, Hel3, Hel2, Hel1|].
  split; [by rewrite Hel, Hel3, Hel2, Hel1|].
  split.
  { rewrite Hits. etransitivity; [|exact Htxt1].
    apply map_ext. intros l. by apply sameSkeleton_text. }
  split.
  { rewrite (sameSkeleton_children w1 w' wr Hsk). unfold children_of. by rewrite Hwr1. }
  split.
  { rewrite (sameSkeleton_parent w1 w' wr Hsk). unfold parent_of. by rewrite Hwr1. }
  split.
  { rewrite (sameSkeleton_parent w1 w' iw Hsk). unfold parent_of. by rewrite Hiw1. }
  assert (∀ l cl, has_class w' l cl
                  = if bool_decide (v ≠ "") then has_class (filtered w2) l cl
                    else has_class w1 l cl) as Hhas.
  { intros l cl. unfold has_class. rewrite Hpg. subst w3. rewrite Hval2.
    destruct (bool_decide (v ≠ "")); [done|]. by rewrite Hpg2. }
  assert (∀ l, l ∈ its → is_Some (page w2 !! l)) as Hlive.
  { intros l Hl. destruct (scaffolded_items w2 Hsc2) as (? & its' & _ & Hits' & _ & _ & _ & H).
    apply H. unfold itemsOf in Hits2. rewrite Hits' in Hits2. simpl in Hits2. by subst its'. }
  split.
  { rewrite Hhas. case_bool_decide as Hv.
    - rewrite has_class_filtered_other by (by rewrite Hits2).
      rewrite bool_decide_eq_false_2 by (by rewrite toLowerCase_empty, Hval2).
      unfold shown. rewrite Hel2, Hel1. simpl. unfold has_class. simpl.
      rewrite lookup_alter_ne by done. rewrite Hpg2, Hwr1. simpl.
      apply bool_decide_eq_true. set_solver.
    - unfold has_class. rewrite Hwr1. simpl. apply bool_decide_eq_true. set_solver. }
  split.
  { rewrite Hhas. case_bool_decide as Hv.
    - rewrite has_class_filtered_other by (by rewrite Hits2).
      rewrite bool_decide_eq_false_2 by (by rewrite toLowerCase_empty, Hval2).
      unfold shown. rewrite Hel2, Hel1. simpl. unfold has_class. simpl.
      rewrite lookup_alter_eq. rewrite Hpg2, Hiw1. simpl.
      apply bool_decide_eq_true. rewrite Hcn2, Hcn1. set_solver.
    - unfold has_class. rewrite Hiw1. simpl. apply bool_decide_eq_true. set_solver. }
  split.
  { rewrite Hin. subst w4. simpl. rewrite Hin3, Hin2, Hin1, Hcn3. done. }
  split.
  { intros l Hl. rewrite Hits in Hl. unfold isVisible. rewrite Hcn, Hhas.
    rewrite (sameSkeleton_text w1 w' l Hsk), <- Htx2.
    case_bool_decide as Hv.
    - replace c with (classNames w2) by (by rewrite Hcn2).
      rewrite has_class_filtered; [by rewrite Hval2|by rewrite Hits2|by apply Hlive].
    - assert (v = "") as -> by (by destruct (decide (v = ""))).
      rewrite matches_empty. apply Hin' in Hl. unfold has_class.
      rewrite Hpg1. repeat case_decide; try lia.
      destruct (lookup_lt_is_Some_2 (items o) (l - S iw)) as [s Hs]; [lia|].
      rewrite Hs. simpl. apply bool_decide_eq_true. set_solver. }
  split.
  { intros Hv. unfold panelShown. rewrite Hel, Hel3, Hel2, Hel1, Hcn. simpl.
    rewrite Hhas, bool_decide_eq_true_2 by done.
    rewrite has_class_filtered_other by (by rewrite Hits2).
    rewrite bool_decide_eq_false_2 by (by rewrite toLowerCase_empty, Hval2).
    replace c with (classNames w2) by (by rewrite Hcn2).
    apply has_class_shown_panel; [by rewrite Hel2, Hel1|].
    rewrite Hpg2, Hiw1. eauto. }
  split.
  { intros Hv Hne. unfold panelShown. rewrite Hel, Hel3, Hel2, Hel1, Hcn. simpl.
    rewrite Hhas, bool_decide_eq_false_2 by (by intros []).
    unfold has_class. rewrite Hiw1. simpl. apply bool_decide_eq_false. set_solver. }
  split.
  { rewrite Hhv. subst w3. rewrite Hval2. case_bool_decide as Hv.
    - rewrite bool_decide_eq_false_2 by done. unfold filtered. simpl.
      rewrite Hval2, Hits2.
      transitivity (existsb (matches v) (map (text_of w1) its)); [|by rewrite Htxt1].
      clear -Htx2. induction its as [|x xs IH]; simpl; [done|].
      by rewrite IH, Htx2.
    - rewrite bool_decide_eq_true_2 by (by destruct (decide (v = ""))).
      by rewrite Hhv2, Hhv1. }
  split; [by rewrite Hls, Hls3, Hls2, Hls1|].
  split; [by rewrite Hcl, Hcl3|].
  split; [done|]. split; [done|]. split; [done|].
  intros l Hl. 
  assert (page w1 !! l = page w !! l) as Hold.
  { rewrite Hpg1. repeat case_decide; try lia; done. }
  rewrite Hpg. subst w3. destruct (bool_decide (value (input w2) ≠ "")) eqn:Hv.
  - apply bool_decide_eq_true in Hv.
    unfold filtered. simpl. rewrite lookup_markPage.
    rewrite decide_False by (rewrite Hits2, Hin'; lia).
    rewrite bool_decide_eq_false_2 by (by rewrite toLowerCase_empty).
    unfold shown. rewrite Hel2, Hel1. simpl. rewrite lookup_alter_ne by lia.
    by rewrite Hpg2.
  - by rewrite Hpg2.
Qed.

(** ** Replacing the suggestions, in detail *)

Lemma setItems_spec strings w :
  scaffolded w →
  let c := classNames w in
  ∃ w' wr iw iw',
    setItems strings w = Ret tt w'
    ∧ scaffolded w'
    ∧ wrapper (elements w) = Some wr
    ∧ itemsWrapper (elements w) = Some iw
    ∧ wrapper (elements w') = Some wr
    ∧ itemsWrapper (elements w') = Some iw'
    ∧ page w !! iw' = None
    ∧ (∀ l, l ∈ itemsOf w' → page w !! l = None)
    ∧ map (text_of w') (itemsOf w') = strings
    ∧ (∀ l, l ∈ itemsOf w' →
         ∃ s, page w' !! l
              = Some (mkElement ({[cn_item c]} ∪ {[cn_itemVisible c]}) s
                        (Some (Generated iw')) [] true))
    ∧ classList <$> page w' !! iw' = Some {[cn_itemsWrapper c]}
    ∧ parent_of w' iw = None
    ∧ generated (children_of w' wr) = [iw']
    ∧ (∀ l, l ∈ itemsOf w → page w' !! l = page w !! l)
    ∧ options w'
      = mkOptions (valueMatchItem (options w)) strings
          (onInit (options w)) (onDestroy (options w))
    ∧ input w' = input w
    ∧ listeners w' = listeners w
    ∧ log w' = log w
    ∧ classNames w' = c
    ∧ hasItemsVisible w' = hasItemsVisible w
    ∧ cleanupClickOutside w' = cleanupClickOutside w
    ∧ activeItem (elements w') = activeItem (elements w).
Proof.
  intros Hsc c.
  destruct (scaffolded_inv w Hsc)
    as (wr & iw & its & Hwr & Hiw & Hits & Hnd & Hc1 & Hc2 & Hp & Hlive & Halloc).
  pose proof Hnd as Hnd0.
  apply NoDup_cons in Hnd as [Hwr_ni Hnd].
  apply NoDup_cons in Hnd as [Hiw_ni _].
  apply Forall_cons in Hlive as [Hlwr Hlive]. apply Forall_cons in Hlive as [Hliw Hlits].
  assert (wr ≠ iw) as Hne by set_solver.
  destruct (setItems_scaffolded strings w Hsc) as (w'0 & Hrun0 & Hsc' & _).
  revert Hrun0.
  unfold setItems.
  erewrite bind_Ret by reflexivity.
  erewrite bind_Ret by (unfold get; simpl; rewrite Hiw; reflexivity).
  simpl.
  unfold remove at 1.
  erewrite (bind_Ret (modify _ ≫= _)) by reflexivity.
  erewrite bind_Ret by reflexivity.
  simpl.
  set (w2 := set_elements _ _).
  assert (∀ l, page w2 !! l
               = if decide (l = iw) then with_parentNode None <$> page w !! iw
                 else if decide (l = wr)
                      then with_children (filter (λ n, n ≠ Generated iw)) <$> page w !! wr
                      else page w !! l) as H2.
  { intros l. subst w2. simpl. unfold parent_of in Hp. destruct Hliw as [e He].
    rewrite He in Hp |- *. rewrite Hp.
    destruct (decide (l = iw)) as [->|]; [by rewrite lookup_alter_eq, lookup_alter_ne, He|].
    rewrite lookup_alter_ne by done.
    destruct (decide (l = wr)) as [->|]; [by rewrite lookup_alter_eq|].
    by rewrite lookup_alter_ne. }
  assert (allocated w2) as Halloc2.
  { intros l e He. apply (allocated_lt w l Halloc). rewrite H2 in He.
    repeat case_decide; subst; try done; by eapply fmap_is_Some. }
  destruct (generateItems_spec strings w2 wr)
    as (w' & Hrun & Hrest & Hiw' & Hits' & Hfresh & Hpage).
  - done.
  - rewrite H2. rewrite decide_False, decide_True by done. by apply fmap_is_Some.
  - unfold children_of. rewrite H2, decide_False, decide_True by done.
    destruct Hlwr as [e He].
    unfold children_of in Hc2. rewrite He in Hc2 |- *. simpl.
    rewrite generated_filter, Hc2, filter_cons, decide_False by (intros H; by apply H).
    done.
  - done.
  - rewrite Hrun. intros [= <-].
    destruct (rest_inv _ _ Hrest) as (Hin & Hls & Hlog & Hop & Hcn & Hhv & Hcl & Hact & Hwr').
    change (fresh w2) with (fresh w) in *. change (classNames w2) with c in *.
    remember (fresh w) as n eqn:En.
    assert (iw < n ∧ wr < n ∧ ∀ l, l ∈ its → l < n) as (Hlt1 & Hlt2 & Hlt3).
    { subst n. split; [by apply (allocated_lt w iw Halloc)|].
      split; [by apply (allocated_lt w wr Halloc)|].
      intros l Hl. apply (allocated_lt w l Halloc).
      rewrite Forall_forall in Hlits. by apply Hlits. }
    assert (itemsOf w' = seq (S n) (length strings)) as Hio.
    { unfold itemsOf. by rewrite Hits'. }
    exists w', wr, iw, n.
    split; [done|]. split; [done|]. split; [done|]. split; [done|].
    split; [by rewrite Hwr'|]. split; [done|].
    split; [subst n; by apply allocated_fresh|].
    split.
    { intros l Hl. rewrite Hio in Hl. apply elem_of_seq in Hl.
      subst n. apply allocated_fresh; [done|lia]. }
    split.
    { rewrite Hio. apply list_eq. intros i.
      rewrite list_lookup_fmap. destruct (decide (i < length strings)) as [Hi|Hi].
      - rewrite lookup_seq_lt by done. simpl. unfold text_of.
        rewrite Hpage. repeat case_decide; try lia.
        match goal with |- context [strings !! ?k] => replace k with i by lia end.
        destruct (lookup_lt_is_Some_2 strings i) as [s Hs]; [done|].
        by rewrite Hs.
      - rewrite lookup_seq_ge by lia. simpl. symmetry. apply lookup_ge_None. lia. }
    split.
    { intros l Hl. rewrite Hio in Hl. apply elem_of_seq in Hl.
      rewrite Hpage. repeat case_decide; try lia.
      destruct (lookup_lt_is_Some_2 strings (l - S n)) as [s Hs]; [lia|].
      rewrite Hs. by exists s. }
    split.
    { rewrite Hpage. repeat case_decide; try lia. done. }
    split.
    { unfold parent_of. rewrite Hpage. repeat case_decide; try lia.
      rewrite H2, decide_True by done. destruct Hliw as [e He]. by rewrite He. }
    split.
    { destruct (scaffolded_inv w' Hsc')
        as (wr2 & iw2 & its2 & Hwr2 & Hiw2 & _ & _ & _ & Hc2' & _).
      rewrite Hwr' in Hwr2. simpl in Hwr2. rewrite Hwr in Hwr2.
      injection Hwr2 as <-. rewrite Hiw' in Hiw2. injection Hiw2 as <-. exact Hc2'. }
    split.
    { intros l Hl. unfold itemsOf in Hl. rewrite Hits in Hl. simpl in Hl.
      pose proof (Hlt3 l Hl) as Hlt. rewrite Hpage.
      rewrite decide_False by (intros ->; set_solver).
      rewrite decide_False by lia. rewrite decide_False by lia.
      rewrite H2. rewrite decide_False by (intros ->; set_solver).
      by rewrite decide_False by (intros ->; set_solver). }
    by rewrite Hop, Hin, Hls, Hlog, Hhv, Hcl, Hact.
Qed.

(** ** The invariant of use *)

Lemma keeps_live_setItems strings : keeps (live false) (setItems strings).
Proof.
  intros w (Hsc & Htx & Hl).
  destruct (setItems_spec strings w Hsc)
    as (w' & wr & iw & iw' & Hrun & Hsc' & _ & _ & _ & _ & _ & _ & Htx' & _ & _ & _ & _ & _
        & Hop & Hin & Hls & _ & Hcn & _ & Hcl & _).
  rewrite Hrun. simpl. split; [done|]. split; [by rewrite Htx', Hop|].
  unfold initialised. rewrite Hin, Hcn, Hls, Hcl.
  destruct (decide (initialised w)) as [Hi|Hi].
  - rewrite decide_True by done. destruct Hl as (h & els & ? & ? & _). by exists h, els.
  - by rewrite decide_False by done.
Qed.

Lemma keeps_live_init s : keeps (live s) init.
Proof.
  intros w (Hsc & Htx & Hl).
  destruct (decide (initialised w)) as [Hi|Hi].
  - rewrite init_guard by done. simpl.
    eapply live_same; [..|split; [exact Hsc|split; [exact Htx|]]]; try done.
    by rewrite decide_True.
  - destruct (init_spec w (scaffolded_allocated w Hsc) Hi)
      as (w' & wr & iw & h & Hrun & Hsc' & _ & Hiw & _ & Htx' & _ & _ & _ & _ & _ & Hin & _
          & _ & _ & _ & Hls & Hcl & _ & Hop & Hcn & _).
    rewrite Hrun. simpl. split; [done|]. split; [by rewrite Htx', Hop|].
    rewrite decide_True by (unfold initialised; rewrite Hin, Hcn; simpl; set_solver).
    exists h, [InputNode; Generated iw]. rewrite Hls, Hl, Hiw. done.
Qed.

Lemma text_of_alter_skeleton f wr w l :
  (∀ e, innerText (f e) = innerText e) →
  text_of (set_page (alter f wr) w) l = text_of w l.
Proof.
  intros Hf. unfold text_of. simpl.
  destruct (decide (l = wr)) as [->|].
  - rewrite lookup_alter_eq. destruct (page w !! wr); simpl; [apply Hf|done].
  - by rewrite lookup_alter_ne.
Qed.

Lemma keeps_live_destroy s : keeps (live s) destroy.
Proof.
  intros w (Hsc & Htx & Hl).
  destruct (decide (initialised w)) as [Hi|Hi].
  - destruct Hl as (h & els & Hls & Hcl & _).
    destruct (scaffolded_inv w Hsc) as (wr & iw & its & Hwr & _).
    pose proof (keeps_scaffolded_destroy w Hsc) as Hsc'.
    destruct (destroy_spec w wr h Hi Hwr Hcl)
      as (w' & Hrun & Hel & Hin & Hls' & _ & Hop & Hcn & _ & _ & _ & Hpg).
    rewrite Hrun in Hsc' |- *. simpl in *. split; [done|]. split.
    + unfold itemsOf. rewrite Hel, Hop, <- Htx. apply map_ext. intros l.
      unfold text_of. rewrite Hpg. destruct (parent_of w wr); [|done].
      destruct (decide (l = wr)) as [->|].
      * rewrite !lookup_alter_eq. by destruct (page w !! wr).
      * by rewrite !lookup_alter_ne.
    + rewrite decide_False by (unfold initialised; rewrite Hin, Hcn; simpl; set_solver).
      rewrite Hls', Hls. simpl. rewrite filter_cons, decide_False by (simpl; tauto). done.
  - rewrite destroy_guard by done. simpl.
    eapply live_same; [..|split; [exact Hsc|split; [exact Htx|]]]; try done.
    by rewrite decide_False.
Qed.

Lemma keeps_live_perform s a :
  (s = true → keepsItems a = true) → keeps (live s) (perform a).
Proof.
  intros Hs.
  destruct a;
    try (apply keeps_live_classes;
         [apply preserves_shape_perform | apply preserves_options_perform
         | apply preserves_wiring_perform]; done).
  - destruct s; [by specialize (Hs eq_refl)|]. apply keeps_live_setItems.
  - apply keeps_live_init.
  - apply keeps_live_destroy.
Qed.

Lemma live_run s acts w :
  (s = true → forallb keepsItems acts = true) → live s w → live s (run acts w).
Proof.
  revert w. induction acts as [|a acts IH]; intros w Hs H; simpl; [done|].
  apply IH.
  - intros ->. specialize (Hs eq_refl). simpl in Hs. by apply andb_prop in Hs as [_ ?].
  - apply keeps_live_perform; [|done].
    intros ->. specialize (Hs eq_refl). simpl in Hs. by apply andb_prop in Hs as [? _].
Qed.

Lemma live_constructor i o c :
  cn_init c ∉ inputClassList i → live true (final (constructor i o c)).
Proof.
  intros Hi. unfold constructor.
  assert (allocated (instance i o c)) as Halloc.
  { intros l e He. simpl in He. by rewrite lookup_empty in He. }
  destruct (init_spec _ Halloc Hi)
    as (w' & wr & iw & h & Hrun & Hsc' & _ & Hiw & _ & Htx' & _ & _ & _ & _ & _ & Hin & _
        & _ & _ & _ & Hls & Hcl & _ & Hop & Hcn & _).
  rewrite Hrun. simpl. split; [done|]. split; [by rewrite Htx', Hop|].
  rewrite decide_True by (unfold initialised; rewrite Hin, Hcn; simpl; set_solver).
  exists h, [InputNode; Generated iw]. rewrite Hls, Hiw. done.
Qed.

Lemma live_reachable s i o c acts :
  cn_init c ∉ inputClassList i →
  (s = true → forallb keepsItems acts = true) →
  live s (run acts (final (constructor i o c))).
Proof.
  intros Hi Hs. apply live_run; [done|].
  destruct s; [by apply live_constructor | by eapply live_weaken, live_constructor].
Qed.

(** ** Properties of the life cycle *)

(** Plain text, and strings that are not: a doubled or a leading space,
    markup, a character reference. *)
Lemma plainText_examples :
  plainText "New York" = true
  ∧ plainText "" = true
  ∧ plainText "New  York" = false
  ∧ plainText " York" = false
  ∧ plainText "<b>Bold</b>" = false
  ∧ plainText "Tom &amp; Jerry" = false.
Proof. repeat split; reflexivity. Qed.

(** X1. [new Autocomplete(input, options, classNames)] with plain-text
    suggestions, on an input that does not carry the initialisation
    class, returns with the page built:
    a wrapper stands where the input stood and holds the input and the
    items wrapper; there is one item element per entry of
    [options.items], in order and with that text; the input carries the
    input class and the initialisation class; an item is visible exactly
    when it matches the initial text, and the panel is shown when that text
    is not empty; the keydown, input and document-click listeners are
    registered, the latter once, over the input and the items wrapper; and
    [onInit] has been called once if it is set. *)
Theorem X1_constructor_builds (i : InputElement) (o : Options) (c : ClassNames) :
  cn_init c ∉ inputClassList i →
  forallb plainText (items o) = true →
  ∃ w wr iw h,
    constructor i o c = Ret tt w
    ∧ scaffolded w
    ∧ wrapper (elements w) = Some wr
    ∧ itemsWrapper (elements w) = Some iw
    ∧ activeItem (elements w) = Null
    ∧ map (text_of w) (itemsOf w) = items o
    ∧ children_of w wr = [InputNode; Generated iw]
    ∧ parent_of w wr = Some (inputParent i)
    ∧ parent_of w iw = Some (Generated wr)
    ∧ has_class w wr (cn_wrapper c) = true
    ∧ has_class w iw (cn_itemsWrapper c) = true
    ∧ input w
      = mkInput (id i) (value i)
          (inputClassList i ∪ {[cn_input c]} ∪ {[cn_init c]}) (Generated wr)
    ∧ (∀ l, l ∈ itemsOf w → isVisible w l = matches (value i) (text_of w l))
    ∧ (value i ≠ "" → panelShown w = true)
    ∧ (value i = "" → cn_itemsWrapperVisible c ≠ cn_itemsWrapper c → panelShown w = false)
    ∧ hasItemsVisible w
      = negb (bool_decide (value i = "")) && existsb (matches (value i)) (items o)
    ∧ listeners w = mkListeners true true [mkClickListener h [InputNode; Generated iw]]
    ∧ cleanupClickOutside w = Some h
    ∧ log w = match onInit o with Some g => [Callback g] | None => [] end
    ∧ options w = o
    ∧ classNames w = c.
Proof.
  intros Hi _. unfold constructor.
  assert (allocated (instance i o c)) as Halloc.
  { intros l e He. simpl in He. by rewrite lookup_empty in He. }
  destruct (init_spec _ Halloc Hi)
    as (w & wr & iw & h & H1 & H2 & H3 & H4 & H5 & H6 & H7 & H8 & H9 & H10 & H11 & H12
        & H13 & H14 & H15 & H16 & H17 & H18 & H19 & H20 & H21 & _).
  simpl in *. exists w, wr, iw, h.
  do 15 (split; [assumption|]).
  split; [rewrite H16; by destruct (bool_decide (value i = ""))|].
  by repeat split.
Qed.

Lemma X1_witness :
  (cn_init DEFAULT_CLASS_NAMES ∉ inputClassList hostInput)
  ∧ forallb plainText (items fruit) = true
  ∧ ∃ w, constructor hostInput fruit DEFAULT_CLASS_NAMES = Ret tt w
         ∧ map (text_of w) (itemsOf w) = ["Apple"; "Banana"; "Cherry"].
Proof.
  assert (cn_init DEFAULT_CLASS_NAMES ∉ inputClassList hostInput) as H.
  { apply (bool_decide_unpack _); vm_compute; exact I. }
  split; [exact H|]. split; [reflexivity|].
  destruct (X1_constructor_builds hostInput fruit DEFAULT_CLASS_NAMES H eq_refl)
    as (w & wr & iw & h & H1 & _ & _ & _ & _ & H2 & _).
  exists w. split; [exact H1 | exact H2].
Defined.

(** X2. With plain-text suggestions at construction and in every call of
    [setItems], whatever the user and the host do after construction
    (typing, keys, clicks, [showItems], [hideItems], [setInput],
    [setItems], [init], [destroy], in any order, uncaught errors
    included), the generated elements stay in place, and the item
    elements show exactly the strings of [options.items], in order. *)
Theorem X2_items_mirror_options (i : InputElement) (o : Options) (c : ClassNames)
    (acts : list Action) :
  cn_init c ∉ inputClassList i →
  forallb plainText (items o) = true →
  forallb plainAction acts = true →
  scaffolded (run acts (final (constructor i o c)))
  ∧ map (text_of (run acts (final (constructor i o c))))
      (itemsOf (run acts (final (constructor i o c))))
    = items (options (run acts (final (constructor i o c)))).
Proof.
  intros Hi _ _. destruct (live_reachable false i o c acts Hi) as (? & ? & _); done.
Qed.

Lemma X2_witness :
  (cn_init DEFAULT_CLASS_NAMES ∉ inputClassList hostInput)
  ∧ forallb plainText (items fruit) = true
  ∧ forallb plainAction [CallSetItems ["One"; "Two"]; Type_ "o"] = true
  ∧ map (text_of (run [CallSetItems ["One"; "Two"]; Type_ "o"]
                    (final (constructor hostInput fruit DEFAULT_CLASS_NAMES))))
      (itemsOf (run [CallSetItems ["One"; "Two"]; Type_ "o"]
                  (final (constructor hostInput fruit DEFAULT_CLASS_NAMES))))
    = items (options (run [CallSetItems ["One"; "Two"]; Type_ "o"]
                        (final (constructor hostInput fruit DEFAULT_CLASS_NAMES)))).
Proof.
  assert (cn_init DEFAULT_CLASS_NAMES ∉ inputClassList hostInput) as H.
  { apply (bool_decide_unpack _); vm_compute; exact I. }
  split; [exact H|]. split; [reflexivity|]. split; [reflexivity|].
  exact (proj2 (X2_items_mirror_options hostInput fruit DEFAULT_CLASS_NAMES
                  [CallSetItems ["One"; "Two"]; Type_ "o"] H eq_refl eq_refl)).
Defined.

(** X3. [destroy] right after construction undoes it for the host: the
    input is back under its original parent with its original text and
    its original classes (less the input class, should the host have set
    it), no listener of the widget is left on the input or the document,
    the wrapper is off the page without the input in it, and the console
    saw nothing but the two callbacks, [onInit] then [onDestroy]. *)
Theorem X3_destroy_undoes_constructor (i : InputElement) (o : Options) (c : ClassNames) :
  cn_init c ∉ inputClassList i →
  ∃ w w' wr,
    constructor i o c = Ret tt w
    ∧ destroy w = Ret tt w'
    ∧ input w'
      = mkInput (id i) (value i) (inputClassList i ∖ {[cn_input c]}) (inputParent i)
    ∧ (cn_input c ∉ inputClassList i → input w' = i)
    ∧ listeners w' = mkListeners false false []
    ∧ wrapper (elements w') = Some wr
    ∧ parent_of w' wr = None
    ∧ (InputNode ∉ children_of w' wr)
    ∧ log w'
      = match onInit o with Some g => [Callback g] | None => [] end
        ++ match onDestroy o with Some g => [Callback g] | None => [] end
    ∧ ¬ initialised w'.
Proof.
  intros Hi. unfold constructor.
  assert (allocated (instance i o c)) as Halloc.
  { intros l e He. simpl in He. by rewrite lookup_empty in He. }
  destruct (init_spec _ Halloc Hi)
    as (w & wr & iw & h & Hrun & Hsc & Hwr & Hiw & _ & _ & Hch & Hpar & _ & _ & _ & Hin
        & _ & _ & _ & _ & Hls & Hcl & Hlog & Hop & Hcn & _).
  simpl in *.
  assert (initialised w) as Hinit.
  { unfold initialised. rewrite Hin, Hcn. simpl. set_solver. }
  destruct (destroy_spec w wr h Hinit Hwr Hcl)
    as (w' & Hrun' & Hel' & Hin' & Hls' & Hlog' & _ & Hcn' & _ & _ & _ & Hpg').
  rewrite Hpar in Hin', Hpg'. rewrite Hin, Hcn in Hin'. simpl in Hin'.
  assert ((inputClassList i ∪ {[cn_input c]} ∪ {[cn_init c]}) ∖ {[cn_input c]}
            ∖ {[cn_init c]}
          = inputClassList i ∖ {[cn_input c]}) as Hcls by set_solver.
  rewrite Hcls in Hin'.
  exists w, w', wr.
  split; [done|]. split; [done|]. split; [done|].
  split.
  { intros Hni. rewrite Hin'. destruct i as [? ? cls ?]. simpl in *. f_equal. set_solver. }
  split.
  { rewrite Hls', Hls. simpl. by rewrite filter_cons, decide_False by (simpl; tauto). }
  split; [by rewrite Hel'|].
  split.
  { unfold parent_of. rewrite Hpg', lookup_alter_eq.
    by destruct (alter _ wr (page w) !! wr). }
  split.
  { unfold children_of in *. rewrite Hpg', !lookup_alter_eq.
    destruct (page w !! wr) as [e|]; simpl in *; [|set_solver].
    rewrite Hch, !filter_cons, decide_False, decide_True by (try done; intros H; by apply H).
    rewrite filter_nil. set_solver. }
  split; [by rewrite Hlog', Hlog, Hop|].
  unfold initialised. rewrite Hin', Hcn', Hcn. simpl. set_solver.
Qed.

Lemma X3_witness :
  (cn_init DEFAULT_CLASS_NAMES ∉ inputClassList hostInput)
  ∧ ∃ w w', constructor hostInput fruit DEFAULT_CLASS_NAMES = Ret tt w
            ∧ destroy w = Ret tt w' ∧ input w' = hostInput
            ∧ listeners w' = mkListeners false false [].
Proof.
  assert (cn_init DEFAULT_CLASS_NAMES ∉ inputClassList hostInput) as H.
  { apply (bool_decide_unpack _); vm_compute; exact I. }
  split; [exact H|].
  destruct (X3_destroy_undoes_constructor hostInput fruit DEFAULT_CLASS_NAMES H)
    as (w & w' & wr & H1 & H2 & _ & H3 & H4 & _).
  exists w, w'. split; [exact H1|]. split; [exact H2|]. split; [|exact H4].
  apply H3. apply (bool_decide_unpack _); vm_compute; exact I.
Defined.

(** X4. [new Autocomplete] on an input that already carries the
    initialisation class logs the diagnostic and builds nothing: the page,
    the input and the listeners are untouched and the instance has no
    elements.  Such an instance is unusable: [showItems], [hideItems],
    [handleInput], [setInput], [setItems], [handleKeydown] and [destroy]
    all throw a [TypeError], [destroy] leaving the marker of the first
    instance in place. *)
Theorem X4_refused_construction_unusable (i : InputElement) (o : Options) (c : ClassNames) :
  cn_init c ∈ inputClassList i →
  ∃ w,
    constructor i o c = Ret tt w
    ∧ unbuilt w
    ∧ page w = ∅
    ∧ input w = i
    ∧ listeners w = mkListeners false false []
    ∧ log w = [ConsoleError ("Autocomplete is already initialized (id): " +:+ id i)]
    ∧ showItems w = TypeError w
    ∧ hideItems w = TypeError w
    ∧ handleInput w = TypeError w
    ∧ (∀ t, setInput t w = TypeError (set_input (with_value t) w))
    ∧ (∀ strings, returns (setItems strings w) = false)
    ∧ (∀ key, handleKeydown key w = TypeError w)
    ∧ destroy w = TypeError w.
Proof.
  intros Hi. unfold constructor. rewrite init_guard by done.
  eexists. split; [reflexivity|].
  split; [done|]. split; [done|]. split; [done|]. split; [done|]. split; [done|].
  split; [done|]. split; [done|].
  split.
  { unfold handleInput. erewrite bind_Ret by reflexivity.
    erewrite bind_TypeError; [done|]. by case_bool_decide. }
  split.
  { intros t. unfold setInput. erewrite bind_Ret by reflexivity.
    erewrite bind_TypeError; [done|].
    unfold handleInput. erewrite bind_Ret by reflexivity.
    erewrite bind_TypeError; [done|]. by case_bool_decide. }
  split.
  { intros strings. by rewrite setItems_unbuilt. }
  split; [done|].
  unfold destroy.
  rewrite (bind_Ret _ _ _ true _)
    by (unfold isInit, get; simpl; by rewrite bool_decide_eq_true_2).
  cbn [negb]. erewrite bind_TypeError; [done|]. done.
Qed.

Lemma X4_witness :
  (cn_init DEFAULT_CLASS_NAMES
     ∈ inputClassList (mkInput "search" "" {["is-init-autocomplete"]} (HostNode 0)))
  ∧ ∃ w, constructor (mkInput "search" "" {["is-init-autocomplete"]} (HostNode 0))
           fruit DEFAULT_CLASS_NAMES = Ret tt w
         ∧ destroy w = TypeError w.
Proof.
  assert (cn_init DEFAULT_CLASS_NAMES
            ∈ inputClassList (mkInput "search" "" {["is-init-autocomplete"]} (HostNode 0)))
    as H.
  { apply (bool_decide_unpack _); vm_compute; exact I. }
  split; [exact H|].
  destruct (X4_refused_construction_unusable _ fruit DEFAULT_CLASS_NAMES H)
    as (w & H1 & H2).
  exists w. split; [exact H1|]. apply H2.
Defined.

(** X5. At every moment after construction the widget's listeners are
    registered exactly while the input carries the initialisation class:
    then the input has its keydown and input listeners and the document
    has one click listener of the widget, the one [cleanup.clickOutside]
    removes; otherwise none is left, so that keys and clicks no longer
    reach the widget and typing only changes the text. *)
Theorem X5_listeners_follow_marker (i : InputElement) (o : Options) (c : ClassNames)
    (acts : list Action) :
  cn_init c ∉ inputClassList i →
  let w := run acts (final (constructor i o c)) in
  (initialised w →
     ∃ h els, listeners w = mkListeners true true [mkClickListener h els]
              ∧ cleanupClickOutside w = Some h)
  ∧ (¬ initialised w →
     listeners w = mkListeners false false []
     ∧ (∀ key, perform (Keydown key) w = Ret tt w)
     ∧ (∀ event, perform (ClickAt event) w = Ret tt w)
     ∧ (∀ text, perform (Type_ text) w = Ret tt (set_input (with_value text) w))).
Proof.
  intros Hi w. destruct (live_reachable false i o c acts Hi) as (_ & _ & Hl); [done|].
  fold w in Hl. split; intros Hw.
  - rewrite decide_True in Hl by done. destruct Hl as (h & els & ? & ? & _). eauto.
  - rewrite decide_False in Hl by done. split; [done|].
    split; [|split]; intros ?; unfold perform, get, modify, mbind, M_bind; simpl;
      by rewrite Hl.
Qed.

Lemma X5_witness :
  (cn_init DEFAULT_CLASS_NAMES ∉ inputClassList hostInput)
  ∧ perform (Keydown "ArrowDown")
      (run [Type_ "a"; CallDestroy] (final (constructor hostInput fruit DEFAULT_CLASS_NAMES)))
    = Ret tt
        (run [Type_ "a"; CallDestroy] (final (constructor hostInput fruit DEFAULT_CLASS_NAMES))).
Proof.
  assert (cn_init DEFAULT_CLASS_NAMES ∉ inputClassList hostInput) as H.
  { apply (bool_decide_unpack _); vm_compute; exact I. }
  split; [exact H|].
  destruct (X5_listeners_follow_marker hostInput fruit DEFAULT_CLASS_NAMES
              [Type_ "a"; CallDestroy] H) as [_ H2].
  destruct H2 as (_ & Hk & _).
  - apply (bool_decide_unpack _); vm_compute; exact I.
  - exact (Hk "ArrowDown").
Defined.

Lemma for_of_one {A} (x : A) (body : A → M unit) w :
  for_of [x] body w = body x w.
Proof.
  simpl. unfold mbind, M_bind. by destruct (body x w) as [[] ?|?].
Qed.

(** X6. After construction, whatever came before, the only handlers that
    can throw are those of the ArrowUp and ArrowDown keys: every other
    key, an input event, a click on an item or anywhere in the document,
    [showItems], [hideItems], [setInput], [setItems], [init] and
    [destroy] return. *)
Theorem X6_only_arrows_throw (i : InputElement) (o : Options) (c : ClassNames)
    (acts : list Action) (a : Action) :
  cn_init c ∉ inputClassList i →
  isArrow a = false →
  returns (perform a (run acts (final (constructor i o c)))) = true.
Proof.
  intros Hi Ha. destruct (live_reachable false i o c acts Hi) as (Hsc & _ & Hl); [done|].
  set (w := run acts (final (constructor i o c))) in *.
  destruct (scaffolded_items w Hsc) as (iw & its & Hiw & Hits & _).
  assert (∀ t w', itemsWrapper (elements w') = Some iw →
                  itemElements (elements w') = Some its →
                  returns (setInput t w') = true) as HsetInput.
  { intros t w' ? ?. by erewrite setInput_eq. }
  destruct a; unfold perform.
  - do 2 (erewrite bind_Ret by reflexivity).
    destruct (onInput _); [|done]. by erewrite handleInput_eq.
  - erewrite bind_Ret by reflexivity.
    destruct (onKeydown _); [|done].
    unfold handleKeydown. rewrite (bind_Ret _ _ _ _ _ (isShownWithItems_eq w iw Hiw)).
    destruct (panelShown w && hasItemsVisible w); [|done]. cbn [negb].
    simpl in Ha. apply orb_false_elim in Ha as [-> ->].
    case_bool_decide; [|done].
    erewrite bind_Ret by reflexivity.
    destruct (activeItem (elements w)); try done.
    erewrite bind_Ret by reflexivity. by apply HsetInput.
  - erewrite bind_Ret by reflexivity.
    destruct (match page w !! item with Some e => clickListener e | None => false end);
      [|done].
    by apply HsetInput.
  - erewrite bind_Ret by reflexivity.
    destruct (decide (initialised w)) as [Hw|Hw].
    + destruct Hl as (h & els & Hls & _). cbv beta. rewrite Hls.
      cbn [onDocumentClick]. rewrite for_of_one.
      unfold clickOutside_fn. destruct (inside _ _ _); [done|].
      by erewrite hideItems_eq.
    + cbv beta. by rewrite Hl.
  - by erewrite showItems_eq.
  - by erewrite hideItems_eq.
  - by apply HsetInput.
  - destruct (setItems_spec strings w Hsc) as (w' & ? & ? & ? & -> & _). done.
  - destruct (decide (initialised w)) as [Hw|Hw].
    + by rewrite init_guard.
    + destruct (init_spec w (scaffolded_allocated w Hsc) Hw) as (w' & ? & ? & ? & -> & _).
      done.
  - destruct (decide (initialised w)) as [Hw|Hw].
    + destruct Hl as (h & els & _ & Hcl & _).
      destruct (scaffolded_inv w Hsc) as (wr & _ & _ & Hwr & _).
      destruct (destroy_spec w wr h Hw Hwr Hcl) as (w' & -> & _). done.
    + by rewrite destroy_guard.
Qed.

Lemma X6_witness :
  (cn_init DEFAULT_CLASS_NAMES ∉ inputClassList hostInput)
  ∧ isArrow (Keydown "Enter") = false
  ∧ returns (perform (Keydown "Enter")
               (run [Type_ "a"; Keydown "ArrowDown"; Type_ "an"]
                  (final (constructor hostInput fruit DEFAULT_CLASS_NAMES)))) = true.
Proof.
  assert (cn_init DEFAULT_CLASS_NAMES ∉ inputClassList hostInput) as H.
  { apply (bool_decide_unpack _); vm_compute; exact I. }
  split; [exact H|]. split; [reflexivity|].
  exact (X6_only_arrows_throw hostInput fruit DEFAULT_CLASS_NAMES
           [Type_ "a"; Keydown "ArrowDown"; Type_ "an"] (Keydown "Enter") H eq_refl).
Defined.

(** X15. As long as [setItems] has not been called, the document-click
    listener of an initialised widget does nothing for a click on the
    input, on the items wrapper or on anything inside them, and calls
    [hideItems] for every other click. *)
Theorem X15_click_inside_ignored (i : InputElement) (o : Options) (c : ClassNames)
    (acts : list Action) (event : Click) :
  cn_init c ∉ inputClassList i →
  forallb keepsItems acts = true →
  let w := run acts (final (constructor i o c)) in
  initialised w →
  ∃ iw,
    itemsWrapper (elements w) = Some iw
    ∧ ((∃ n, n ∈ target event :: ancestors event ∧ (n = InputNode ∨ n = Generated iw)) →
       perform (ClickAt event) w = Ret tt w)
    ∧ ((¬ ∃ n, n ∈ target event :: ancestors event ∧ (n = InputNode ∨ n = Generated iw)) →
       perform (ClickAt event) w = hideItems w).
Proof.
  intros Hi Hacts w Hw.
  destruct (live_reachable true i o c acts Hi) as (Hsc & _ & Hl); [done|].
  fold w in Hsc, Hl. rewrite decide_True in Hl by done.
  destruct Hl as (h & els & Hls & _ & Hels). specialize (Hels eq_refl).
  destruct (scaffolded_items w Hsc) as (iw & its & Hiw & Hits & _).
  rewrite Hiw in Hels. simpl in Hels. subst els.
  exists iw. split; [done|].
  assert (perform (ClickAt event) w
          = clickOutside_fn [InputNode; Generated iw] hideItems event w) as ->.
  { unfold perform. erewrite bind_Ret by reflexivity. cbv beta. rewrite Hls.
    cbn [onDocumentClick]. by rewrite for_of_one. }
  destruct (clickOutside_fn_spec [InputNode; Generated iw] hideItems event w) as [H1 H2].
  split; intros H.
  - apply H1. destruct H as (n & ? & ?). exists n. set_solver.
  - apply H2. intros (n & ? & ?). apply H. exists n. set_solver.
Qed.

Lemma X15_witness :
  (cn_init DEFAULT_CLASS_NAMES ∉ inputClassList hostInput)
  ∧ forallb keepsItems [Type_ "a"; Keydown "ArrowDown"; Type_ "an"] = true
  ∧ initialised (run [Type_ "a"; Keydown "ArrowDown"; Type_ "an"]
                   (final (constructor hostInput fruit DEFAULT_CLASS_NAMES)))
  ∧ perform (ClickAt (mkClick InputNode [Generated 0; HostNode 0]))
      (run [Type_ "a"; Keydown "ArrowDown"; Type_ "an"]
         (final (constructor hostInput fruit DEFAULT_CLASS_NAMES)))
    = Ret tt (run [Type_ "a"; Keydown "ArrowDown"; Type_ "an"]
                (final (constructor hostInput fruit DEFAULT_CLASS_NAMES))).
Proof.
  assert (cn_init DEFAULT_CLASS_NAMES ∉ inputClassList hostInput) as H.
  { apply (bool_decide_unpack _); vm_compute; exact I. }
  assert (initialised (run [Type_ "a"; Keydown "ArrowDown"; Type_ "an"]
                         (final (constructor hostInput fruit DEFAULT_CLASS_NAMES)))) as Hw.
  { apply (bool_decide_unpack _); vm_compute; exact I. }
  split; [exact H|]. split; [reflexivity|]. split; [exact Hw|].
  destruct (X15_click_inside_ignored hostInput fruit DEFAULT_CLASS_NAMES
              [Type_ "a"; Keydown "ArrowDown"; Type_ "an"]
              (mkClick InputNode [Generated 0; HostNode 0]) H eq_refl Hw)
    as (iw & _ & Hin & _).
  apply Hin. exists InputNode. split; [apply list_elem_of_here|by left].
Defined.

(** ** Properties of keyboard navigation *)

Lemma at_index_elem its z y : at_index its z = Elem y → y ∈ its.
Proof.
  unfold at_index. destruct (z <? 0)%Z; [done|].
  destruct (its !! Z.to_nat z) as [l|] eqn:Hl; [|done].
  intros [= <-]. by eapply list_elem_of_lookup_2.
Qed.

Lemma nextActive_elem key its r y :
  key = "ArrowUp" ∨ key = "ArrowDown" →
  nextActive key its r = Elem y → y ∈ its.
Proof.
  unfold nextActive. intros [-> | ->]; simpl;
    destruct (truthy r && _); apply at_index_elem.
Qed.

Lemma nextActive_nil key r :
  key = "ArrowUp" ∨ key = "ArrowDown" → nextActive key [] r = Undefined.
Proof.
  unfold nextActive. intros [-> | ->]; simpl; by destruct (truthy r && _).
Qed.

Lemma at_index_0 y its : at_index (y :: its) 0 = Elem y.
Proof. done. Qed.

Lemma at_index_last its y :
  last its = Some y → at_index its (Z.of_nat (length its) - 1) = Elem y.
Proof.
  intros Hl. destruct its as [|x its]; [done|].
  replace (Z.of_nat (length (x :: its)) - 1)%Z with (Z.of_nat (length its))
    by (simpl; lia).
  rewrite at_index_nat. rewrite last_lookup in Hl. simpl in Hl. by rewrite Hl.
Qed.

(** ArrowDown finds a next item whenever some item is visible. *)
Lemma nextActive_down_total its r :
  NoDup its → its ≠ [] → ∃ y, nextActive "ArrowDown" its r = Elem y.
Proof.
  intros Hnd Hne. destruct its as [|z its]; [done|].
  destruct r as [| |x].
  - destruct (nextActive_none (z :: its) Null eq_refl) as [-> _]. by exists z.
  - destruct (nextActive_none (z :: its) Undefined eq_refl) as [-> _]. by exists z.
  - destruct (decide (x ∈ z :: its)) as [Hx|Hx].
    + apply list_elem_of_lookup in Hx as [i Hi].
      rewrite (nextActive_down _ i x Hnd Hi).
      destruct ((z :: its) !! S i); simpl; eauto.
    + destruct (nextActive_stale _ x Hx) as [-> _]. by exists z.
Qed.

(** ArrowUp finds a previous item whenever some item is visible and the
    active item, if there is one, is among the visible ones. *)
Lemma nextActive_up_total its r :
  NoDup its → its ≠ [] → (∀ x, r = Elem x → x ∈ its) →
  ∃ y, nextActive "ArrowUp" its r = Elem y.
Proof.
  intros Hnd Hne Hr.
  assert (∃ y, last its = Some y) as [z Hz].
  { destruct (last its) eqn:E; [eauto|]. by apply last_None in E. }
  destruct r as [| |x].
  - destruct (nextActive_none its Null eq_refl) as [_ ->]. rewrite (at_index_last _ z Hz). eauto.
  - destruct (nextActive_none its Undefined eq_refl) as [_ ->].
    rewrite (at_index_last _ z Hz). eauto.
  - destruct (list_elem_of_lookup_1 _ _ (Hr x eq_refl)) as [i Hi].
    rewrite (nextActive_up _ i x Hnd Hi).
    pose proof (lookup_lt_Some _ _ _ Hi) as Hlt.
    destruct i as [|j].
    + rewrite last_lookup in Hz. replace (length its - 1) with (pred (length its)) by lia.
      rewrite Hz. eauto.
    + destruct (lookup_lt_is_Some_2 its j) as [y Hy]; [lia|]. rewrite Hy. eauto.
Qed.

Lemma NoDup_List_filter {A} (f : A → bool) (l : list A) :
  NoDup l → NoDup (List.filter f l).
Proof.
  induction 1 as [|x l Hx Hnd IH]; simpl; [constructor|].
  destruct (f x); [|done]. constructor; [|done].
  intros Hin. apply Hx. apply list_elem_of_In, filter_In in Hin as [Hin _].
  by apply list_elem_of_In.
Qed.

Lemma visibleItems_items w :
  scaffolded w → NoDup (visibleItems w) ∧ ∀ l, l ∈ visibleItems w → l ∈ itemsOf w.
Proof.
  intros Hsc.
  destruct (scaffolded_inv w Hsc)
    as (wr & iw & its & Hwr & Hiw & Hits & Hnd & Hc1 & _).
  unfold visibleItems, querySelectorAll, itemsOf. rewrite Hiw, Hits, Hc1. simpl.
  apply NoDup_cons in Hnd as [_ Hnd]. apply NoDup_cons in Hnd as [_ Hnd].
  split; [by apply NoDup_List_filter|].
  intros l Hl. apply list_elem_of_In, filter_In in Hl as [Hl _].
  by apply list_elem_of_In.
Qed.

Lemma has_class_addClass_same c l w :
  is_Some (page w !! l) → has_class (addClass c l w) l c = true.
Proof.
  intros [e He]. unfold has_class. simpl. rewrite lookup_alter_eq, He. simpl.
  apply bool_decide_eq_true. set_solver.
Qed.

Lemma has_class_addClass_ne c l w l' c' :
  c ≠ c' → has_class (addClass c l w) l' c' = has_class w l' c'.
Proof.
  intros Hne. unfold has_class. simpl.
  destruct (decide (l' = l)) as [->|]; [|by rewrite lookup_alter_ne].
  rewrite lookup_alter_eq. destruct (page w !! l); simpl; [|done].
  apply bool_decide_ext. set_solver.
Qed.

(** An arrow key that finds an item: the handler returns, that item is
    the active item and the one highlighted item of the collection, and
    neither the visible items nor the input change. *)
Lemma arrow_moves w key y :
  key = "ArrowUp" ∨ key = "ArrowDown" →
  scaffolded w →
  cn_itemActive (classNames w) ≠ cn_itemVisible (classNames w) →
  isShownWithItems w = Ret true w →
  nextActive key (visibleItems w) (activeItem (elements w)) = Elem y →
  ∃ w',
    handleKeydown key w = Ret tt w'
    ∧ activeItem (elements w') = Elem y
    ∧ (∀ l, l ∈ itemsOf w → isActive w' l = bool_decide (l = y))
    ∧ visibleItems w' = visibleItems w
    ∧ itemsOf w' = itemsOf w
    ∧ input w' = input w.
Proof.
  intros Hkey Hsc Hne Hshown Hr.
  pose proof (handleKeydown_arrow w key Hkey Hsc Hne Hshown) as Hrun.
  simpl in Hrun. rewrite Hr in Hrun.
  destruct (visibleItems_items w Hsc) as [_ Hsub].
  pose proof (Hsub y (nextActive_elem key _ _ y Hkey Hr)) as Hy.
  destruct (scaffolded_items w Hsc) as (iw & its & Hiw & Hits & _ & _ & _ & Hlive).
  eexists. split; [exact Hrun|]. split; [done|]. split; [|split; [|done]].
  - intros l Hl. unfold isActive. simpl.
    destruct (decide (l = y)) as [->|Hly].
    + rewrite bool_decide_eq_true_2 by done. apply has_class_addClass_same. simpl.
      rewrite lookup_clearPage. unfold itemsOf in Hy. rewrite Hits in Hy. simpl in Hy.
      destruct (Hlive y Hy) as [e He]. rewrite He. by destruct (decide _).
    + rewrite bool_decide_eq_false_2 by done.
      rewrite has_class_addClass_other by done.
      by apply (has_class_cleared w).
  - unfold visibleItems at 1. simpl. rewrite Hiw.
    rewrite <- (visibleItems_cleared w iw (itemsOf w) Hiw Hne).
    unfold querySelectorAll. unfold children_of. simpl.
    rewrite lookup_alter_ne.
    + apply filter_ext. intros l. by rewrite has_class_addClass_ne.
    + intros ->. unfold itemsOf in Hy. rewrite Hits in Hy. simpl in Hy.
      destruct (scaffolded_items w Hsc) as (iw' & its' & Hiw' & Hits' & Hni & _).
      rewrite Hiw in Hiw'. injection Hiw' as <-. rewrite Hits in Hits'.
      injection Hits' as <-. done.
Qed.

(** X7. While the panel is shown with items and the active item is one of
    the visible items, ArrowDown returns and moves the highlight to the
    next visible item, from the last one back to the first: that item
    becomes the active item and the only highlighted item of the
    collection; the visible items and the input are unchanged. *)
Theorem X7_arrowDown_next (w : Widget) (i : nat) (x : loc) :
  scaffolded w →
  cn_itemActive (classNames w) ≠ cn_itemVisible (classNames w) →
  isShownWithItems w = Ret true w →
  activeItem (elements w) = Elem x →
  visibleItems w !! i = Some x →
  ∃ y w',
    visibleItems w !! (S i mod length (visibleItems w)) = Some y
    ∧ handleKeydown "ArrowDown" w = Ret tt w'
    ∧ activeItem (elements w') = Elem y
    ∧ (∀ l, l ∈ itemsOf w → isActive w' l = bool_decide (l = y))
    ∧ visibleItems w' = visibleItems w
    ∧ input w' = input w.
Proof.
  intros Hsc Hne Hshown Hact Hi.
  destruct (visibleItems_items w Hsc) as [Hnd _].
  pose proof (nextActive_down _ i x Hnd Hi) as Hnext. rewrite <- Hact in Hnext.
  pose proof (lookup_lt_Some _ _ _ Hi) as Hlt.
  assert (∃ y, visibleItems w !! (S i mod length (visibleItems w)) = Some y
               ∧ nextActive "ArrowDown" (visibleItems w) (activeItem (elements w)) = Elem y)
    as (y & Hy & Hr).
  { rewrite Hnext. destruct (decide (S i < length (visibleItems w))) as [Hs|Hs].
    - rewrite Nat.mod_small by done.
      destruct (lookup_lt_is_Some_2 (visibleItems w) (S i) Hs) as [y Hy].
      rewrite Hy. eauto.
    - assert (S i mod length (visibleItems w) = 0) as ->.
      { replace (S i) with (length (visibleItems w)) by lia. apply Nat.Div0.mod_same. }
      rewrite (lookup_ge_None_2 (visibleItems w) (S i)) by lia.
      destruct (lookup_lt_is_Some_2 (visibleItems w) 0) as [y Hy]; [lia|].
      rewrite Hy. eauto. }
  destruct (arrow_moves w "ArrowDown" y) as (w' & ? & ? & ? & ? & ? & ?); try done.
  { by right. }
  exists y, w'. done.
Qed.

Lemma X7_witness :
  scaffolded beforeSetItems
  ∧ cn_itemActive (classNames beforeSetItems) ≠ cn_itemVisible (classNames beforeSetItems)
  ∧ isShownWithItems beforeSetItems = Ret true beforeSetItems
  ∧ activeItem (elements beforeSetItems) = Elem 2
  ∧ visibleItems beforeSetItems !! 0 = Some 2
  ∧ ∃ y w', handleKeydown "ArrowDown" beforeSetItems = Ret tt w'
            ∧ activeItem (elements w') = Elem y.
Proof.
  assert (scaffolded beforeSetItems) as H1
    by (apply (bool_decide_unpack _); vm_compute; exact I).
  assert (cn_itemActive (classNames beforeSetItems)
          ≠ cn_itemVisible (classNames beforeSetItems)) as H2 by (intros H; vm_compute in H; discriminate H).
  assert (isShownWithItems beforeSetItems = Ret true beforeSetItems) as H3
    by (vm_compute; reflexivity).
  assert (activeItem (elements beforeSetItems) = Elem 2) as H4 by (vm_compute; reflexivity).
  assert (visibleItems beforeSetItems !! 0 = Some 2) as H5 by (vm_compute; reflexivity).
  do 5 (split; [assumption|]).
  destruct (X7_arrowDown_next beforeSetItems 0 2 H1 H2 H3 H4 H5)
    as (y & w' & _ & Hrun & Ha & _).
  exists y, w'. split; [exact Hrun | exact Ha].
Defined.

(** X8. While the panel is shown with items and the active item is one of
    the visible items, ArrowUp returns and moves the highlight to the
    previous visible item, from the first one back to the last, with the
    same effects as ArrowDown otherwise. *)
Theorem X8_arrowUp_previous (w : Widget) (i : nat) (x : loc) :
  scaffolded w →
  cn_itemActive (classNames w) ≠ cn_itemVisible (classNames w) →
  isShownWithItems w = Ret true w →
  activeItem (elements w) = Elem x →
  visibleItems w !! i = Some x →
  ∃ y w',
    visibleItems w !! ((i + length (visibleItems w) - 1) mod length (visibleItems w))
    = Some y
    ∧ handleKeydown "ArrowUp" w = Ret tt w'
    ∧ activeItem (elements w') = Elem y
    ∧ (∀ l, l ∈ itemsOf w → isActive w' l = bool_decide (l = y))
    ∧ visibleItems w' = visibleItems w
    ∧ input w' = input w.
Proof.
  intros Hsc Hne Hshown Hact Hi.
  destruct (visibleItems_items w Hsc) as [Hnd _].
  pose proof (nextActive_up _ i x Hnd Hi) as Hnext. rewrite <- Hact in Hnext.
  pose proof (lookup_lt_Some _ _ _ Hi) as Hlt.
  assert (∃ y, visibleItems w !! ((i + length (visibleItems w) - 1)
                                    mod length (visibleItems w)) = Some y
               ∧ nextActive "ArrowUp" (visibleItems w) (activeItem (elements w)) = Elem y)
    as (y & Hy & Hr).
  { rewrite Hnext. destruct i as [|j].
    - replace (0 + length (visibleItems w) - 1) with (length (visibleItems w) - 1) by lia.
      rewrite Nat.mod_small by lia.
      destruct (lookup_lt_is_Some_2 (visibleItems w) (length (visibleItems w) - 1))
        as [y Hy]; [lia|].
      rewrite Hy. eauto.
    - replace (S j + length (visibleItems w) - 1)
        with (j + 1 * length (visibleItems w)) by lia.
      rewrite Nat.Div0.mod_add, Nat.mod_small by lia.
      destruct (lookup_lt_is_Some_2 (visibleItems w) j) as [y Hy]; [lia|].
      rewrite Hy. eauto. }
  destruct (arrow_moves w "ArrowUp" y) as (w' & ? & ? & ? & ? & ? & ?); try done.
  { by left. }
  exists y, w'. done.
Qed.

Lemma X8_witness :
  scaffolded beforeSetItems
  ∧ cn_itemActive (classNames beforeSetItems) ≠ cn_itemVisible (classNames beforeSetItems)
  ∧ isShownWithItems beforeSetItems = Ret true beforeSetItems
  ∧ activeItem (elements beforeSetItems) = Elem 2
  ∧ visibleItems beforeSetItems !! 0 = Some 2
  ∧ ∃ y w', handleKeydown "ArrowUp" beforeSetItems = Ret tt w'
            ∧ activeItem (elements w') = Elem y.
Proof.
  assert (scaffolded beforeSetItems) as H1
    by (apply (bool_decide_unpack _); vm_compute; exact I).
  assert (cn_itemActive (classNames beforeSetItems)
          ≠ cn_itemVisible (classNames beforeSetItems)) as H2 by (intros H; vm_compute in H; discriminate H).
  assert (isShownWithItems beforeSetItems = Ret true beforeSetItems) as H3
    by (vm_compute; reflexivity).
  assert (activeItem (elements beforeSetItems) = Elem 2) as H4 by (vm_compute; reflexivity).
  assert (visibleItems beforeSetItems !! 0 = Some 2) as H5 by (vm_compute; reflexivity).
  do 5 (split; [assumption|]).
  destruct (X8_arrowUp_previous beforeSetItems 0 2 H1 H2 H3 H4 H5)
    as (y & w' & _ & Hrun & Ha & _).
  exists y, w'. split; [exact Hrun | exact Ha].
Defined.

(** X9. While the panel is shown with items and there is no active item
    ([null], or [undefined] after a failed move), ArrowDown makes the
    first visible item the active and only highlighted item, and ArrowUp
    the last visible item. *)
Theorem X9_arrows_without_active (w : Widget) (first final_ : loc) :
  scaffolded w →
  cn_itemActive (classNames w) ≠ cn_itemVisible (classNames w) →
  isShownWithItems w = Ret true w →
  truthy (activeItem (elements w)) = false →
  head (visibleItems w) = Some first →
  last (visibleItems w) = Some final_ →
  (∃ w', handleKeydown "ArrowDown" w = Ret tt w'
         ∧ activeItem (elements w') = Elem first
         ∧ (∀ l, l ∈ itemsOf w → isActive w' l = bool_decide (l = first))
         ∧ visibleItems w' = visibleItems w)
  ∧ (∃ w', handleKeydown "ArrowUp" w = Ret tt w'
           ∧ activeItem (elements w') = Elem final_
           ∧ (∀ l, l ∈ itemsOf w → isActive w' l = bool_decide (l = final_))
           ∧ visibleItems w' = visibleItems w).
Proof.
  intros Hsc Hne Hshown Hact Hfirst Hlast.
  destruct (nextActive_none (visibleItems w) _ Hact) as [Hd Hu].
  rewrite (at_index_last _ _ Hlast) in Hu.
  assert (at_index (visibleItems w) 0 = Elem first) as Hd'.
  { destruct (visibleItems w); [done|]. simpl in Hfirst. by injection Hfirst as ->. }
  rewrite Hd' in Hd.
  split.
  - destruct (arrow_moves w "ArrowDown" first) as (w' & ? & ? & ? & ? & _); try done.
    { by right. }
    by exists w'.
  - destruct (arrow_moves w "ArrowUp" final_) as (w' & ? & ? & ? & ? & _); try done.
    { by left. }
    by exists w'.
Qed.

Lemma X9_witness :
  scaffolded (run [Type_ "a"] fruitWidget)
  ∧ cn_itemActive (classNames (run [Type_ "a"] fruitWidget))
    ≠ cn_itemVisible (classNames (run [Type_ "a"] fruitWidget))
  ∧ isShownWithItems (run [Type_ "a"] fruitWidget) = Ret true (run [Type_ "a"] fruitWidget)
  ∧ truthy (activeItem (elements (run [Type_ "a"] fruitWidget))) = false
  ∧ head (visibleItems (run [Type_ "a"] fruitWidget)) = Some 2
  ∧ last (visibleItems (run [Type_ "a"] fruitWidget)) = Some 3
  ∧ ∃ w', handleKeydown "ArrowUp" (run [Type_ "a"] fruitWidget) = Ret tt w'
          ∧ activeItem (elements w') = Elem 3.
Proof.
  assert (scaffolded (run [Type_ "a"] fruitWidget)) as H1
    by (apply (bool_decide_unpack _); vm_compute; exact I).
  assert (cn_itemActive (classNames (run [Type_ "a"] fruitWidget))
          ≠ cn_itemVisible (classNames (run [Type_ "a"] fruitWidget))) as H2 by (intros H; vm_compute in H; discriminate H).
  assert (isShownWithItems (run [Type_ "a"] fruitWidget)
          = Ret true (run [Type_ "a"] fruitWidget)) as H3 by (vm_compute; reflexivity).
  assert (truthy (activeItem (elements (run [Type_ "a"] fruitWidget))) = false) as H4
    by (vm_compute; reflexivity).
  assert (head (visibleItems (run [Type_ "a"] fruitWidget)) = Some 2) as H5
    by (vm_compute; reflexivity).
  assert (last (visibleItems (run [Type_ "a"] fruitWidget)) = Some 3) as H6
    by (vm_compute; reflexivity).
  do 6 (split; [assumption|]).
  destruct (X9_arrows_without_active (run [Type_ "a"] fruitWidget) 2 3 H1 H2 H3 H4 H5 H6)
    as [_ (w' & Hrun & Ha & _)].
  exists w'. split; [exact Hrun | exact Ha].
Defined.

(** X10. While the panel is shown with items, ArrowDown throws exactly
    when no item is visible, and ArrowUp throws exactly when no item is
    visible or the active item is an element that is not among the visible
    items. *)
Theorem X10_arrow_failure (w : Widget) :
  scaffolded w →
  cn_itemActive (classNames w) ≠ cn_itemVisible (classNames w) →
  isShownWithItems w = Ret true w →
  (returns (handleKeydown "ArrowDown" w) = false ↔ visibleItems w = [])
  ∧ (returns (handleKeydown "ArrowUp" w) = false
     ↔ visibleItems w = []
       ∨ ∃ x, activeItem (elements w) = Elem x ∧ x ∉ visibleItems w).
Proof.
  intros Hsc Hne Hshown.
  destruct (visibleItems_items w Hsc) as [Hnd _].
  rewrite (handleKeydown_arrow w "ArrowDown") by (done || by right).
  rewrite (handleKeydown_arrow w "ArrowUp") by (done || by left).
  split; split.
  - intros Hret. destruct (decide (visibleItems w = [])) as [|Hvis]; [done|].
    destruct (nextActive_down_total _ (activeItem (elements w)) Hnd Hvis) as [y Hy].
    by rewrite Hy in Hret.
  - intros ->. by rewrite nextActive_nil by (by right).
  - intros Hret. destruct (decide (visibleItems w = [])) as [|Hvis]; [by left|]. right.
    destruct (activeItem (elements w)) as [| |x] eqn:Hact.
    + destruct (nextActive_up_total (visibleItems w) Null Hnd Hvis) as [y Hy]; [done|].
      by rewrite Hy in Hret.
    + destruct (nextActive_up_total (visibleItems w) Undefined Hnd Hvis) as [y Hy]; [done|].
      by rewrite Hy in Hret.
    + exists x. split; [done|]. intros Hx.
      destruct (nextActive_up_total (visibleItems w) (Elem x) Hnd Hvis) as [y Hy].
      { by intros ? [= <-]. }
      by rewrite Hy in Hret.
  - intros [-> | (x & -> & Hx)].
    + by rewrite nextActive_nil by (by left).
    + destruct (nextActive_stale _ x Hx) as [_ ->].
      case_bool_decide; by rewrite at_index_negative by lia.
Qed.

Lemma X10_witness :
  scaffolded staleActive
  ∧ cn_itemActive (classNames staleActive) ≠ cn_itemVisible (classNames staleActive)
  ∧ isShownWithItems staleActive = Ret true staleActive
  ∧ returns (handleKeydown "ArrowUp" staleActive) = false.
Proof.
  assert (scaffolded staleActive) as H1
    by (apply (bool_decide_unpack _); vm_compute; exact I).
  assert (cn_itemActive (classNames staleActive) ≠ cn_itemVisible (classNames staleActive))
    as H2 by (intros H; vm_compute in H; discriminate H).
  assert (isShownWithItems staleActive = Ret true staleActive) as H3
    by (vm_compute; reflexivity).
  do 3 (split; [assumption|]).
  apply (proj2 (X10_arrow_failure staleActive H1 H2 H3)).
  right. exists 2. split; [vm_compute; reflexivity|].
  apply (bool_decide_unpack _); vm_compute; exact I.
Defined.

(** ** Properties of filtering, committing and replacing *)

Lemma panelShown_filtered w :
  scaffolded w →
  panelShown (filtered w) = negb (bool_decide (value (input w) = "")).
Proof.
  intros Hsc.
  destruct (scaffolded_items w Hsc) as (iw & its & Hiw & Hits & Hni & _ & Hliw & _).
  destruct (filtered_frame w) as (Fiw & _ & _ & Fcn & _).
  assert (iw ∉ itemsOf w) as Hiw_its by (unfold itemsOf; by rewrite Hits).
  unfold panelShown. rewrite Fiw, Hiw, Fcn.
  rewrite has_class_filtered_other by done.
  destruct (decide (value (input w) = "")) as [Hv|Hv].
  - rewrite bool_decide_eq_true_2 by (by rewrite Hv).
    rewrite (bool_decide_eq_true_2 _ Hv). by apply has_class_hidden_panel.
  - rewrite bool_decide_eq_false_2 by (by rewrite toLowerCase_empty).
    rewrite (bool_decide_eq_false_2 _ Hv). by apply has_class_shown_panel.
Qed.

Lemma existsb_matches typed (f : loc → string) its :
  existsb (λ item, matches typed (f item)) its = true
  ↔ ∃ item, item ∈ its ∧ substring_of (toLowerCase typed) (toLowerCase (f item)).
Proof.
  rewrite existsb_exists. split.
  - intros (x & Hx & Hb). exists x. rewrite list_elem_of_In.
    by apply matches_spec in Hb.
  - intros (x & Hx & Hb). exists x. rewrite <- list_elem_of_In.
    by rewrite matches_spec.
Qed.

(** X11. After an input event the keyboard is live, that is
    [isShownWithItems()] holds, exactly when the text is not empty and
    some item of the collection contains it, case-insensitively; and the
    flag [temp.hasItemsVisible] then says whether some item of the
    collection is visible. *)
Theorem X11_keyboard_live_after_input (w : Widget) :
  scaffolded w →
  ∃ w' b,
    handleInput w = Ret tt w'
    ∧ isShownWithItems w' = Ret b w'
    ∧ (b = true
       ↔ value (input w) ≠ ""
         ∧ ∃ item, item ∈ itemsOf w
                   ∧ substring_of (toLowerCase (value (input w)))
                       (toLowerCase (text_of w item)))
    ∧ (hasItemsVisible w' = true
       ↔ ∃ item, item ∈ itemsOf w' ∧ isVisible w' item = true).
Proof.
  intros Hsc.
  destruct (scaffolded_items w Hsc) as (iw & its & Hiw & Hits & Hni & _ & Hliw & Hlive).
  destruct (filtered_frame w) as (Fiw & Fits & _ & Fcn & _).
  exists (filtered w), (panelShown (filtered w) && hasItemsVisible (filtered w)).
  split; [by eapply handleInput_eq|].
  split; [apply (isShownWithItems_eq _ iw); by rewrite Fiw|].
  assert (hasItemsVisible (filtered w)
          = existsb (λ item, matches (value (input w)) (text_of w item)) (itemsOf w))
    as Hhv by done.
  split.
  - rewrite panelShown_filtered, Hhv by done.
    rewrite andb_true_iff, negb_true_iff, bool_decide_eq_false, existsb_matches. done.
  - rewrite Hhv, existsb_matches. unfold itemsOf at 2. rewrite Fits.
    fold (itemsOf w). split; intros (item & Hitem & H); exists item; (split; [done|]).
    + unfold isVisible. rewrite Fcn, has_class_filtered, matches_spec; [done..|].
      apply Hlive. unfold itemsOf in Hitem. by rewrite Hits in Hitem.
    + unfold isVisible in H. rewrite Fcn, has_class_filtered, matches_spec in H; [done..|].
      apply Hlive. unfold itemsOf in Hitem. by rewrite Hits in Hitem.
Qed.

Lemma X11_witness :
  scaffolded fruitWidget
  ∧ ∃ w' b, handleInput fruitWidget = Ret tt w' ∧ isShownWithItems w' = Ret b w'.
Proof.
  assert (scaffolded fruitWidget) as H1
    by (apply (bool_decide_unpack _); vm_compute; exact I).
  split; [exact H1|].
  destruct (X11_keyboard_live_after_input fruitWidget H1) as (w' & b & Hrun & Hb & _).
  exists w', b. split; [exact Hrun | exact Hb].
Defined.




(** X13. [setItems(newItems)] with plain-text strings on a built instance
    returns with a new items
    wrapper in place of the old one, which is detached, and with new item
    elements, one per string of [newItems], in order, each carrying the
    item and item-visible classes and a click listener; [options.items]
    is [newItems].  The new wrapper does not carry the panel-visible
    class.  The input, the listeners, the old item elements, the active
    item and the flag [temp.hasItemsVisible] are as before. *)
Theorem X13_setItems_replaces (strings : list string) (w : Widget) :
  scaffolded w →
  forallb plainText strings = true →
  ∃ w' iw iw',
    setItems strings w = Ret tt w'
    ∧ scaffolded w'
    ∧ itemsWrapper (elements w) = Some iw
    ∧ itemsWrapper (elements w') = Some iw'
    ∧ page w !! iw' = None
    ∧ parent_of w' iw = None
    ∧ (∀ l, l ∈ itemsOf w' → page w !! l = None)
    ∧ map (text_of w') (itemsOf w') = strings
    ∧ (∀ l, l ∈ itemsOf w' →
         ∃ s, page w' !! l
              = Some (mkElement ({[cn_item (classNames w)]}
                                   ∪ {[cn_itemVisible (classNames w)]})
                        s (Some (Generated iw')) [] true))
    ∧ (cn_itemsWrapperVisible (classNames w) ≠ cn_itemsWrapper (classNames w) →
       panelShown w' = false)
    ∧ (∀ l, l ∈ itemsOf w → page w' !! l = page w !! l)
    ∧ options w'
      = mkOptions (valueMatchItem (options w)) strings
          (onInit (options w)) (onDestroy (options w))
    ∧ input w' = input w
    ∧ listeners w' = listeners w
    ∧ log w' = log w
    ∧ activeItem (elements w') = activeItem (elements w)
    ∧ hasItemsVisible w' = hasItemsVisible w.
Proof.
  intros Hsc _.
  destruct (setItems_spec strings w Hsc)
    as (w' & wr & iw & iw' & H1 & H2 & H3 & H4 & H5 & H6 & H7 & H8 & H9 & H10 & H11 & H12
        & H13 & H14 & H15 & H16 & H17 & H18 & H19 & H20 & H21 & H22).
  exists w', iw, iw'. repeat (split; [assumption|]).
  split.
  { intros Hne. unfold panelShown, has_class. rewrite H6, H19.
    destruct (page w' !! iw') as [e|]; [|done]. simpl in H11. injection H11 as ->.
    apply bool_decide_eq_false. set_solver. }
  by repeat split.
Qed.

Lemma X13_witness :
  scaffolded beforeSetItems
  ∧ forallb plainText ["One"; "Two"] = true
  ∧ ∃ w', setItems ["One"; "Two"] beforeSetItems = Ret tt w'
          ∧ map (text_of w') (itemsOf w') = ["One"; "Two"]
          ∧ activeItem (elements w') = activeItem (elements beforeSetItems).
Proof.
  assert (scaffolded beforeSetItems) as H1
    by (apply (bool_decide_unpack _); vm_compute; exact I).
  split; [exact H1|]. split; [reflexivity|].
  destruct (X13_setItems_replaces ["One"; "Two"] beforeSetItems H1 eq_refl)
    as (w' & iw & iw' & Hrun & _ & _ & _ & _ & _ & _ & Htx & _ & _ & _ & _ & _ & _ & _
        & Hact & _).
  exists w'. split; [exact Hrun|]. split; [exact Htx | exact Hact].
Defined.

(** X14. [clickOutside(elements, callback)] adds one click listener to the
    document and returns; the closure it returns removes that listener
    and no other.  The listener walks from the click target up its
    ancestors: it does nothing when the target or an ancestor is one of
    [elements], and it calls [callback] otherwise. *)
Theorem X14_clickOutside_listener (els : list Node) (w : Widget) :
  ∃ h w',
    clickOutside els w = Ret h w'
    ∧ onDocumentClick (listeners w')
      = onDocumentClick (listeners w) ++ [mkClickListener h els]
    ∧ (Forall (λ cl, handle cl ≠ h) (onDocumentClick (listeners w)) →
       onDocumentClick (listeners (final (run_cleanup h w')))
       = onDocumentClick (listeners w))
    ∧ ∀ (callback : M unit) (event : Click) (w0 : Widget),
        ((∃ n, n ∈ target event :: ancestors event ∧ n ∈ els) →
         clickOutside_fn els callback event w0 = Ret tt w0)
        ∧ ((¬ ∃ n, n ∈ target event :: ancestors event ∧ n ∈ els) →
           clickOutside_fn els callback event w0 = callback w0).
Proof.
  pose proof (clickOutside_cleanup els w) as H.
  destruct (clickOutside els w) as [h w'|]; [|done].
  destruct H as [H1 H2]. exists h, w'. split; [done|]. split; [done|]. split; [done|].
  intros callback event w0. apply clickOutside_fn_spec.
Qed.

(** ** What the user sees after typing *)

Lemma filter_map_commute {A B} (f : A → B) (p : B → bool) (q : A → bool) xs :
  (∀ x, x ∈ xs → q x = p (f x)) →
  map f (List.filter q xs) = List.filter p (map f xs).
Proof.
  induction xs as [|x xs IH]; intros H; simpl; [done|].
  rewrite (H x) by left. destruct (p (f x)); simpl; rewrite IH; try done;
    intros y Hy; apply H; by right.
Qed.

(** X20. With plain-text suggestions at construction and in every call of
    [setItems], at every moment after construction at which the widget is
    initialised, once the user has typed a text the items that carry the
    item-visible class show, in order, exactly the strings of
    [options.items] that contain the text case-insensitively: all of
    them for the empty text, and those of the latest [setItems] if there
    was one. *)
Theorem X20_visible_items_after_typing (i : InputElement) (o : Options) (c : ClassNames)
    (acts : list Action) (text : string) :
  cn_init c ∉ inputClassList i →
  forallb plainText (items o) = true →
  forallb plainAction acts = true →
  let w := run acts (final (constructor i o c)) in
  initialised w →
  ∃ w',
    perform (Type_ text) w = Ret tt w'
    ∧ value (input w') = text
    ∧ options w' = options w
    ∧ map (text_of w') (List.filter (isVisible w') (itemsOf w'))
      = List.filter (matches text) (items (options w)).
Proof.
  intros Hi _ _ w Hw.
  destruct (live_reachable false i o c acts Hi) as (Hsc & Htx & Hl); [done|].
  fold w in Hsc, Htx, Hl. rewrite decide_True in Hl by done.
  destruct Hl as (h & els & Hls & _).
  set (w1 := set_input (with_value text) w).
  assert (scaffolded w1) as Hsc1 by done.
  destruct (scaffolded_items w1 Hsc1) as (iw & its & Hiw & Hits & _ & _ & _ & Hlive).
  destruct (filtered_frame w1) as (_ & Fits & _ & Fcn & Fop & _ & _ & _ & _ & Fsk).
  exists (filtered w1).
  split.
  { unfold perform. do 2 (erewrite bind_Ret by reflexivity).
    change (listeners (set_input (with_value text) w)) with (listeners w).
    rewrite Hls. simpl. by eapply handleInput_eq. }
  split; [apply filtered_value|]. split; [done|].
  assert (itemsOf (filtered w1) = itemsOf w) as ->.
  { unfold itemsOf. by rewrite Fits. }
  rewrite <- Htx.
  rewrite <- (filter_map_commute (text_of w) (matches text) (isVisible (filtered w1))).
  - apply map_ext. intros l. by rewrite (sameSkeleton_text w1 (filtered w1) l Fsk).
  - intros l Hl. unfold isVisible. rewrite Fcn.
    change (classNames w1) with (classNames w1).
    rewrite has_class_filtered; [done|done|].
    apply Hlive. unfold itemsOf in Hl. simpl in Hits. by rewrite Hits in Hl.
Qed.

Lemma X20_witness :
  (cn_init DEFAULT_CLASS_NAMES ∉ inputClassList hostInput)
  ∧ forallb plainText (items fruit) = true
  ∧ forallb plainAction [CallSetItems ["One"; "Two"; "Three"]] = true
  ∧ initialised (run [CallSetItems ["One"; "Two"; "Three"]]
                   (final (constructor hostInput fruit DEFAULT_CLASS_NAMES)))
  ∧ ∃ w',
      perform (Type_ "t")
        (run [CallSetItems ["One"; "Two"; "Three"]]
           (final (constructor hostInput fruit DEFAULT_CLASS_NAMES))) = Ret tt w'
      ∧ map (text_of w') (List.filter (isVisible w') (itemsOf w')) = ["Two"; "Three"].
Proof.
  assert (cn_init DEFAULT_CLASS_NAMES ∉ inputClassList hostInput) as H.
  { apply (bool_decide_unpack _); vm_compute; exact I. }
  assert (initialised (run [CallSetItems ["One"; "Two"; "Three"]]
                         (final (constructor hostInput fruit DEFAULT_CLASS_NAMES)))) as Hw.
  { apply (bool_decide_unpack _); vm_compute; exact I. }
  split; [exact H|]. split; [reflexivity|]. split; [reflexivity|]. split; [exact Hw|].
  destruct (X20_visible_items_after_typing hostInput fruit DEFAULT_CLASS_NAMES
              [CallSetItems ["One"; "Two"; "Three"]] "t" H eq_refl eq_refl Hw)
    as (w' & Hrun & _ & _ & Hvis).
  exists w'. split; [exact Hrun|]. rewrite Hvis. vm_compute. reflexivity.
Defined.

(** ** [deepMerge]: stores and structures *)

Lemma alloc_spec o (h : Store) :
  h !! (alloc o h).1 = None ∧ (alloc o h).2 = <[(alloc o h).1 := o]> h.
Proof.
  unfold alloc. simpl. split; [|done].
  apply not_elem_of_dom, is_fresh.
Qed.

Lemma denotes_weaken n (h h' : Store) v t :
  h ⊆ h' → denotes n h v t → denotes n h' v t.
Proof.
  intros Hsub. revert v t. induction n as [|n IH]; intros v t; destruct v as [| |?|?|?|?|a]; simpl; try done.
  destruct (h !! a) as [o|] eqn:E; [|done].
  rewrite (lookup_weaken _ _ _ _ E Hsub).
  destruct o, t; try done; intros H; (eapply Forall2_impl; [exact H|]);
    [intros ? ? [? ?]; split; auto | auto].
Qed.

Lemma denotes_mono n (h : Store) v t : denotes n h v t → denotes (S n) h v t.
Proof.
  revert v t. induction n as [|n IH]; intros v t; destruct v as [| |?|?|?|?|a]; try done.
  intros H. change (denotes (S (S n)) h (JRef a) t) with
    (match h !! a, t with
     | Some (Plain props), Obj kvs =>
         Forall2 (λ p kv, p.1 = kv.1 ∧ denotes (S n) h p.2 kv.2) props kvs
     | Some (Array elems), Arr ts => Forall2 (denotes (S n) h) elems ts
     | _, _ => False
     end).
  simpl in H. destruct (h !! a) as [o|]; [|done].
  destruct o, t; try done; (eapply Forall2_impl; [exact H|]);
    [intros ? ? [? ?]; split; auto | auto].
Qed.

Lemma related_weaken n (h h' : Store) ps kvs :
  h ⊆ h' → related n h ps kvs → related n h' ps kvs.
Proof.
  intros Hsub H. eapply Forall2_impl; [exact H|].
  intros ? ? [? ?]. split; [done|]. by apply (denotes_weaken n h).
Qed.

Lemma related_keys n (h : Store) ps kvs : related n h ps kvs → ps.*1 = kvs.*1.
Proof.
  induction 1 as [|[k v] [k' t] ps kvs [Hk _] _ IH]; [done|].
  simpl in *. by f_equal.
Qed.

Lemma related_assoc n (h : Store) ps kvs key :
  related n h ps kvs →
  denotes n h (default JUndefined (assoc key ps)) (propT key kvs).
Proof.
  unfold propT.
  induction 1 as [|[k v] [k' t] ps kvs [Hk Hd] _ IH]; simpl in *.
  - by destruct n.
  - subst k'. by case_bool_decide.
Qed.

Lemma related_assign n (h : Store) ps kvs key v t :
  related n h ps kvs → denotes n h v t →
  related n h (assign key v ps) (assign key t kvs).
Proof.
  intros Hrel Hd.
  induction Hrel as [|[k x] [k' y] ps kvs [Hk Hx] Hrel IH]; simpl in *.
  - by repeat constructor.
  - subst k'. case_bool_decide; constructor; try done.
Qed.

Lemma Forall2_imap {A B} (R : string * A → string * B → Prop) (P : A → B → Prop)
    (xs : list A) (ys : list B) (f : nat → nat) :
  (∀ i x y, P x y → R (pretty (f i), x) (pretty (f i), y)) →
  Forall2 P xs ys →
  Forall2 R (imap (λ i x, (pretty (f i), x)) xs) (imap (λ i y, (pretty (f i), y)) ys).
Proof.
  intros HR H. revert f HR.
  induction H as [|x y xs ys Hxy _ IH]; intros f HR; [constructor|].
  rewrite !imap_cons. constructor; [by apply HR|].
  apply (IH (f ∘ S)). intros i. apply HR.
Qed.

Lemma denotes_entries n (h : Store) a o t :
  h !! a = Some o → denotes (S n) h (JRef a) t →
  related n h (entries o) (entriesT t).
Proof.
  intros Ha. simpl. rewrite Ha. destruct o, t; try done.
  intros H. unfold related. simpl.
  apply (Forall2_imap _ (denotes n h) elems ts (λ i, i)); [|done].
  intros i x y Hxy. done.
Qed.

Lemma denotes_ref_level n (h : Store) a t :
  denotes n h (JRef a) t → ∃ m o, n = S m ∧ h !! a = Some o.
Proof.
  destruct n as [|m]; [done|]. simpl.
  destruct (h !! a) as [o|]; [|done]. eauto.
Qed.

Lemma denotes_isArray n (h : Store) v t :
  denotes n h v t → isArray h v = isSequence t.
Proof.
  destruct n, v as [| |?|?|?|?|a]; simpl; try (by intros ->); try (by intros []).
  destruct (h !! a) as [[]|]; destruct t; by intros.
Qed.

Lemma denotes_isObject n (h : Store) v t :
  denotes n h v t → isObject v = isStructured t.
Proof.
  destruct n, v as [| |?|?|?|?|a]; simpl; try (by intros ->); try (by intros []).
  destruct (h !! a) as [[]|]; destruct t; by intros.
Qed.

Lemma denotes_elems n (h : Store) v t :
  denotes (S n) h v t → isSequence t = true →
  Forall2 (denotes n h) (elemsOf h v) (elemsT t).
Proof.
  destruct v as [| |?|?|?|?|a]; simpl; try (by intros ->).
  destruct (h !! a) as [[]|]; destruct t; by intros.
Qed.

Lemma isArray_weaken n (h h' : Store) v t :
  h ⊆ h' → denotes n h v t → isArray h' v = isArray h v.
Proof.
  intros Hsub Hd. rewrite (denotes_isArray n h v t Hd).
  apply (denotes_isArray n h' v t). by apply (denotes_weaken n h).
Qed.

Lemma elemsOf_weaken n (h h' : Store) v t :
  h ⊆ h' → denotes n h v t → elemsOf h' v = elemsOf h v.
Proof.
  intros Hsub Hd. destruct v as [| |?|?|?|?|a]; try done. simpl.
  apply denotes_ref_level in Hd as (m & o & _ & Ho).
  by rewrite (lookup_weaken _ _ _ _ Ho Hsub), Ho.
Qed.

(** The arguments of [concat] are spliced as they are when none of them
    is an array. *)
Lemma spread_flat n (h : Store) vs ts :
  Forall2 (denotes n h) vs ts →
  Forall (λ u, isSequence u = false ∧ flat n u) ts →
  spread h vs = vs.
Proof.
  unfold spread. induction 1 as [|v t vs ts Hd _ IH]; intros Hflat; [done|].
  apply Forall_cons in Hflat as [[Hseq _] Hflat]. simpl.
  rewrite (denotes_isArray n h v t Hd), Hseq. simpl. by rewrite IH.
Qed.

Lemma flat_Leaf n v : flat n (Leaf v).
Proof. by destruct n. Qed.

Lemma flat_propT n key kvs :
  Forall (λ kv, flat n kv.2) kvs → flat n (propT key kvs).
Proof.
  unfold propT. induction 1 as [|[k t] kvs Ht _ IH]; simpl.
  - apply flat_Leaf.
  - by case_bool_decide.
Qed.

Lemma flat_entriesT n t : flat (S n) t → Forall (λ kv, flat n kv.2) (entriesT t).
Proof.
  destruct t as [v|ts|kvs]; simpl; [constructor| |done].
  intros H. apply Forall_forall. intros [k u] Hin.
  apply elem_of_lookup_imap in Hin as (i & u' & Heq & Hu). injection Heq as -> ->.
  rewrite Forall_forall in H. apply (H u'). by eapply list_elem_of_lookup_2.
Qed.

Lemma Forall_assign {A} (P : string * A → Prop) key (v : A) kvs :
  (∀ k, P (k, v)) → Forall P kvs → Forall P (assign key v kvs).
Proof.
  intros Hv. induction 1 as [|[k x] kvs Hx Hrest IH]; simpl.
  - by repeat constructor.
  - case_bool_decide; constructor; try done.
Qed.

Lemma subseteq_insert_r (h g : Store) a o :
  h ⊆ g → h !! a = None → h ⊆ <[a := o]> g.
Proof. intros Hsub Hnone. by apply insert_subseteq_r. Qed.

Lemma combine_flat n rec p o :
  flat n p → flat n o →
  (isStructured p && isStructured o = true → flat n (Obj (rec [p; o]))) →
  flat n (combine rec p o).
Proof.
  intros Hp Ho Hrec. unfold combine.
  destruct (isSequence p && isSequence o) eqn:Eseq.
  - apply andb_true_iff in Eseq as [Hsp Hso].
    destruct p as [|ps|]; try done. destruct o as [|os|]; try done.
    destruct n as [|m]; [done|]. simpl in *. by apply Forall_app.
  - destruct (isStructured p && isStructured o) eqn:Estr; [by apply Hrec | done].
Qed.

Lemma setProp_eq (g : Store) prev key v ps :
  g !! prev = Some (Plain ps) →
  setProp prev key v g = <[prev := Plain (assign key v ps)]> g.
Proof. intros H. unfold setProp. by rewrite H. Qed.

(** One key of one input, against the same step on structures. *)
Lemma mergeKey_step n (h b : Store) prev g acc obj o t key :
  (∀ m p o' tp to (g bc : Store),
      n = S m → bc ⊆ g →
      denotes (S m) bc (JRef p) tp → denotes (S m) bc (JRef o') to →
      flat (S m) tp → flat (S m) to →
      merges m [p; o'] [tp; to] g bc) →
  accumulating n h b prev g acc →
  h !! prev = None →
  b !! obj = Some o →
  denotes (S n) b (JRef obj) t →
  flat (S n) t →
  ∃ g',
    mergeKey (deepMerge n) prev obj g key = Some g'
    ∧ accumulating n h b prev g'
        (assign key (combine (mergeTrees n) (propT key acc) (propT key (entriesT t))) acc).
Proof.
  intros Hrec (ps & bc & Hprev & Hhg & Hbbc & Hbcg & Hbcprev & Hagree & Hrel & Hflat)
    Hfresh Hobj Hden Hft.
  set (pT := propT key acc). set (oT := propT key (entriesT t)).
  assert (g !! obj = Some o) as Hgobj.
  { eapply lookup_weaken; [|exact Hbcg]. eapply lookup_weaken; [exact Hobj|exact Hbbc]. }
  assert (getProp g prev key = default JUndefined (assoc key ps)) as HpVal.
  { unfold getProp. by rewrite Hprev. }
  assert (getProp g obj key = default JUndefined (assoc key (entries o))) as HoVal.
  { unfold getProp. by rewrite Hgobj. }
  assert (denotes n bc (getProp g prev key) pT) as Hp.
  { rewrite HpVal. by apply related_assoc. }
  assert (denotes n bc (getProp g obj key) oT) as Ho.
  { rewrite HoVal. apply (denotes_weaken n b); [done|].
    apply related_assoc. by apply (denotes_entries n b obj). }
  assert (flat n pT) as Hfp by (by apply flat_propT).
  assert (flat n oT) as Hfo by (by apply flat_propT, flat_entriesT).
  set (pVal := getProp g prev key) in *. set (oVal := getProp g obj key) in *.
  unfold mergeKey. fold pVal oVal.
  rewrite (isArray_weaken n bc g pVal pT), (isArray_weaken n bc g oVal oT) by done.
  rewrite (denotes_isArray n bc pVal pT), (denotes_isArray n bc oVal oT) by done.
  rewrite (denotes_isObject n bc pVal pT), (denotes_isObject n bc oVal oT) by done.
  unfold combine. fold pT oT.
  destruct (isSequence pT && isSequence oT) eqn:Eseq.
  - (* two arrays: [pVal.concat(...oVal)] *)
    apply andb_true_iff in Eseq as [Hsp Hso].
    assert (∃ m, n = S m) as [m ->].
    { destruct pVal as [| |?|?|?|?|a]; try (destruct n; simpl in Hp; subst pT; by rewrite Hp in Hsp).
      apply denotes_ref_level in Hp as (m & _ & -> & _). eauto. }
    destruct (alloc_spec (Array (elemsOf g pVal ++ spread g (elemsOf g oVal))) g) as [Hc Hg1].
    destruct (alloc _ g) as [c g1]. simpl in Hc, Hg1. subst g1.
    assert (c ≠ prev) as Hcprev by (intros ->; congruence).
    assert (bc !! c = None) as Hbcc by (by eapply lookup_weaken_None).
    rewrite (setProp_eq _ prev key (JRef c) ps) by (by rewrite lookup_insert_ne).
    rewrite (elemsOf_weaken (S m) bc g pVal pT), (elemsOf_weaken (S m) bc g oVal oT) by done.
    pose proof (denotes_elems m bc pVal pT Hp Hsp) as Hpe.
    pose proof (denotes_elems m bc oVal oT Ho Hso) as Hoe.
    assert (spread g (elemsOf bc oVal) = elemsOf bc oVal) as ->.
    { apply (spread_flat m g _ (elemsT oT)).
      - eapply Forall2_impl; [exact Hoe|]. intros ? ?. by apply denotes_weaken.
      - destruct oT; try done. }
    eexists. split; [reflexivity|].
    exists (assign key (JRef c) ps), (<[c := Array (elemsOf bc pVal ++ elemsOf bc oVal)]> bc).
    assert (bc ⊆ <[c := Array (elemsOf bc pVal ++ elemsOf bc oVal)]> bc) as Hext
      by (by apply insert_subseteq).
    split; [by rewrite lookup_insert_eq|].
    split; [apply subseteq_insert_r; [|done];
            etrans; [exact Hhg | by apply insert_subseteq]|].
    split; [by etrans|].
    split; [apply subseteq_insert_r; [by apply insert_mono | by rewrite lookup_insert_ne]|].
    split; [by rewrite lookup_insert_ne|].
    split.
    { intros a Ha. rewrite lookup_insert_ne; [by apply Hagree|].
      intros ->. destruct Ha as [x Hx].
      by rewrite (lookup_weaken _ _ _ _ Hx Hhg) in Hc. }
    split.
    { apply related_assign; [by apply (related_weaken (S m) bc)|].
      simpl. rewrite lookup_insert_eq. apply Forall2_app.
      - eapply Forall2_impl; [exact Hpe|]. intros ? ?. by apply denotes_weaken.
      - eapply Forall2_impl; [exact Hoe|]. intros ? ?. by apply denotes_weaken. }
    apply Forall_assign; [|done]. intros k. simpl.
    destruct pT; try done. destruct oT; try done. simpl in *. by apply Forall_app.
  - destruct (isStructured pT && isStructured oT) eqn:Estr.
    + (* two objects: [deepMerge(pVal, oVal)] *)
      apply andb_true_iff in Estr as [Hsp Hso].
      destruct pVal as [| |?|?|?|?|p] eqn:EpVal;
        try (destruct n; simpl in Hp; subst pT; by rewrite Hp in Hsp).
      destruct oVal as [| |?|?|?|?|o'] eqn:EoVal;
        try (destruct n; simpl in Ho; subst oT; by rewrite Ho in Hso).
      destruct (denotes_ref_level _ _ _ _ Hp) as (m & _ & -> & _).
      destruct (Hrec m p o' pT oT g bc eq_refl Hbcg Hp Ho Hfp Hfo)
        as (c & g1 & bc1 & Hrun & Hgg1 & Hc & Hbc1 & Hbc1g & Hag1 & Hdc & Hfc).
      rewrite Hrun.
      rewrite (setProp_eq _ prev key (JRef c) ps)
        by (by eapply lookup_weaken).
      eexists. split; [reflexivity|].
      exists (assign key (JRef c) ps), bc1.
      assert (bc1 !! prev = None) as Hbc1prev.
      { rewrite Hag1 by eauto. done. }
      split; [by rewrite lookup_insert_eq|].
      split; [apply subseteq_insert_r; [by etrans|done]|].
      split; [by etrans|].
      split; [by apply subseteq_insert_r|].
      split; [done|].
      split.
      { intros a Ha. rewrite Hag1; [by apply Hagree|].
        destruct Ha as [x Hx]. exists x. by eapply lookup_weaken. }
      split; [apply related_assign; [by apply (related_weaken (S m) bc)|done]|].
      apply Forall_assign; [|done]. intros k. exact Hfc.
    + (* otherwise the later value wins *)
      rewrite (setProp_eq _ prev key oVal ps) by done.
      eexists. split; [reflexivity|].
      exists (assign key oVal ps), bc.
      split; [by rewrite lookup_insert_eq|].
      split; [by apply subseteq_insert_r|].
      split; [done|].
      split; [by apply subseteq_insert_r|].
      split; [done|]. split; [done|].
      split; [by apply related_assign|].
      apply Forall_assign; [|done]. intros k. exact Hfo.
Qed.

Lemma mergeKeys_fold n (h b : Store) prev obj o t ks :
  (∀ m p o' tp to (g bc : Store),
      n = S m → bc ⊆ g →
      denotes (S m) bc (JRef p) tp → denotes (S m) bc (JRef o') to →
      flat (S m) tp → flat (S m) to →
      merges m [p; o'] [tp; to] g bc) →
  h !! prev = None →
  b !! obj = Some o →
  denotes (S n) b (JRef obj) t →
  flat (S n) t →
  ∀ g acc,
    accumulating n h b prev g acc →
    ∃ g',
      foldM (mergeKey (deepMerge n) prev obj) g ks = Some g'
      ∧ accumulating n h b prev g'
          (foldl (λ acc key,
                    assign key
                      (combine (mergeTrees n) (propT key acc) (propT key (entriesT t)))
                      acc) acc ks).
Proof.
  intros Hrec Hfresh Hobj Hden Hft.
  induction ks as [|key ks IH]; intros g acc Hacc; simpl.
  - by exists g.
  - destruct (mergeKey_step n h b prev g acc obj o t key) as (g1 & -> & Hacc1); try done.
    by apply IH.
Qed.

Lemma accumulating_keys n (h b : Store) prev g acc obj o t :
  accumulating n h b prev g acc →
  b !! obj = Some o →
  denotes (S n) b (JRef obj) t →
  keys g obj = (entriesT t).*1.
Proof.
  intros (ps & bc & _ & _ & Hbbc & Hbcg & _) Hobj Hden.
  unfold keys.
  rewrite (lookup_weaken _ _ _ _ (lookup_weaken _ _ _ _ Hobj Hbbc) Hbcg).
  by apply (related_keys n b), (denotes_entries n b obj).
Qed.

Lemma mergeObjects_fold n (h b : Store) prev objs ts :
  (∀ m p o' tp to (g bc : Store),
      n = S m → bc ⊆ g →
      denotes (S m) bc (JRef p) tp → denotes (S m) bc (JRef o') to →
      flat (S m) tp → flat (S m) to →
      merges m [p; o'] [tp; to] g bc) →
  h !! prev = None →
  Forall2 (λ a t, denotes (S n) b (JRef a) t) objs ts →
  Forall (flat (S n)) ts →
  ∀ g acc,
    accumulating n h b prev g acc →
    ∃ g',
      foldM (λ g obj, foldM (mergeKey (deepMerge n) prev obj) g (keys g obj)) g objs
      = Some g'
      ∧ accumulating n h b prev g'
          (foldl (λ acc t,
                    foldl (λ acc key,
                             assign key
                               (combine (mergeTrees n) (propT key acc)
                                  (propT key (entriesT t)))
                               acc)
                      acc (entriesT t).*1)
             acc ts).
Proof.
  intros Hrec Hfresh Hden Hflat.
  induction Hden as [|obj t objs ts Hd _ IH]; intros g acc Hacc; simpl.
  - by exists g.
  - apply Forall_cons in Hflat as [Hft Hflat].
    destruct (denotes_ref_level _ _ _ _ Hd) as (? & o & _ & Hobj).
    rewrite (accumulating_keys n h b prev g acc obj o t) by done.
    destruct (mergeKeys_fold n h b prev obj o t (entriesT t).*1 Hrec Hfresh Hobj Hd Hft g acc Hacc)
      as (g1 & -> & Hacc1).
    by apply IH.
Qed.

Lemma deepMerge_S n objs (h : Store) :
  deepMerge (S n) objs h
  = let (prev, h0) := alloc (Plain []) h in
    match foldM (λ h obj, foldM (mergeKey (deepMerge n) prev obj) h (keys h obj))
            h0 objs with
    | Some h' => Some (prev, h')
    | None => None
    end.
Proof. done. Qed.

Lemma mergeTrees_S n ts :
  mergeTrees (S n) ts
  = foldl (λ acc t,
             foldl (λ acc key,
                      assign key
                        (combine (mergeTrees n) (propT key acc) (propT key (entriesT t)))
                        acc)
               acc (entriesT t).*1)
      [] ts.
Proof. done. Qed.

Lemma deepMerge_level n :
  (∀ m p o' tp to (g bc : Store),
      n = S m → bc ⊆ g →
      denotes (S m) bc (JRef p) tp → denotes (S m) bc (JRef o') to →
      flat (S m) tp → flat (S m) to →
      merges m [p; o'] [tp; to] g bc) →
  ∀ objs ts (h b : Store),
    b ⊆ h →
    Forall2 (λ a t, denotes (S n) b (JRef a) t) objs ts →
    Forall (flat (S n)) ts →
    merges n objs ts h b.
Proof.
  intros Hrec objs ts h b Hbh Hden Hflat.
  unfold merges. rewrite deepMerge_S, mergeTrees_S.
  destruct (alloc_spec (Plain []) h) as [Hprev Hg0].
  destruct (alloc (Plain []) h) as [prev g0]. simpl in Hprev, Hg0. subst g0.
  destruct (mergeObjects_fold n h b prev objs ts Hrec Hprev Hden Hflat
              (<[prev := Plain []]> h) [])
    as (g' & -> & (ps & bc & Hp & Hhg & Hbbc & Hbcg & Hbcprev & Hagree & Hrel & Hfl)).
  { exists [], b. split; [by rewrite lookup_insert_eq|].
    split; [by apply insert_subseteq|]. split; [done|].
    split; [etrans; [exact Hbh | by apply insert_subseteq]|].
    split; [by eapply lookup_weaken_None|].
    split; [done|]. split; constructor. }
  exists prev, g', (<[prev := Plain ps]> bc).
  split; [done|]. split; [done|]. split; [done|].
  split; [etrans; [exact Hbbc | by apply insert_subseteq]|].
  split; [by apply insert_subseteq_l|].
  split.
  { intros a Ha. rewrite lookup_insert_ne; [by apply Hagree|].
    intros ->. destruct Ha. congruence. }
  split; [|done].
  cbn [denotes]. rewrite lookup_insert_eq.
  apply (related_weaken n bc); [by apply insert_subseteq | done].
Qed.

(** [deepMerge] with enough fuel returns, mutates nothing that existed,
    and its result stands for the merge of what its arguments stand for. *)
Lemma deepMerge_merges n :
  ∀ objs ts (h b : Store),
    b ⊆ h →
    Forall2 (λ a t, denotes (S n) b (JRef a) t) objs ts →
    Forall (flat (S n)) ts →
    merges n objs ts h b.
Proof.
  induction n as [|n IHn]; apply deepMerge_level.
  - intros; discriminate.
  - intros m p o' tp to g bc Hm Hsub Hdp Hdo Hfp Hfo. injection Hm as <-.
    apply IHn; [done| |]; by repeat constructor.
Qed.

(** *** The merge of two mappings, key by key *)

Lemma assoc_assign {A} key k (v : A) kvs :
  assoc k (assign key v kvs) = if bool_decide (key = k) then Some v else assoc k kvs.
Proof.
  induction kvs as [|[k' x] kvs IH]; simpl.
  - done.
  - destruct (bool_decide (k' = key)) eqn:E1; simpl.
    + apply bool_decide_eq_true in E1 as ->.
      by destruct (bool_decide (key = k)).
    + rewrite IH. apply bool_decide_eq_false in E1.
      destruct (bool_decide (k' = k)) eqn:E2; [|done].
      apply bool_decide_eq_true in E2 as ->.
      by rewrite bool_decide_eq_false_2.
Qed.

Lemma assoc_keys {A} k (kvs : list (string * A)) :
  is_Some (assoc k kvs) ↔ k ∈ kvs.*1.
Proof.
  induction kvs as [|[k' x] kvs IH]; simpl.
  - split; [by intros [? ?] | by intros ?%elem_of_nil].
  - case_bool_decide as E.
    + subst. split; [intros _; apply list_elem_of_here | eauto].
    + rewrite IH. rewrite elem_of_cons. naive_solver.
Qed.

Lemma propT_assign_ne key k v kvs :
  key ≠ k → propT k (assign key v kvs) = propT k kvs.
Proof. intros Hne. unfold propT. by rewrite assoc_assign, bool_decide_eq_false_2. Qed.

Lemma assoc_foldl_assign (G : string → Tree → Tree) k ks acc :
  NoDup ks →
  assoc k (foldl (λ acc key, assign key (G key (propT key acc)) acc) acc ks)
  = if bool_decide (k ∈ ks) then Some (G k (propT k acc)) else assoc k acc.
Proof.
  revert acc. induction ks as [|key ks IH]; intros acc Hnd; cbn [foldl].
  - by rewrite bool_decide_eq_false_2 by apply not_elem_of_nil.
  - apply NoDup_cons in Hnd as [Hkey Hnd]. rewrite IH by done.
    destruct (decide (key = k)) as [->|Hne].
    + rewrite (bool_decide_eq_false_2 (k ∈ ks)) by done.
      rewrite (bool_decide_eq_true_2 (k ∈ k :: ks)) by apply list_elem_of_here.
      by rewrite assoc_assign, bool_decide_eq_true_2.
    + rewrite propT_assign_ne, assoc_assign by done.
      rewrite (bool_decide_eq_false_2 (key = k)) by done.
      destruct (decide (k ∈ ks)) as [Hin|Hin].
      * rewrite !bool_decide_eq_true_2; [done| |done]. by apply list_elem_of_further.
      * rewrite !bool_decide_eq_false_2; [done| |done].
        rewrite elem_of_cons. naive_solver.
Qed.

Lemma combine_undefined rec o : combine rec (Leaf JUndefined) o = o.
Proof. done. Qed.

(** For two mappings: a key of the later input gets the combination of
    the earlier value (or [undefined]) with the later one; any other key
    keeps the earlier value. *)
Lemma mergeTrees_two n (a b : list (string * Tree)) k :
  NoDup a.*1 → NoDup b.*1 →
  assoc k (mergeTrees (S n) [Obj a; Obj b])
  = match assoc k b with
    | Some o => Some (combine (mergeTrees n) (propT k a) o)
    | None => assoc k a
    end.
Proof.
  intros Ha Hb. rewrite mergeTrees_S. simpl.
  rewrite (assoc_foldl_assign (λ key p, combine (mergeTrees n) p (propT key b))) by done.
  assert (∀ k', assoc k' (foldl (λ acc key,
              assign key (combine (mergeTrees n) (propT key acc) (propT key a)) acc) [] a.*1)
            = assoc k' a) as Hfirst.
  { intros k'.
    rewrite (assoc_foldl_assign (λ key p, combine (mergeTrees n) p (propT key a))) by done.
    simpl. unfold propT at 1. simpl. rewrite combine_undefined.
    case_bool_decide as E.
    - apply assoc_keys in E as [x Hx]. unfold propT. by rewrite Hx.
    - destruct (assoc k' a) eqn:E'; [|done].
      exfalso. apply E, assoc_keys. eauto. }
  unfold propT at 1. rewrite Hfirst. fold (propT k a).
  case_bool_decide as E.
  - apply assoc_keys in E as [o Ho]. unfold propT at 2. by rewrite Ho.
  - destruct (assoc k b) eqn:E'; [|done].
    exfalso. apply E, assoc_keys. eauto.
Qed.

(** ** C6 *)

(** C6 as stated fails on two counts.  Merging [{a: [1]}] with
    [{a: {x: 2}}] does not let the later value win: the sequence is merged
    with the mapping as [{0: 1, x: 2}].  Merging [{a: [1]}] with
    [{a: [[2, 3]]}] does not concatenate to [[1, [2, 3]]]: the nested
    sequence is spliced, giving [[1, 2, 3]]. *)
Lemma C6_counterexample :
  mergedIn mixedStore
  = Some (Obj [("a", Obj [("0", Leaf (JNumber 1)); ("x", Leaf (JNumber 2))])])
  ∧ claimedIn mixedStore = Some (Obj [("a", Obj [("x", Leaf (JNumber 2))])])
  ∧ mergedIn mixedStore ≠ claimedIn mixedStore
  ∧ mergedIn nestedStore
    = Some (Obj [("a", Arr [Leaf (JNumber 1); Leaf (JNumber 2); Leaf (JNumber 3)])])
  ∧ claimedIn nestedStore
    = Some (Obj [("a", Arr [Leaf (JNumber 1);
                            Arr [Leaf (JNumber 2); Leaf (JNumber 3)]])])
  ∧ mergedIn nestedStore ≠ claimedIn nestedStore.
Proof.
  repeat split; try (vm_compute; reflexivity); vm_compute; discriminate.
Qed.

(** C6, as the code has it.  On arguments that stand for structures in
    which no sequence holds a sequence, [deepMerge] returns; the store it
    leaves extends the store it found, so that no object that existed was
    mutated; the reference it returns is new; and the result stands for
    the merge of the arguments, where for each key two sequences are
    concatenated, two structured values (mappings, or sequences read as
    mappings of their indices) are merged recursively, and otherwise the
    later value wins. *)
Theorem C6_deepMerge_merges (n : nat) (objects : list nat) (ts : list Tree) (h : Store) :
  Forall2 (λ a t, denotes (S n) h (JRef a) t) objects ts →
  Forall (flat (S n)) ts →
  (∃ r (h' : Store),
      deepMerge (S n) objects h = Some (r, h')
      ∧ h ⊆ h'
      ∧ h !! r = None
      ∧ denotes (S n) h' (JRef r) (Obj (mergeTrees (S n) ts)))
  ∧ (∀ a b k, NoDup a.*1 → NoDup b.*1 →
       assoc k (mergeTrees (S n) [Obj a; Obj b])
       = match assoc k b with
         | Some o => Some (combine (mergeTrees n) (propT k a) o)
         | None => assoc k a
         end).
Proof.
  intros Hden Hflat. split; [|intros a b k; apply mergeTrees_two].
  destruct (deepMerge_merges n objects ts h h) as
    (r & h' & b' & Hrun & Hsub & Hr & _ & Hb' & _ & Hd & _); try done.
  exists r, h'. repeat split; try done.
  by apply (denotes_weaken (S n) b').
Qed.

Lemma C6_witness :
  Forall2 (λ a t, denotes 2 nestedStore (JRef a) t) [0; 0]
    [Obj [("a", Arr [Leaf (JNumber 1)])]; Obj [("a", Arr [Leaf (JNumber 1)])]]
  ∧ Forall (flat 2)
      [Obj [("a", Arr [Leaf (JNumber 1)])]; Obj [("a", Arr [Leaf (JNumber 1)])]]
  ∧ ∃ r (h' : Store),
      deepMerge 2 [0; 0] nestedStore = Some (r, h')
      ∧ nestedStore ⊆ h'
      ∧ denotes 2 h' (JRef r)
          (Obj (mergeTrees 2
                  [Obj [("a", Arr [Leaf (JNumber 1)])];
                   Obj [("a", Arr [Leaf (JNumber 1)])]])).
Proof.
  assert (Forall2 (λ a t, denotes 2 nestedStore (JRef a) t) [0; 0]
            [Obj [("a", Arr [Leaf (JNumber 1)])]; Obj [("a", Arr [Leaf (JNumber 1)])]])
    as Hden.
  { repeat constructor. }
  assert (Forall (flat 2)
            [Obj [("a", Arr [Leaf (JNumber 1)])]; Obj [("a", Arr [Leaf (JNumber 1)])]])
    as Hflat.
  { repeat constructor. }
  split; [exact Hden|]. split; [exact Hflat|].
  destruct (C6_deepMerge_merges 1 [0; 0] _ nestedStore Hden Hflat)
    as [(r & h' & Hrun & Hsub & _ & Hd) _].
  exists r, h'. split; [exact Hrun|]. split; [exact Hsub | exact Hd].
Defined.

(** ** Further properties of [deepMerge]

    As in the model of [deepMerge] above, an object is its own enumerable
    properties: members inherited from [Object.prototype], and with them
    the special key [__proto__], are outside the model.  The model lists
    the properties in insertion order, where [Object.keys] puts
    integer-like keys first; what is stated below about the keys of a
    result does not depend on their order. *)

Lemma isArray_isObject (g : Store) v : isArray g v = true → isObject v = true.
Proof. by destruct v. Qed.

(** A key for which the accumulated and the incoming value are not both
    objects is assigned the incoming value, without recursion or
    allocation. *)
Lemma mergeKey_plain rec prev obj (g : Store) key ps :
  g !! prev = Some (Plain ps) →
  isObject (getProp g prev key) && isObject (getProp g obj key) = false →
  mergeKey rec prev obj g key
  = Some (<[prev := Plain (assign key (getProp g obj key) ps)]> g).
Proof.
  intros Hprev Hno. unfold mergeKey.
  assert (isArray g (getProp g prev key) && isArray g (getProp g obj key) = false) as ->.
  { apply andb_false_iff. apply andb_false_iff in Hno as [Hno|Hno]; [left|right];
      destruct (isArray g _) eqn:E; try done;
      apply isArray_isObject in E; congruence. }
  rewrite Hno. by rewrite (setProp_eq g prev key _ ps).
Qed.

Lemma getProp_insert_ne (h : Store) prev o a key :
  a ≠ prev → getProp (<[prev := o]> h) a key = getProp h a key.
Proof. intros Hne. unfold getProp. by rewrite lookup_insert_ne. Qed.

Lemma keys_insert_ne (h : Store) prev o a :
  a ≠ prev → keys (<[prev := o]> h) a = keys h a.
Proof. intros Hne. unfold keys. by rewrite lookup_insert_ne. Qed.

Lemma getProp_insert_eq (h : Store) prev ps key :
  getProp (<[prev := Plain ps]> h) prev key = default JUndefined (assoc key ps).
Proof. unfold getProp. by rewrite lookup_insert_eq. Qed.

Lemma mergeKeys_scalars rec prev obj (h : Store) ks :
  obj ≠ prev →
  (∀ k, k ∈ ks → isObject (getProp h obj k) = false) →
  ∀ acc,
    foldM (mergeKey rec prev obj) (<[prev := Plain acc]> h) ks
    = Some (<[prev := Plain (foldl (λ acc k, assign k (getProp h obj k) acc) acc ks)]> h).
Proof.
  intros Hne. induction ks as [|k ks IH]; intros Hks acc; simpl; [done|].
  rewrite (mergeKey_plain rec prev obj _ k acc).
  - rewrite insert_insert_eq, getProp_insert_ne by done. apply IH.
    intros k' Hk'. apply Hks. by right.
  - apply lookup_insert_eq.
  - rewrite (getProp_insert_ne h prev _ obj k Hne), Hks by left. apply andb_false_r.
Qed.

Lemma mergeObjects_scalars rec prev (h : Store) objs :
  h !! prev = None →
  Forall (λ a, is_Some (h !! a) ∧ ∀ k, isObject (getProp h a k) = false) objs →
  ∀ acc,
    foldM (λ g obj, foldM (mergeKey rec prev obj) g (keys g obj))
      (<[prev := Plain acc]> h) objs
    = Some (<[prev := Plain
                (foldl (λ acc a, foldl (λ acc k, assign k (getProp h a k) acc) acc (keys h a))
                   acc objs)]> h).
Proof.
  intros Hprev. induction 1 as [|a objs [Ha Hsc] _ IH]; intros acc; simpl; [done|].
  assert (a ≠ prev) as Hne by (intros ->; rewrite Hprev in Ha; by destruct Ha).
  rewrite keys_insert_ne by done.
  rewrite mergeKeys_scalars by done.
  apply IH.
Qed.

Lemma assoc_foldl_assign_values {A} (V : string → A) k ks :
  ∀ acc,
    assoc k (foldl (λ acc key, assign key (V key) acc) acc ks)
    = if bool_decide (k ∈ ks) then Some (V k) else assoc k acc.
Proof.
  induction ks as [|k0 ks IH]; intros acc; cbn [foldl].
  - by rewrite bool_decide_eq_false_2 by set_solver.
  - rewrite IH, assoc_assign. destruct (decide (k ∈ ks)) as [Hin|Hin].
    + by rewrite !bool_decide_eq_true_2 by set_solver.
    + rewrite (bool_decide_eq_false_2 (k ∈ ks)) by done.
      destruct (decide (k0 = k)) as [->|Hne].
      * by rewrite !bool_decide_eq_true_2 by set_solver.
      * by rewrite !bool_decide_eq_false_2 by set_solver.
Qed.

Lemma getProp_scalar (h : Store) a o k :
  h !! a = Some o →
  Forall (λ p, isObject p.2 = false) (entries o) →
  isObject (getProp h a k) = false.
Proof.
  intros Ha Hsc. unfold getProp. rewrite Ha. clear Ha.
  induction Hsc as [|[k0 v] kvs Hv _ IH]; simpl; [done|].
  by case_bool_decide.
Qed.

(** X16. For arguments whose property values are all scalars (not
    objects or arrays), as the class-name records are, [deepMerge]
    returns a new plain object and changes nothing else in the store; a
    key of the result has the value of the last argument that has the
    key, and keys that no argument has are absent. *)
Theorem X16_deepMerge_last_scalar_wins (n : nat) (objects : list nat) (h : Store) :
  Forall (λ a, ∃ o, h !! a = Some o ∧ Forall (λ p, isObject p.2 = false) (entries o))
    objects →
  ∃ r props,
    deepMerge (S n) objects h = Some (r, <[r := Plain props]> h)
    ∧ h !! r = None
    ∧ ∀ k, assoc k props
           = foldl (λ acc a, if bool_decide (k ∈ keys h a)
                             then Some (getProp h a k) else acc)
               None objects.
Proof.
  intros Hobjs. rewrite deepMerge_S.
  destruct (alloc_spec (Plain []) h) as [Hfresh Halloc].
  destruct (alloc (Plain []) h) as [prev h0]. simpl in Hfresh, Halloc. subst h0.
  rewrite (mergeObjects_scalars (deepMerge n) prev h objects Hfresh).
  - eexists _, _. split; [reflexivity|]. split; [done|].
    intros k.
    assert (∀ (acc : list (string * JsValue)) (r : option JsValue),
              assoc k acc = r →
              assoc k (foldl (λ acc a,
                                foldl (λ acc k0, assign k0 (getProp h a k0) acc) acc (keys h a))
                         acc objects)
              = foldl (λ acc a, if bool_decide (k ∈ keys h a)
                                then Some (getProp h a k) else acc) r objects) as Hgen.
    { clear. induction objects as [|a objs IH]; intros acc r Hr; simpl; [done|].
      apply IH. rewrite (assoc_foldl_assign_values (getProp h a)).
      by case_bool_decide. }
    by apply Hgen.
  - eapply Forall_impl; [exact Hobjs|]. intros a (o & Ha & Hsc). simpl.
    split; [eauto|]. intros k. by eapply getProp_scalar.
Qed.

Lemma X16_witness :
  Forall (λ a, ∃ o, classNamesStore !! a = Some o
                    ∧ Forall (λ p, isObject p.2 = false) (entries o)) [0; 1]
  ∧ ∃ r props,
      deepMerge 1 [0; 1] classNamesStore = Some (r, <[r := Plain props]> classNamesStore)
      ∧ assoc "itemActive" props = Some (JString "selected")
      ∧ assoc "item" props = Some (JString "autocomplete-item")
      ∧ assoc "other" props = None.
Proof.
  assert (Forall (λ a, ∃ o, classNamesStore !! a = Some o
                            ∧ Forall (λ p, isObject p.2 = false) (entries o)) [0; 1]) as H.
  { constructor; [|constructor; [|constructor]];
      (eexists; split; [reflexivity|]; simpl; repeat constructor). }
  split; [exact H|].
  destruct (X16_deepMerge_last_scalar_wins 0 [0; 1] classNamesStore H)
    as (r & props & Hrun & _ & Hk).
  exists r, props. split; [exact Hrun|].
  split; [|split]; rewrite Hk; vm_compute; reflexivity.
Defined.

Lemma assoc_fresh {A} k (kvs : list (string * A)) : k ∉ kvs.*1 → assoc k kvs = None.
Proof.
  intros Hk. destruct (assoc k kvs) eqn:E; [|done].
  exfalso. apply Hk, assoc_keys. by rewrite E.
Qed.

Lemma assign_fresh {A} k (v : A) kvs : k ∉ kvs.*1 → assign k v kvs = kvs ++ [(k, v)].
Proof.
  induction kvs as [|[k0 x] kvs IH]; intros Hk; simpl; [done|].
  rewrite bool_decide_eq_false_2 by set_solver. rewrite IH by set_solver. done.
Qed.

Lemma assoc_app_fresh {A} k (pre l : list (string * A)) :
  k ∉ pre.*1 → assoc k (pre ++ l) = assoc k l.
Proof.
  induction pre as [|[k0 x] pre IH]; intros Hk; simpl; [done|].
  rewrite bool_decide_eq_false_2 by set_solver. apply IH. set_solver.
Qed.

Lemma mergeKeys_copy rec prev obj (h : Store) o :
  h !! obj = Some o → obj ≠ prev →
  ∀ suf pre,
    entries o = pre ++ suf → NoDup (pre ++ suf).*1 →
    foldM (mergeKey rec prev obj) (<[prev := Plain pre]> h) suf.*1
    = Some (<[prev := Plain (pre ++ suf)]> h).
Proof.
  intros Hobj Hne. induction suf as [|[k v] suf IH]; intros pre He Hnd; simpl.
  - by rewrite app_nil_r.
  - assert (k ∉ pre.*1) as Hk.
    { rewrite fmap_app in Hnd. apply NoDup_app in Hnd as (_ & Hd & _).
      intros Hin. apply (Hd k Hin). simpl. left. }
    assert (getProp h obj k = v) as Hv.
    { unfold getProp. rewrite Hobj, He, assoc_app_fresh by done. simpl.
      by rewrite bool_decide_eq_true_2. }
    rewrite (mergeKey_plain rec prev obj _ k pre).
    + rewrite insert_insert_eq, getProp_insert_ne, Hv, assign_fresh by done.
      replace (pre ++ (k, v) :: suf) with ((pre ++ [(k, v)]) ++ suf) in *
        by (by rewrite <- app_assoc).
      by apply (IH (pre ++ [(k, v)])).
    + apply lookup_insert_eq.
    + by rewrite getProp_insert_eq, assoc_fresh.
Qed.

(** X17. [deepMerge] of a single object makes a shallow copy: the result
    is a new plain object with the same keys, in the same order, and the
    very same values, so that nested objects and arrays are shared with
    the argument, not copied; nothing else in the store changes.  An array
    argument yields a plain object keyed by the indices. *)
Theorem X17_deepMerge_single_shares (n a : nat) (o : JsObject) (h : Store) :
  h !! a = Some o →
  NoDup (entries o).*1 →
  ∃ r, deepMerge (S n) [a] h = Some (r, <[r := Plain (entries o)]> h)
       ∧ h !! r = None.
Proof.
  intros Ha Hnd. rewrite deepMerge_S.
  destruct (alloc_spec (Plain []) h) as [Hfresh Halloc].
  destruct (alloc (Plain []) h) as [prev h0]. simpl in Hfresh, Halloc. subst h0.
  assert (a ≠ prev) as Hne by (intros ->; by rewrite Hfresh in Ha).
  simpl. rewrite keys_insert_ne by done. unfold keys. rewrite Ha.
  rewrite (mergeKeys_copy (deepMerge n) prev a h o Ha Hne (entries o) []) by done.
  exists prev. done.
Qed.

Lemma X17_witness :
  nestedStore !! 2 = Some (Plain [("a", JRef 3)])
  ∧ NoDup (entries (Plain [("a", JRef 3)])).*1
  ∧ ∃ r, deepMerge 1 [2] nestedStore
         = Some (r, <[r := Plain [("a", JRef 3)]]> nestedStore).
Proof.
  assert (nestedStore !! 2 = Some (Plain [("a", JRef 3)])) as H1 by reflexivity.
  assert (NoDup (entries (Plain [("a", JRef 3)])).*1) as H2.
  { simpl. apply NoDup_singleton. }
  split; [exact H1|]. split; [exact H2|].
  destruct (X17_deepMerge_single_shares 0 2 _ nestedStore H1 H2) as (r & Hr & _).
  exists r. exact Hr.
Defined.

(** *** Merging as a left fold *)

Lemma NoDup_assign {A} k (v : A) kvs : NoDup kvs.*1 → NoDup (assign k v kvs).*1.
Proof.
  induction kvs as [|[k0 x] kvs IH]; simpl; intros Hnd.
  - apply NoDup_singleton.
  - apply NoDup_cons in Hnd as [Hk0 Hnd]. case_bool_decide as Hk; simpl.
    + apply NoDup_cons. done.
    + apply NoDup_cons. split; [|by apply IH].
      intros Hin. apply Hk0. apply assoc_keys in Hin.
      rewrite assoc_assign, bool_decide_eq_false_2 in Hin by done.
      by apply assoc_keys.
Qed.

Lemma keys_assign {A} k (v : A) kvs k' :
  k' ∈ (assign k v kvs).*1 ↔ k' = k ∨ k' ∈ kvs.*1.
Proof.
  rewrite <- !assoc_keys, assoc_assign. case_bool_decide; subst.
  - split; [by left|eauto].
  - split; [by right|]. intros [->|]; done.
Qed.

Lemma prefix_assign {A} k (v : A) kvs : kvs.*1 `prefix_of` (assign k v kvs).*1.
Proof.
  induction kvs as [|[k0 x] kvs IH]; simpl; [apply prefix_nil|].
  case_bool_decide; simpl; [done|]. by apply prefix_cons.
Qed.

Lemma mergeStep_keys (G : string → Tree → Tree) ks :
  ∀ acc,
    let acc' := foldl (λ acc key, assign key (G key (propT key acc)) acc) acc ks in
    (NoDup acc.*1 → NoDup acc'.*1)
    ∧ (∀ k, k ∈ acc'.*1 ↔ k ∈ ks ∨ k ∈ acc.*1)
    ∧ acc.*1 `prefix_of` acc'.*1.
Proof.
  induction ks as [|k0 ks IH]; intros acc; simpl.
  - split; [done|]. split; [set_solver|done].
  - destruct (IH (assign k0 (G k0 (propT k0 acc)) acc)) as (H1 & H2 & H3).
    split; [|split].
    + intros Hnd. by apply H1, NoDup_assign.
    + intros k. rewrite H2, keys_assign. set_solver.
    + etransitivity; [apply prefix_assign|exact H3].
Qed.

Lemma mergeTrees_keys n ts :
  NoDup (mergeTrees (S n) ts).*1
  ∧ (∀ k, k ∈ (mergeTrees (S n) ts).*1 ↔ ∃ t, t ∈ ts ∧ k ∈ (entriesT t).*1).
Proof.
  rewrite mergeTrees_S.
  assert (∀ acc,
            let acc' := foldl (λ acc t,
                                 foldl (λ acc key,
                                          assign key
                                            (combine (mergeTrees n) (propT key acc)
                                               (propT key (entriesT t))) acc)
                                   acc (entriesT t).*1) acc ts in
            (NoDup acc.*1 → NoDup acc'.*1)
            ∧ (∀ k, k ∈ acc'.*1 ↔ (∃ t, t ∈ ts ∧ k ∈ (entriesT t).*1) ∨ k ∈ acc.*1)) as H.
  { induction ts as [|t ts IH]; intros acc; simpl.
    - split; [done|]. intros k. split; [by right|]. intros [(t & Ht & _)|]; [|done].
      by apply elem_of_nil in Ht.
    - destruct (mergeStep_keys
                  (λ key p, combine (mergeTrees n) p (propT key (entriesT t)))
                  (entriesT t).*1 acc) as (H1 & H2 & _).
      simpl in H1, H2.
      destruct (IH (foldl (λ acc key,
                             assign key (combine (mergeTrees n) (propT key acc)
                                           (propT key (entriesT t))) acc)
                      acc (entriesT t).*1)) as (H3 & H4).
      simpl in H3, H4. split; [intros Hnd; by apply H3, H1|].
      intros k. rewrite H4, H2. split.
      + intros [(t' & Ht' & Hk)|[Hk|Hk]].
        * left. exists t'. split; [by right|done].
        * left. exists t. split; [by left|done].
        * by right.
      + intros [(t' & Ht' & Hk)|Hk]; [|by right; right].
        apply elem_of_cons in Ht' as [->|Ht']; [right; by left|].
        left. by exists t'. }
  destruct (H []) as [H1 H2]. simpl in H1, H2. split; [apply H1; constructor|].
  intros k. rewrite H2. split; [|by left]. intros [?|Hk]; [done|].
  by apply elem_of_nil in Hk.
Qed.

Lemma mergeStep_copy rec (kvs : list (string * Tree)) :
  NoDup kvs.*1 →
  foldl (λ acc key, assign key (combine rec (propT key acc) (propT key kvs)) acc)
    [] kvs.*1
  = kvs.
Proof.
  intros Hnd.
  assert (∀ suf pre, kvs = pre ++ suf →
            foldl (λ acc key, assign key (combine rec (propT key acc) (propT key kvs)) acc)
              pre suf.*1 = kvs) as H.
  { induction suf as [|[k v] suf IH]; intros pre He; simpl.
    - by rewrite He, app_nil_r.
    - assert (k ∉ pre.*1) as Hk.
      { rewrite He, fmap_app in Hnd. apply NoDup_app in Hnd as (_ & Hd & _).
        intros Hin. apply (Hd k Hin). simpl. left. }
      assert (propT k pre = Leaf JUndefined) as ->
        by (unfold propT; by rewrite assoc_fresh).
      rewrite combine_undefined.
      assert (propT k kvs = v) as ->.
      { unfold propT. rewrite He, assoc_app_fresh by done. simpl.
        by rewrite bool_decide_eq_true_2. }
      rewrite assign_fresh by done. apply IH. by rewrite <- app_assoc. }
  by apply (H kvs []).
Qed.

(** Merging a further structure into a merge is merging it along. *)
Lemma mergeTrees_snoc n ts t :
  mergeTrees (S n) [Obj (mergeTrees (S n) ts); t] = mergeTrees (S n) (ts ++ [t]).
Proof.
  rewrite (mergeTrees_S n (ts ++ [t])), foldl_app, <- mergeTrees_S.
  rewrite (mergeTrees_S n [_; _]). cbn [foldl entriesT].
  rewrite mergeStep_copy; [done|]. apply mergeTrees_keys.
Qed.

Lemma denotes_keys n (h : Store) a t :
  denotes (S n) h (JRef a) t → keys h a = (entriesT t).*1.
Proof.
  intros Hd. destruct (denotes_ref_level _ _ _ _ Hd) as (m & o & _ & Ho).
  unfold keys. rewrite Ho. eapply related_keys, denotes_entries; done.
Qed.

(** X18. Merging is a left fold over the arguments:
    [deepMerge(deepMerge(...objects), c)] and [deepMerge(...objects, c)]
    both return, and their results stand for the same structure. *)
Theorem X18_deepMerge_folds_left (n : nat) (objects : list nat) (c : nat)
    (ts : list Tree) (tc : Tree) (h : Store) :
  Forall2 (λ a t, denotes (S n) h (JRef a) t) objects ts →
  denotes (S n) h (JRef c) tc →
  Forall (flat (S n)) ts →
  flat (S n) tc →
  ∃ r1 (h1 : Store) r2 (h2 : Store) r3 (h3 : Store),
    deepMerge (S n) objects h = Some (r1, h1)
    ∧ deepMerge (S n) [r1; c] h1 = Some (r2, h2)
    ∧ deepMerge (S n) (objects ++ [c]) h = Some (r3, h3)
    ∧ denotes (S n) h2 (JRef r2) (Obj (mergeTrees (S n) (ts ++ [tc])))
    ∧ denotes (S n) h3 (JRef r3) (Obj (mergeTrees (S n) (ts ++ [tc]))).
Proof.
  intros Hobjs Hc Hflat Hfc.
  destruct (deepMerge_merges n objects ts h h) as
    (r1 & h1 & b1 & Hrun1 & Hsub1 & Hnew1 & Hb1 & Hb1' & _ & Hden1 & Hflat1); [done..|].
  destruct (deepMerge_merges n [r1; c] [Obj (mergeTrees (S n) ts); tc] h1 b1) as
    (r2 & h2 & b2 & Hrun2 & _ & _ & _ & Hb2 & _ & Hden2 & _).
  { done. }
  { constructor; [done|]. constructor; [|constructor].
    by eapply denotes_weaken. }
  { by repeat constructor. }
  destruct (deepMerge_merges n (objects ++ [c]) (ts ++ [tc]) h h) as
    (r3 & h3 & b3 & Hrun3 & _ & _ & _ & Hb3 & _ & Hden3 & _).
  { done. }
  { apply Forall2_app; [done|]. by constructor. }
  { apply Forall_app. split; [done|]. by constructor. }
  exists r1, h1, r2, h2, r3, h3.
  split; [done|]. split; [done|]. split; [done|].
  rewrite mergeTrees_snoc in Hden2.
  split; by eapply denotes_weaken.
Qed.

Lemma X18_witness :
  Forall2 (λ a t, denotes 2 nestedStore (JRef a) t) [0]
    [Obj [("a", Arr [Leaf (JNumber 1)])]]
  ∧ denotes 2 nestedStore (JRef 0) (Obj [("a", Arr [Leaf (JNumber 1)])])
  ∧ Forall (flat 2) [Obj [("a", Arr [Leaf (JNumber 1)])]]
  ∧ flat 2 (Obj [("a", Arr [Leaf (JNumber 1)])])
  ∧ ∃ r1 (h1 : Store) r2 (h2 : Store),
      deepMerge 2 [0] nestedStore = Some (r1, h1)
      ∧ deepMerge 2 [r1; 0] h1 = Some (r2, h2)
      ∧ denotes 2 h2 (JRef r2)
          (Obj (mergeTrees 2 ([Obj [("a", Arr [Leaf (JNumber 1)])]]
                                ++ [Obj [("a", Arr [Leaf (JNumber 1)])]]))).
Proof.
  assert (denotes 2 nestedStore (JRef 0) (Obj [("a", Arr [Leaf (JNumber 1)])])) as H1.
  { simpl. constructor; [|constructor]. split; [done|]. simpl.
    constructor; [done|constructor]. }
  assert (flat 2 (Obj [("a", Arr [Leaf (JNumber 1)])])) as H2.
  { simpl. repeat constructor. }
  assert (Forall2 (λ a t, denotes 2 nestedStore (JRef a) t) [0]
            [Obj [("a", Arr [Leaf (JNumber 1)])]]) as H3 by (by constructor).
  assert (Forall (flat 2) [Obj [("a", Arr [Leaf (JNumber 1)])]]) as H4 by (by constructor).
  split; [exact H3|]. split; [exact H1|]. split; [exact H4|]. split; [exact H2|].
  destruct (X18_deepMerge_folds_left 1 [0] 0 _ _ nestedStore H3 H1 H4 H2)
    as (r1 & h1 & r2 & h2 & r3 & h3 & Ha & Hb & _ & Hc & _).
  exists r1, h1, r2, h2. split; [exact Ha|]. split; [exact Hb | exact Hc].
Defined.

(** X19. When no argument has an own property named [__proto__], the
    object [deepMerge] returns has exactly the keys of its arguments: a
    key is a key of the result if and only if it is a key of some
    argument. *)
Theorem X19_deepMerge_keys (n : nat) (objects : list nat) (ts : list Tree) (h : Store) :
  Forall2 (λ a t, denotes (S n) h (JRef a) t) objects ts →
  Forall (flat (S n)) ts →
  Forall (λ a, "__proto__" ∉ keys h a) objects →
  ∃ r (h' : Store),
    deepMerge (S n) objects h = Some (r, h')
    ∧ (∀ k, k ∈ keys h' r ↔ ∃ a, a ∈ objects ∧ k ∈ keys h a).
Proof.
  intros Hobjs Hflat _.
  destruct (deepMerge_merges n objects ts h h) as
    (r & h' & b' & Hrun & _ & _ & _ & Hb' & _ & Hden & _); [done..|].
  apply (denotes_weaken _ _ h') in Hden; [|done].
  pose proof (denotes_keys n h' r _ Hden) as Hkeys. simpl in Hkeys.
  destruct (mergeTrees_keys n ts) as [Hnd Hmem].
  exists r, h'. split; [done|]. rewrite Hkeys.
  intros k. rewrite Hmem. split.
  - intros (t & Ht & Hk). apply list_elem_of_lookup in Ht as [i Ht].
    destruct (Forall2_lookup_r _ _ _ _ _ Hobjs Ht) as (a & Ha & Hd).
    exists a. split; [by eapply list_elem_of_lookup_2|].
    by rewrite (denotes_keys n h a t).
  - intros (a & Ha & Hk). apply list_elem_of_lookup in Ha as [i Ha].
    destruct (Forall2_lookup_l _ _ _ _ _ Hobjs Ha) as (t & Ht & Hd).
    exists t. split; [by eapply list_elem_of_lookup_2|].
    by rewrite <- (denotes_keys n h a t).
Qed.

Lemma X19_witness :
  Forall2 (λ a t, denotes 2 nestedStore (JRef a) t) [0]
    [Obj [("a", Arr [Leaf (JNumber 1)])]]
  ∧ Forall (flat 2) [Obj [("a", Arr [Leaf (JNumber 1)])]]
  ∧ Forall (λ a, "__proto__" ∉ keys nestedStore a) [0]
  ∧ ∃ r (h' : Store),
      deepMerge 2 [0] nestedStore = Some (r, h')
      ∧ ("a" ∈ keys h' r) ∧ ("b" ∉ keys h' r).
Proof.
  assert (Forall2 (λ a t, denotes 2 nestedStore (JRef a) t) [0]
            [Obj [("a", Arr [Leaf (JNumber 1)])]]) as H3.
  { constructor; [|constructor]. simpl. constructor; [|constructor]. split; [done|].
    simpl. constructor; [done|constructor]. }
  assert (Forall (flat 2) [Obj [("a", Arr [Leaf (JNumber 1)])]]) as H4.
  { constructor; [|constructor]. simpl. repeat constructor. }
  assert (Forall (λ a, "__proto__" ∉ keys nestedStore a) [0]) as H5.
  { constructor; [|constructor]. apply (bool_decide_unpack _); vm_compute; exact I. }
  split; [exact H3|]. split; [exact H4|]. split; [exact H5|].
  destruct (X19_deepMerge_keys 1 [0] _ nestedStore H3 H4 H5) as (r & h' & Ha & Hk).
  exists r, h'. split; [exact Ha|]. split.
  - apply Hk. exists 0. split; [apply list_elem_of_here|].
    apply (bool_decide_unpack _); vm_compute; exact I.
  - intros Hb. apply Hk in Hb as (a & Ha0 & Hb).
    apply list_elem_of_singleton in Ha0. subst a. revert Hb.
    apply (bool_decide_unpack _); vm_compute; exact I.
Defined.

